(** * Accessibility analyzer: the scoring heuristic and the two HTTP handlers

    A shallow embedding of the React client ([analyzePage],
    [getSimulatedAnalysis], [runAccessibilityCheck], [handleAnalyze]) and of
    the Express server ([GET /scan], [POST /analyze]).

    JavaScript values are embedded as follows.
    - A number that the code only ever obtains by counting list elements is a
      [nat]; the score arithmetic is done in [Z]; [Math.round] is applied to
      the rational image of the score.
    - A string is a [string], the bytes of its UTF-8 form; indices into it
      are [Z], because [indexOf] answers [-1] and [slice] accepts negative
      positions.
    - A field that the rule engine fills with a string, or leaves out, is a
      [jsval]; an array-valued field that may be missing is an [option].
    - The object used as a counter table is a [gmap string nat]; it stands
      for the object at every key that an object does not inherit from
      [Object.prototype], the four keys that are read back among them.
    - A function that can throw returns an [outcome]. *)

From Stdlib Require Import ZArith QArith Qround Lia.
From Stdlib Require Import Ascii String DecimalString.
From stdpp Require Import base list strings gmap.

Close Scope Q_scope.
Local Open Scope Z_scope.

(** ** JavaScript builtins *)

Module JS.

(** The values a text field of a rule result can hold. *)
Inductive jsval : Type :=
| VUndefined
| VNull
| VString (s : string).

(** [ToBoolean]: a string is truthy unless it is empty. *)
Definition truthy (v : jsval) : bool :=
  match v with
  | VString s => negb (String.eqb s "")
  | _ => false
  end.

(** [a || b] *)
Definition or (a b : jsval) : jsval := if truthy a then a else b.

(** [ToString], as a template literal applies it. *)
Definition to_string (v : jsval) : string :=
  match v with
  | VUndefined => "undefined"
  | VNull => "null"
  | VString s => s
  end.

(** [v === 'k'] for a string literal [k]. *)
Definition strict_eq (v : jsval) (k : string) : bool :=
  match v with
  | VString s => String.eqb s k
  | _ => false
  end.

(** The decimal rendering of a count inside a template literal. *)
Definition of_nat (n : nat) : string := NilEmpty.string_of_uint (Nat.to_uint n).

Definition upper (c : ascii) : ascii :=
  let n := nat_of_ascii c in
  if (97 <=? n)%nat && (n <=? 122)%nat then ascii_of_nat (n - 32) else c.

(** [String.prototype.toUpperCase] on the ASCII letters; the impact tags of
    the rule engine are ASCII words. *)
Fixpoint toUpperCase (s : string) : string :=
  match s with
  | EmptyString => EmptyString
  | String c r => String (upper c) (toUpperCase r)
  end.

(** [Math.round]: the integer nearest to [x], a tie going up. *)
Definition Math_round (x : Q) : Z := Qfloor (x + (1 # 2))%Q.

(** An error object.  [stack] holds the first line of the trace that V8
    records; the call-site lines that follow it carry nothing of the
    request and are left out. *)
Record error : Type := { message : string; stack : string }.

Definition Error (msg : string) : error :=
  {| message := msg; stack := "Error: " +:+ msg |}.
Definition TypeError (msg : string) : error :=
  {| message := msg; stack := "TypeError: " +:+ msg |}.
Definition SyntaxError (msg : string) : error :=
  {| message := msg; stack := "SyntaxError: " +:+ msg |}.

(** The result of code that can throw. *)
Inductive outcome (A : Type) : Type :=
| Returns (a : A)
| Throws (e : error).
Arguments Returns {A} a.
Arguments Throws {A} e.

Definition bind {A B} (m : outcome A) (k : A -> outcome B) : outcome B :=
  match m with
  | Returns a => k a
  | Throws e => Throws e
  end.

(** [Array.prototype.map] with a callback that can throw: the elements are
    visited in order and the first exception ends the loop. *)
Fixpoint map_throwing {A B} (f : A -> outcome B) (l : list A) : outcome (list B) :=
  match l with
  | [] => Returns []
  | x :: r =>
      bind (f x) (fun y => bind (map_throwing f r) (fun ys => Returns (y :: ys)))
  end.

(** [xs.slice(0, n)] *)
Definition slice0 {A} (n : nat) (xs : list A) : list A := take n xs.

(** Whether the character [ch] occurs in [s]. *)
Fixpoint occurs (ch : ascii) (s : string) : bool :=
  match s with
  | EmptyString => false
  | String c r => Ascii.eqb c ch || occurs ch r
  end.

(** The position of the first occurrence of [pat] in [s]. *)
Fixpoint find (pat s : string) : option nat :=
  if String.prefix pat s then Some 0%nat
  else
    match s with
    | EmptyString => None
    | String _ r => S <$> find pat r
    end.

Fixpoint drop_chars (n : nat) (s : string) : string :=
  match n, s with
  | S n, String _ r => drop_chars n r
  | _, _ => s
  end.

(** [s.indexOf(pat, fromIndex)]: [fromIndex] is clamped to the string, the
    answer is [-1] when there is no occurrence at or after it. *)
Definition indexOf (s pat : string) (fromIndex : Z) : Z :=
  let k := Z.to_nat (Z.min (Z.max fromIndex 0) (Z.of_nat (String.length s))) in
  match find pat (drop_chars k s) with
  | Some i => Z.of_nat (k + i)
  | None => -1
  end.

(** [s.slice(start, end)]: a negative position counts from the end, both are
    clamped to the string, and the result is empty unless [start < end]. *)
Definition slice (s : string) (start end_ : Z) : string :=
  let len := Z.of_nat (String.length s) in
  let from := if start <? 0 then Z.max (len + start) 0 else Z.min start len in
  let to := if end_ <? 0 then Z.max (len + end_) 0 else Z.min end_ len in
  String.substring (Z.to_nat from) (Z.to_nat (Z.max (to - from) 0)) s.

(** What V8 throws for [undefined.length]. *)
Definition undefined_length : error :=
  TypeError "Cannot read properties of undefined (reading 'length')".

End JS.

Import JS.

Notation "'let*' x := m 'in' k" := (JS.bind m (fun x => k))
  (at level 10, x name, m at level 100, k at level 200).

(** ** [JSON.parse] and [JSON.stringify]

    The grammar of ECMA-404 as a recursive-descent parser over the text.  A
    string is a byte string here; an escape [\uXXXX] is decoded to the UTF-8
    bytes of its code unit, and a number keeps its lexeme. *)

Module Json.

#[warnings="-register-all"] Inductive json : Type :=
| JNull
| JBool (b : bool)
| JNum (lexeme : string)
| JStr (s : string)
| JArr (elements : list json)
| JObj (members : list (string * json)).

Definition dquote : ascii := "034"%char.
Definition backslash : ascii := "092"%char.

Definition is_ws (c : ascii) : bool :=
  Ascii.eqb c " " || Ascii.eqb c "009" || Ascii.eqb c "010" || Ascii.eqb c "013".

Fixpoint skip_ws (s : string) : string :=
  match s with
  | String c r => if is_ws c then skip_ws r else s
  | EmptyString => s
  end.

Definition is_digit (c : ascii) : bool :=
  let n := nat_of_ascii c in (48 <=? n)%nat && (n <=? 57)%nat.

(** The longest run of digits at the head of [s], and what follows it. *)
Fixpoint digits (s : string) : string * string :=
  match s with
  | String c r =>
      if is_digit c then let (ds, r') := digits r in (String c ds, r') else (EmptyString, s)
  | EmptyString => (EmptyString, EmptyString)
  end.

Definition digits1 (s : string) : option (string * string) :=
  match digits s with
  | (EmptyString, _) => None
  | (ds, r) => Some (ds, r)
  end.

Definition lex_sign (minus_only : bool) (s : string) : string * string :=
  match s with
  | String c r =>
      if Ascii.eqb c "-" || (negb minus_only && Ascii.eqb c "+")
      then (String c EmptyString, r) else (EmptyString, s)
  | EmptyString => (EmptyString, s)
  end.

Definition lex_int (s : string) : option (string * string) :=
  match s with
  | String c r =>
      if Ascii.eqb c "0" then Some (String c EmptyString, r)
      else if is_digit c then let (ds, r') := digits r in Some (String c ds, r')
      else None
  | EmptyString => None
  end.

Definition lex_frac (s : string) : option (string * string) :=
  match s with
  | String c r =>
      if Ascii.eqb c "." then
        match digits1 r with
        | Some (ds, r') => Some (String c ds, r')
        | None => None
        end
      else Some (EmptyString, s)
  | EmptyString => Some (EmptyString, s)
  end.

Definition lex_exp (s : string) : option (string * string) :=
  match s with
  | String c r =>
      if Ascii.eqb c "e" || Ascii.eqb c "E" then
        let (sg, r1) := lex_sign false r in
        match digits1 r1 with
        | Some (ds, r2) => Some (String c (sg +:+ ds), r2)
        | None => None
        end
      else Some (EmptyString, s)
  | EmptyString => Some (EmptyString, s)
  end.

(** [-? int frac? exp?] *)
Definition lex_number (s : string) : option (string * string) :=
  let (sg, s0) := lex_sign true s in
  match lex_int s0 with
  | None => None
  | Some (i, s1) =>
      match lex_frac s1 with
      | None => None
      | Some (f, s2) =>
          match lex_exp s2 with
          | None => None
          | Some (e, s3) => Some (sg +:+ i +:+ f +:+ e, s3)
          end
      end
  end.

Definition hex_val (c : ascii) : option nat :=
  let n := nat_of_ascii c in
  if (48 <=? n)%nat && (n <=? 57)%nat then Some (n - 48)%nat
  else if (65 <=? n)%nat && (n <=? 70)%nat then Some (n - 55)%nat
  else if (97 <=? n)%nat && (n <=? 102)%nat then Some (n - 87)%nat
  else None.

Definition code_unit (h1 h2 h3 h4 : ascii) : option nat :=
  match hex_val h1, hex_val h2, hex_val h3, hex_val h4 with
  | Some a, Some b, Some c, Some d => Some (((a * 16 + b) * 16 + c) * 16 + d)%nat
  | _, _, _, _ => None
  end.

Definition utf8 (n : nat) : string :=
  if (n <? 128)%nat then String (ascii_of_nat n) EmptyString
  else if (n <? 2048)%nat then
    String (ascii_of_nat (192 + n / 64))
      (String (ascii_of_nat (128 + n mod 64)) EmptyString)
  else
    String (ascii_of_nat (224 + n / 4096))
      (String (ascii_of_nat (128 + (n / 64) mod 64))
         (String (ascii_of_nat (128 + n mod 64)) EmptyString)).

Definition unescape (c : ascii) : option ascii :=
  if Ascii.eqb c dquote then Some dquote
  else if Ascii.eqb c backslash then Some backslash
  else if Ascii.eqb c "/" then Some "/"%char
  else if Ascii.eqb c "b" then Some "008"%char
  else if Ascii.eqb c "f" then Some "012"%char
  else if Ascii.eqb c "n" then Some "010"%char
  else if Ascii.eqb c "r" then Some "013"%char
  else if Ascii.eqb c "t" then Some "009"%char
  else None.

Definition cons_chars (p : string) (o : option (string * string)) : option (string * string) :=
  match o with
  | Some (t, r) => Some (p +:+ t, r)
  | None => None
  end.

(** The characters of a string literal after its opening quote, up to the
    closing quote. *)
Fixpoint parse_chars (s : string) : option (string * string) :=
  match s with
  | EmptyString => None
  | String c r =>
      if Ascii.eqb c dquote then Some (EmptyString, r)
      else if Ascii.eqb c backslash then
        match r with
        | EmptyString => None
        | String e r1 =>
            if Ascii.eqb e "u" then
              match r1 with
              | String h1 (String h2 (String h3 (String h4 r2))) =>
                  match code_unit h1 h2 h3 h4 with
                  | Some n => cons_chars (utf8 n) (parse_chars r2)
                  | None => None
                  end
              | _ => None
              end
            else
              match unescape e with
              | Some d => cons_chars (String d EmptyString) (parse_chars r1)
              | None => None
              end
        end
      else if (nat_of_ascii c <? 32)%nat then None
      else cons_chars (String c EmptyString) (parse_chars r)
  end.

(** [strip p s] removes the literal [p] from the head of [s]. *)
Fixpoint strip (p s : string) : option string :=
  match p with
  | EmptyString => Some s
  | String a p' =>
      match s with
      | String b s' => if Ascii.eqb a b then strip p' s' else None
      | EmptyString => None
      end
  end.

Definition parse_scalar (s : string) : option (json * string) :=
  match strip "true" s with
  | Some r => Some (JBool true, r)
  | None =>
      match strip "false" s with
      | Some r => Some (JBool false, r)
      | None =>
          match strip "null" s with
          | Some r => Some (JNull, r)
          | None =>
              match lex_number s with
              | Some (l, r) => Some (JNum l, r)
              | None => None
              end
          end
      end
  end.

(** One step of each of the three mutually recursive procedures, with the
    procedures it calls as arguments: a value; the elements of an array after
    its bracket; the members of an object after its brace. *)
Definition value_step
    (elements : string -> option (list json * string))
    (members : string -> option (list (string * json) * string))
    (s : string) : option (json * string) :=
  match skip_ws s with
  | EmptyString => None
  | String c r =>
      if Ascii.eqb c "[" then
        match skip_ws r with
        | EmptyString => None
        | String c' r' =>
            if Ascii.eqb c' "]" then Some (JArr [], r')
            else
              match elements r with
              | Some (vs, r'') => Some (JArr vs, r'')
              | None => None
              end
        end
      else if Ascii.eqb c "{" then
        match skip_ws r with
        | EmptyString => None
        | String c' r' =>
            if Ascii.eqb c' "}" then Some (JObj [], r')
            else
              match members r with
              | Some (ms, r'') => Some (JObj ms, r'')
              | None => None
              end
        end
      else if Ascii.eqb c dquote then
        match parse_chars r with
        | Some (t, r') => Some (JStr t, r')
        | None => None
        end
      else parse_scalar (String c r)
  end.

Definition elements_step
    (value : string -> option (json * string))
    (elements : string -> option (list json * string))
    (s : string) : option (list json * string) :=
  match value s with
  | None => None
  | Some (v, r) =>
      match skip_ws r with
      | EmptyString => None
      | String c r' =>
          if Ascii.eqb c "," then
            match elements r' with
            | Some (vs, r'') => Some (v :: vs, r'')
            | None => None
            end
          else if Ascii.eqb c "]" then Some ([v], r')
          else None
      end
  end.

Definition members_step
    (value : string -> option (json * string))
    (members : string -> option (list (string * json) * string))
    (s : string) : option (list (string * json) * string) :=
  match skip_ws s with
  | EmptyString => None
  | String q r0 =>
      if Ascii.eqb q dquote then
        match parse_chars r0 with
        | None => None
        | Some (k, r1) =>
            match skip_ws r1 with
            | EmptyString => None
            | String c r2 =>
                if Ascii.eqb c ":" then
                  match value r2 with
                  | None => None
                  | Some (v, r) =>
                      match skip_ws r with
                      | EmptyString => None
                      | String c' r' =>
                          if Ascii.eqb c' "," then
                            match members r' with
                            | Some (ms, r'') => Some ((k, v) :: ms, r'')
                            | None => None
                            end
                          else if Ascii.eqb c' "}" then Some ([(k, v)], r')
                          else None
                      end
                  end
                else None
            end
        end
      else None
  end.

(** The three procedures; [n] bounds the depth of the calls. *)
Fixpoint parse_value (n : nat) (s : string) {struct n} : option (json * string) :=
  match n with
  | O => None
  | S n => value_step (parse_elements n) (parse_members n) s
  end
with parse_elements (n : nat) (s : string) {struct n} : option (list json * string) :=
  match n with
  | O => None
  | S n => elements_step (parse_value n) (parse_elements n) s
  end
with parse_members (n : nat) (s : string) {struct n}
  : option (list (string * json) * string) :=
  match n with
  | O => None
  | S n => members_step (parse_value n) (parse_members n) s
  end.

(** A whole text: one value, then white space only. *)
Definition parse_with (n : nat) (s : string) : option json :=
  match parse_value n s with
  | Some (v, r) =>
      match skip_ws r with
      | EmptyString => Some v
      | String _ _ => None
      end
  | None => None
  end.

(** Every call of the parser but the first consumes a character, or is the
    call of [parse_value] that opens [parse_elements]: twice the length of
    the text bounds the depth. *)
Definition depth_bound (s : string) : nat := S (2 * String.length s).

Definition JSON_parse (s : string) : option json := parse_with (depth_bound s) s.

(** [Array.isArray] *)
Definition isArray (j : json) : bool :=
  match j with
  | JArr _ => true
  | _ => false
  end.

(** The property [k] of a parsed object; the last of several members of
    one name is the one [JSON.parse] keeps. *)
Fixpoint lookup (k : string) (ms : list (string * json)) : option json :=
  match ms with
  | [] => None
  | (k', v) :: r =>
      match lookup k r with
      | Some w => Some w
      | None => if String.eqb k k' then Some v else None
      end
  end.

(** The number of arrays in a value, itself included. *)
Fixpoint arrays (j : json) : nat :=
  match j with
  | JArr vs => S (list_sum (map arrays vs))
  | JObj ms => list_sum (map (fun m => arrays (snd m)) ms)
  | _ => 0
  end.

(** The number of closing brackets in a text. *)
Fixpoint closers (s : string) : nat :=
  match s with
  | String c r => ((if Ascii.eqb c "]" then 1 else 0) + closers r)%nat
  | EmptyString => 0
  end.

Definition hex_digit (n : nat) : ascii :=
  ascii_of_nat (if (n <? 10)%nat then 48 + n else 87 + n).

Definition escape (c : ascii) : string :=
  if Ascii.eqb c dquote then String backslash (String dquote EmptyString)
  else if Ascii.eqb c backslash then String backslash (String backslash EmptyString)
  else if Ascii.eqb c "008" then String backslash "b"
  else if Ascii.eqb c "012" then String backslash "f"
  else if Ascii.eqb c "010" then String backslash "n"
  else if Ascii.eqb c "013" then String backslash "r"
  else if Ascii.eqb c "009" then String backslash "t"
  else if (nat_of_ascii c <? 32)%nat then
    String backslash
      ("u00" +:+ String (hex_digit (nat_of_ascii c / 16))
                   (String (hex_digit (nat_of_ascii c mod 16)) EmptyString))
  else String c EmptyString.

Fixpoint escape_all (s : string) : string :=
  match s with
  | String c r => escape c +:+ escape_all r
  | EmptyString => EmptyString
  end.

(** A string literal. *)
Definition quoted (s : string) : string :=
  String dquote (escape_all s +:+ String dquote EmptyString).

Definition commas (l : list string) : string := String.concat "," l.

(** [JSON.stringify] without indentation. *)
Fixpoint stringify (j : json) : string :=
  match j with
  | JNull => "null"
  | JBool true => "true"
  | JBool false => "false"
  | JNum l => l
  | JStr s => quoted s
  | JArr vs => "[" +:+ commas (map stringify vs) +:+ "]"
  | JObj ms =>
      "{" +:+ commas (map (fun m => quoted (fst m) +:+ ":" +:+ stringify (snd m)) ms) +:+ "}"
  end.

End Json.

Import Json.

(** ** Data model *)

(** An affected element of a rule result. *)
Record node : Type := { failureSummary : jsval }.

(** A rule result of the rule engine, with the fields the heuristics read. *)
Record violation : Type := {
  impact : jsval;
  help : jsval;
  description : jsval;
  nodes : option (list node)
}.

(** The body of a scan: [{violations, passes}]. *)
Record axe_results : Type := {
  violations : list violation;
  passes : option (list violation)
}.

(** The derived report. *)
Record report : Type := {
  summary : string;
  recommendations : list string;
  severity : string;
  score : Z
}.

(** A JSON body of a response, with the keys the two handlers write. *)
Record body : Type := {
  body_violations : option (list violation);
  body_passes : option (list violation);
  body_error : option string;
  body_details : option string;
  body_report : option string
}.

Definition no_body : body :=
  {| body_violations := None; body_passes := None; body_error := None;
     body_details := None; body_report := None |}.

Record response : Type := { status : nat; payload : body }.

(** What [fetch] and [response.json()] give the client: the request is
    rejected, or a response arrives whose body is malformed ([Throws]), the
    JSON [null] ([None]) or an object. *)
Inductive fetched : Type :=
| Rejected (e : error)
| Responded (ok : bool) (code : nat) (statusText : string) (json : outcome (option body)).

(** Both heuristics are defined on well-formed rule results; the client one
    needs every violation to carry its [nodes] array. *)
Definition has_nodes (v : violation) : Prop := is_Some (nodes v).

(** ** The client's heuristic: [getSimulatedAnalysis] *)

Module Client.

(** [axeResults.violations.filter(v => v.impact === k).length] *)
Definition count_impact (k : string) (vs : list violation) : nat :=
  length (filter (fun v => Is_true (strict_eq (impact v) k)) vs).

Definition severity_of (criticalViolations seriousViolations : nat) : string :=
  if (0 <? criticalViolations)%nat then "high"
  else if (0 <? seriousViolations)%nat then "medium"
  else "low".

(** The callback of [map]: [violation.nodes.length] throws without [nodes]. *)
Definition recommendation (v : violation) : outcome string :=
  match nodes v with
  | None => Throws undefined_length
  | Some ns =>
      Returns ("Fix " +:+ to_string (impact v) +:+ " issue: " +:+ to_string (help v)
               +:+ " affecting " +:+ of_nat (length ns) +:+ " elements")
  end.

Definition mapped_recommendations (vs : list violation) : outcome (list string) :=
  let* rs := map_throwing recommendation vs in Returns (slice0 5 rs).

Definition raw_score (totalViolations criticalViolations seriousViolations : nat) : Z :=
  Z.max 0 (100
           - Z.of_nat criticalViolations * 15
           - Z.of_nat seriousViolations * 10
           - (Z.of_nat totalViolations - Z.of_nat criticalViolations
              - Z.of_nat seriousViolations) * 5).

Definition no_violations : list string := ["No specific violations found to address"].

Definition getSimulatedAnalysis (axeResults : axe_results) : outcome report :=
  let totalViolations := length (violations axeResults) in
  let criticalViolations := count_impact "critical" (violations axeResults) in
  let seriousViolations := count_impact "serious" (violations axeResults) in
  let severity := severity_of criticalViolations seriousViolations in
  let* recommendations := mapped_recommendations (violations axeResults) in
  let score := raw_score totalViolations criticalViolations seriousViolations in
  Returns {|
    summary :=
      "Analysis found " +:+ of_nat totalViolations +:+ " accessibility violations ("
      +:+ of_nat criticalViolations +:+ " critical, " +:+ of_nat seriousViolations
      +:+ " serious). The website requires " +:+ severity
      +:+ " priority attention to meet accessibility standards.";
    recommendations :=
      if (0 <? length recommendations)%nat then recommendations else no_violations;
    severity := severity;
    score := Math_round (inject_Z score)
  |}.

(** What [analyzePage] hands back: the server's report as parsed, or the
    simulated one. *)
Inductive analysis : Type :=
| Parsed (j : json)
| Simulated (r : report).

Record ui_report : Type := {
  url : string;
  axeResults : axe_results;
  llmAnalysis : analysis;
  totalIssues : nat
}.

(** The component's state: [loading], [error] and [report]. *)
Record state : Type := {
  st_loading : bool;
  st_error : string;
  st_report : option ui_report
}.

Definition setLoading (b : bool) (st : state) : state :=
  {| st_loading := b; st_error := st_error st; st_report := st_report st |}.
Definition setError (e : string) (st : state) : state :=
  {| st_loading := st_loading st; st_error := e; st_report := st_report st |}.
Definition setReport (r : option ui_report) (st : state) : state :=
  {| st_loading := st_loading st; st_error := st_error st; st_report := r |}.

(** [a || b] on strings *)
Definition or_else (a b : string) : string := if String.eqb a "" then b else a.

(** [violations.reduce((sum, v) => sum + v.nodes.length, 0)] *)
Definition total_nodes (vs : list violation) : outcome nat :=
  foldl (fun (acc : outcome nat) v =>
           let* sum := acc in
           match nodes v with
           | Some ns => Returns (sum + length ns)%nat
           | None => Throws undefined_length
           end) (Returns 0%nat) vs.

(** The [try] block of [runAccessibilityCheck]. *)
Definition checked (r : fetched) : outcome axe_results :=
  match r with
  | Rejected e => Throws e
  | Responded ok code statusText json =>
      let* data := json in
      if negb ok then
        match data with
        | None => Throws (TypeError "Cannot read properties of null (reading 'error')")
        | Some d =>
            Throws (Error (or_else (default "" (body_error d))
                             ("Error " +:+ of_nat code +:+ ": " +:+ statusText)))
        end
      else
        match data with
        | None => Throws (Error "Invalid response from server")
        | Some d =>
            match body_violations d with
            | None => Throws (Error "Invalid response from server")
            | Some vs => Returns {| violations := vs; passes := body_passes d |}
            end
        end
  end.

Definition empty_results : axe_results := {| violations := []; passes := Some [] |}.

Definition runAccessibilityCheck (r : fetched) (st : state) : axe_results * state :=
  let st := setError "" (setLoading true st) in
  match checked r with
  | Returns data => (data, setLoading false st)
  | Throws err =>
      let errorMessage :=
        or_else (message err) "Failed to fetch accessibility data. Please try again later." in
      (empty_results, setLoading false (setError errorMessage st))
  end.

(** The three numbers the prompt of [analyzePage] is built from, after the
    violations themselves; the text goes to the server and nowhere else. *)
Definition prompt_numbers (a : axe_results) : outcome (nat * nat * nat) :=
  let* affected := total_nodes (violations a) in
  match passes a with
  | Some ps => Returns (length (violations a), affected, length ps)
  | None => Throws undefined_length
  end.

(** [JSON.parse(data.report)] *)
Definition parse_report (text : string) : outcome json :=
  match JSON_parse text with
  | Some j => Returns j
  | None => Throws (SyntaxError "Unexpected token in JSON")
  end.

(** The [try] block of [analyzePage]; [None] stands for the branch that
    calls [getSimulatedAnalysis] because the body has no [report]. *)
Definition requested (a : axe_results) (r : fetched) : outcome (option json) :=
  let* _ := prompt_numbers a in
  match r with
  | Rejected e => Throws e
  | Responded ok code statusText json =>
      if negb ok then
        Throws (Error ("API error: " +:+ of_nat code +:+ " " +:+ statusText))
      else
        let* data := json in
        match data with
        | None => Throws (TypeError "Cannot read properties of null (reading 'report')")
        | Some d =>
            match body_report d with
            | Some text =>
                if String.eqb text "" then Returns None
                else let* j := parse_report text in Returns (Some j)
            | None => Returns None
            end
        end
  end.

Definition simulated (a : axe_results) : outcome analysis :=
  let* r := getSimulatedAnalysis a in Returns (Simulated r).

Definition analyzePage (a : axe_results) (r : fetched) : outcome analysis :=
  match requested a r with
  | Returns (Some j) => Returns (Parsed j)
  | Returns None => simulated a
  | Throws _ => simulated a
  end.

(** Whether [s] starts with a line terminator: a line feed, a carriage
    return, or the three bytes of U+2028 or of U+2029. *)
Definition line_terminator (s : string) : bool :=
  match s with
  | String c r =>
      Ascii.eqb c "010" || Ascii.eqb c "013"
      || (Ascii.eqb c "226"
          && match r with
             | String c1 (String c2 _) =>
                 Ascii.eqb c1 "128" && (Ascii.eqb c2 "168" || Ascii.eqb c2 "169")
             | _ => false
             end)
  | EmptyString => false
  end.

(** [/^https?:\/\/.+/.test(url)]: the address after the scheme starts with a
    character that is no line terminator. *)
Definition urlPattern (u : string) : bool :=
  let rest :=
    match strip "https://" u with
    | Some r => Some r
    | None => strip "http://" u
    end in
  match rest with
  | Some (String c r) => negb (line_terminator (String c r))
  | _ => false
  end.

(** The [try] block of [handleAnalyze], threading the state. *)
Definition analyzed (u : string) (scan analyze : fetched) (st : state)
  : outcome ui_report * state :=
  if negb (urlPattern u) then
    (Throws (Error "Please enter a valid URL starting with http:// or https://"), st)
  else
    let (results, st) := runAccessibilityCheck scan st in
    (let* llm := analyzePage results analyze in
     let* total := total_nodes (violations results) in
     Returns {| url := u; axeResults := results; llmAnalysis := llm; totalIssues := total |},
     st).

Definition handleAnalyze (u : string) (scan analyze : fetched) (st : state) : state :=
  if String.eqb u "" then setError "Please enter a valid URL" st
  else
    let st := setReport None (setError "" (setLoading true st)) in
    match analyzed u scan analyze st with
    | (Returns r, st) => setLoading false (setReport (Some r) st)
    | (Throws err, st) =>
        setLoading false
          (setError (or_else (message err) "An error occurred while analyzing the website") st)
    end.

End Client.

(** ** The server's heuristic: the body of [POST /analyze] after parsing *)

Module Server.

(** The reducer of [impactCounts]: [counts[impact] = (counts[impact] || 0) + 1]
    with [impact = v.impact || 'minor'].  Only the keys [critical],
    [serious], [moderate] and [minor] are read back; under a key that the
    object inherits, such as [constructor], JavaScript stores another value
    than the count, and never reads it. *)
Definition count_step (counts : gmap string nat) (v : violation) : gmap string nat :=
  let impact := to_string (JS.or (impact v) (VString "minor")) in
  <[impact := (default 0%nat (counts !! impact) + 1)%nat]> counts.

Definition impactCounts (vs : list violation) : gmap string nat :=
  foldl count_step ∅ vs.

(** [counts.k || 0] *)
Definition or0 (counts : gmap string nat) (k : string) : nat :=
  default 0%nat (counts !! k).

(** [counts.k > 0], false when the key is missing. *)
Definition positive (counts : gmap string nat) (k : string) : bool :=
  match counts !! k with
  | Some n => (0 <? n)%nat
  | None => false
  end.

Definition severity_of (counts : gmap string nat) : string :=
  if positive counts "critical" then "high"
  else if positive counts "serious" then "medium"
  else if (2 <? or0 counts "moderate")%nat then "medium"
  else "low".

Definition raw_score (counts : gmap string nat) : Z :=
  Z.max 0 (Z.min 100
    (100
     - Z.of_nat (or0 counts "critical") * 20
     - Z.of_nat (or0 counts "serious") * 15
     - Z.of_nat (or0 counts "moderate") * 10
     - Z.of_nat (or0 counts "minor") * 5)).

(** [v.nodes?.[0]?.failureSummary] *)
Definition first_failure (v : violation) : jsval :=
  match nodes v with
  | Some (n :: _) => failureSummary n
  | _ => VUndefined
  end.

(** [v.nodes?.length], [undefined] becoming [0] under [> 0]. *)
Definition node_count (v : violation) : nat :=
  match nodes v with
  | Some ns => length ns
  | None => 0
  end.

Definition recommendation (v : violation) : string :=
  let impact :=
    if truthy (impact v) then "[" +:+ toUpperCase (to_string (impact v)) +:+ "]" else "" in
  let elements :=
    if (0 <? node_count v)%nat
    then " (" +:+ of_nat (node_count v) +:+ " elements affected)" else "" in
  impact +:+ " " +:+ to_string (JS.or (description v) (help v)) +:+ elements +:+ ". "
  +:+ to_string (JS.or (first_failure v) (VString "")).

Definition analysis (vs : list violation) : report :=
  let counts := impactCounts vs in
  let severity := severity_of counts in
  let score := raw_score counts in
  let recommendations := slice0 5 (map recommendation vs) in
  {|
    summary :=
      "Analysis found " +:+ of_nat (length vs) +:+ " accessibility issues: "
      +:+ of_nat (or0 counts "critical") +:+ " critical, "
      +:+ of_nat (or0 counts "serious") +:+ " serious, "
      +:+ of_nat (or0 counts "moderate") +:+ " moderate. "
      +:+ "This website requires " +:+ severity +:+ " priority attention.";
    recommendations := recommendations;
    severity := severity;
    score := Math_round (inject_Z score)
  |}.

Definition error_body (e : string) : body :=
  {| body_violations := None; body_passes := None; body_error := Some e;
     body_details := None; body_report := None |}.

(** [{...v, nodes: v.nodes.map(node => ({...node, ...}))}] *)
Definition copy_violation (v : violation) : outcome violation :=
  match nodes v with
  | None => Throws (TypeError "Cannot read properties of undefined (reading 'map')")
  | Some ns =>
      Returns {| impact := impact v; help := help v; description := description v;
                 nodes := Some (map (fun n => {| failureSummary := failureSummary n |}) ns) |}
  end.

(** [GET /scan].  [page] is what lines 39 to 64 give for the address: the
    page is fetched, turned into a document and run through the rule engine,
    or one of the three throws. *)
Definition scan (u : option string) (page : outcome axe_results) : response :=
  if String.eqb (default "" u) "" then
    {| status := 400; payload := error_body "URL parameter is required" |}
  else
    match (let* results := page in
           let* ps := match passes results with
                      | Some ps => Returns ps
                      | None => Throws undefined_length
                      end in
           let* vs := map_throwing copy_violation (violations results) in
           Returns (vs, ps)) with
    | Returns (vs, ps) =>
        {| status := 200;
           payload := {| body_violations := Some vs; body_passes := Some ps;
                         body_error := None; body_details := None; body_report := None |} |}
    | Throws e =>
        {| status := 500;
           payload := error_body ("Failed to analyze website: " +:+ message e) |}
    end.

Definition marker : string := "Accessibility scan data for".

Definition dataStart (prompt : string) : Z := indexOf prompt marker 0.
Definition jsonStart (prompt : string) : Z := indexOf prompt "[" (dataStart prompt).
Definition jsonEnd (prompt : string) : Z := indexOf prompt "]" (jsonStart prompt) + 1.

(** [prompt.slice(jsonStart, jsonEnd)] *)
Definition extracted (prompt : string) : string :=
  slice prompt (jsonStart prompt) (jsonEnd prompt).

(** The inner [try] of [POST /analyze]. *)
Definition parse_violations (prompt : string) : outcome json :=
  match JSON_parse (extracted prompt) with
  | Some j => Returns j
  | None => Throws (Error "Invalid accessibility data format")
  end.

Definition json_of_report (r : report) : json :=
  JObj [("summary", JStr (summary r));
        ("recommendations", JArr (map JStr (recommendations r)));
        ("severity", JStr (severity r));
        ("score", JNum (of_nat (Z.to_nat (score r))))].

(** The handler reads a parsed element through its properties.  The model
    reads it at the type [violation]: a text property is a string, [null] or
    missing; [impact] is made of ASCII characters, on which [toUpperCase] is
    modelled; [nodes] is an array, [null] or missing.  An element that is a
    number, a string, a boolean or an array has none of the properties.
    [None] marks a value outside this typing. *)
Definition text (o : option json) : option jsval :=
  match o with
  | None => Some VUndefined
  | Some JNull => Some VNull
  | Some (JStr s) => Some (VString s)
  | Some _ => None
  end.

Fixpoint ascii_only (s : string) : bool :=
  match s with
  | EmptyString => true
  | String c r => (nat_of_ascii c <? 128)%nat && ascii_only r
  end.

Definition tag (o : option json) : option jsval :=
  match text o with
  | Some (VString s) => if ascii_only s then Some (VString s) else None
  | v => v
  end.

Definition node_of_json (j : json) : option node :=
  match j with
  | JObj ms =>
      match text (lookup "failureSummary" ms) with
      | Some fs => Some {| failureSummary := fs |}
      | None => None
      end
  | _ => Some {| failureSummary := VUndefined |}
  end.

Definition nodes_of_json (o : option json) : option (option (list node)) :=
  match o with
  | None | Some JNull => Some None
  | Some (JArr ns) =>
      match mapM node_of_json ns with
      | Some l => Some (Some l)
      | None => None
      end
  | Some _ => None
  end.

Definition violation_of_json (j : json) : option violation :=
  match j with
  | JObj ms =>
      match tag (lookup "impact" ms), text (lookup "help" ms),
            text (lookup "description" ms), nodes_of_json (lookup "nodes" ms) with
      | Some i, Some h, Some d, Some ns =>
          Some {| impact := i; help := h; description := d; nodes := ns |}
      | _, _, _, _ => None
      end
  | _ =>
      Some {| impact := VUndefined; help := VUndefined; description := VUndefined;
              nodes := None |}
  end.

Definition is_null (j : json) : bool :=
  match j with
  | JNull => true
  | _ => false
  end.

(** What V8 throws for [null.impact]. *)
Definition null_impact : error :=
  TypeError "Cannot read properties of null (reading 'impact')".

(** The elements that the reducer visits before it meets a [null]: all of
    them when there is none. *)
Fixpoint before_null (elements : list json) : list json :=
  match elements with
  | [] => []
  | j :: r => if is_null j then [] else j :: before_null r
  end.

Section Reading.

(** What lines 114 to 151 make of an array in which a value outside the
    typing comes before any [null]: the coercions of JavaScript decide
    between a report and an exception there, and they are no part of this
    model. *)
Variable untyped : list json -> outcome report.

(** The outer [try] of [POST /analyze], for a prompt that is not empty.  The
    reducer visits the elements in order: it passes every element of the
    typing without an exception, and throws on the first [null] it
    reaches. *)
Definition analyzed (prompt : string) : outcome report :=
  let* violations := parse_violations prompt in
  let* elements :=
    match violations with
    | JArr l => Returns l
    | _ => Throws (Error "No violations data found")
    end in
  match mapM violation_of_json (before_null elements) with
  | None => untyped elements
  | Some vs =>
      if existsb is_null elements then Throws null_impact else Returns (analysis vs)
  end.

(** [POST /analyze] with the body [{prompt}]; [None] is a body without
    the key. *)
Definition analyze (prompt : option string) : response :=
  if String.eqb (default "" prompt) "" then
    {| status := 400; payload := error_body "Prompt is required" |}
  else
    match analyzed (default "" prompt) with
    | Returns r =>
        {| status := 200;
           payload := {| body_violations := None; body_passes := None; body_error := None;
                         body_details := None;
                         body_report := Some (stringify (json_of_report r)) |} |}
    | Throws e =>
        {| status := 500;
           payload := {| body_violations := None; body_passes := None;
                         body_error := Some ("Analysis failed: " +:+ message e);
                         body_details := Some (stack e); body_report := None |} |}
    end.

End Reading.

(** A reading of the values outside the typing that always throws. *)
Definition strict (elements : list json) : outcome report :=
  Throws (TypeError "v.impact.toUpperCase is not a function").

End Server.

(** ** Sample rule results *)

Definition sample (i : string) (n : nat) : violation :=
  {| impact := VString i; help := VString "Images must have alternate text";
     description := VString "Ensures images have alternate text";
     nodes := Some (replicate n {| failureSummary := VString "Fix any of the following" |}) |}.

(** A rule result that lacks its [nodes]. *)
Definition bare : violation :=
  {| impact := VString "minor"; help := VUndefined; description := VUndefined;
     nodes := None |}.

(** A scan that answers 200 with [bare] as its only violation. *)
Definition bare_scan : fetched :=
  Responded true 200 "OK"
    (Returns (Some {| body_violations := Some [bare]; body_passes := Some [];
                      body_error := None; body_details := None; body_report := None |})).

Definition idle : Client.state :=
  {| Client.st_loading := false; Client.st_error := ""; Client.st_report := None |}.

(** A prompt whose array holds one violation without nodes. *)
Definition flat_prompt : string :=
  "Accessibility scan data for http://a.b: [ { " +:+ String dquote "impact"
  +:+ String dquote ": " +:+ String dquote "serious" +:+ String dquote ", "
  +:+ String dquote "help" +:+ String dquote ": " +:+ String dquote "Fix it"
  +:+ String dquote " } ] Total violations: 1".

(** A prompt as [analyzePage] builds it for one violation with one node:
    the text up to the array, the array, and the text after it. *)
Definition sample_before : string :=
  "You're an accessibility expert. Analyze the accessibility scan results for http://a.b and generate a JSON response with this exact structure: { "
  +:+ String dquote "recommendations" +:+ String dquote ": [] } Accessibility scan data for http://a.b: ".

Definition sample_array : string :=
  "[ { " +:+ String dquote "impact" +:+ String dquote ": " +:+ String dquote "serious"
  +:+ String dquote ", " +:+ String dquote "nodes" +:+ String dquote ": [ { "
  +:+ String dquote "failureSummary" +:+ String dquote ": " +:+ String dquote "Fix it"
  +:+ String dquote " } ] } ]".

Definition sample_after : string := " Total violations: 1 Total affected elements: 1".

Definition sample_prompt : string := sample_before +:+ sample_array +:+ sample_after.



(** ** The heuristic as the specification words it *)

Module Spec.

(** A penalty for each impact class.  [minor] is also the class of a
    violation without an impact; [other] is the class of an impact that is
    none of the four words. *)
Record penalties : Type := {
  critical : Z;
  serious : Z;
  moderate : Z;
  minor : Z;
  other : Z
}.

(** The ranges the specification allows. *)
Definition admissible (p : penalties) : Prop :=
  15 <= critical p <= 20 /\ 10 <= serious p <= 15 /\ moderate p = 10
  /\ minor p = 5 /\ other p = 5.

Definition has_impact (k : string) (v : violation) : bool := strict_eq (impact v) k.

Definition penalty (p : penalties) (v : violation) : Z :=
  if has_impact "critical" v then critical p
  else if has_impact "serious" v then serious p
  else if has_impact "moderate" v then moderate p
  else if has_impact "minor" v || negb (truthy (impact v)) then minor p
  else other p.

Definition total_penalty (p : penalties) (vs : list violation) : Z :=
  foldr (fun v acc => penalty p v + acc) 0 vs.

(** Start at 100, subtract the penalties, clamp to [0,100], round. *)
Definition score (p : penalties) (vs : list violation) : Z :=
  Math_round (inject_Z (Z.max 0 (Z.min 100 (100 - total_penalty p vs)))).

Definition count (k : string) (vs : list violation) : nat :=
  length (filter (fun v => Is_true (has_impact k v)) vs).

(** High with a critical violation; else medium with a serious one, or, when
    [moderate_rule] is on, with more than two moderate ones; else low. *)
Definition severity (moderate_rule : bool) (vs : list violation) : string :=
  if existsb (has_impact "critical") vs then "high"
  else if existsb (has_impact "serious") vs
          || (moderate_rule && (2 <? count "moderate" vs)%nat) then "medium"
  else "low".

End Spec.

(** The two tables of the code. *)
Definition client_penalties : Spec.penalties :=
  {| Spec.critical := 15; Spec.serious := 10; Spec.moderate := 5; Spec.minor := 5;
     Spec.other := 5 |}.

Definition server_penalties : Spec.penalties :=
  {| Spec.critical := 20; Spec.serious := 15; Spec.moderate := 10; Spec.minor := 5;
     Spec.other := 0 |}.

(** ** Impact classes *)

(** The key under which the reducer counts a violation. *)
Definition counted_as (v : violation) : string :=
  to_string (JS.or (impact v) (VString "minor")).

(** The class of a violation, as the two tables need it. *)
Inductive impact_class : Type := Critical | Serious | Moderate | Minor | Other.

Definition class_of (v : violation) : impact_class :=
  if Spec.has_impact "critical" v then Critical
  else if Spec.has_impact "serious" v then Serious
  else if Spec.has_impact "moderate" v then Moderate
  else if Spec.has_impact "minor" v || negb (truthy (impact v)) then Minor
  else Other.

Definition class_key (c : impact_class) : option string :=
  match c with
  | Critical => Some "critical"
  | Serious => Some "serious"
  | Moderate => Some "moderate"
  | Minor => Some "minor"
  | Other => None
  end.

#[local] Instance impact_class_eq_dec : EqDecision impact_class.
Proof. solve_decision. Defined.

(** The number of violations in a class. *)
Definition in_class (c : impact_class) (vs : list violation) : nat :=
  length (filter (fun v => class_of v = c) vs).

Definition class_penalty (p : Spec.penalties) (c : impact_class) : Z :=
  match c with
  | Critical => Spec.critical p
  | Serious => Spec.serious p
  | Moderate => Spec.moderate p
  | Minor => Spec.minor p
  | Other => Spec.other p
  end.

(** ** Statements about the parser's procedures *)

(** A procedure reads of the longer text [s +:+ x] what it reads of [s]; for
    a value, provided it is not a number that ends the text. *)
Definition value_stable (x : string) (value : string -> option (json * string)) : Prop :=
  forall s v r, value s = Some (v, r) -> r <> "" \/ (forall l, v <> JNum l) ->
                value (s +:+ x) = Some (v, r +:+ x).

Definition list_stable {A} (x : string) (list : string -> option (list A * string)) : Prop :=
  forall s vs r, list s = Some (vs, r) -> list (s +:+ x) = Some (vs, r +:+ x).

(** [g] returns what [f] returns. *)
Definition grows {A} (f g : string -> option A) : Prop :=
  forall s y, f s = Some y -> g s = Some y.

(** A procedure uses up one closing bracket for each array it returns. *)
Definition value_counts (value : string -> option (json * string)) : Prop :=
  forall s v r, value s = Some (v, r) -> (closers r + arrays v <= closers s)%nat.

Definition elements_count (elements : string -> option (list json * string)) : Prop :=
  forall s vs r, elements s = Some (vs, r) ->
                 (closers r + list_sum (map arrays vs) + 1 <= closers s)%nat.

Definition members_count (members : string -> option (list (string * json) * string))
  : Prop :=
  forall s ms r, members s = Some (ms, r) ->
                 (closers r + list_sum (map (fun m => arrays (snd m)) ms) <= closers s)%nat.

(** ** The colours of the view *)

(** [getSeverityColor]: a [switch] on the severity. *)
Definition getSeverityColor (severity : string) : string :=
  if String.eqb severity "high" then "text-red-600"
  else if String.eqb severity "medium" then "text-yellow-600"
  else if String.eqb severity "low" then "text-green-600"
  else "text-gray-500".

(** [getScoreColor] *)
Definition getScoreColor (score : Z) : string :=
  if 80 <=? score then "text-green-600"
  else if 50 <=? score then "text-yellow-600"
  else "text-red-600".

(** The order of the three severities. *)
Definition severity_rank (severity : string) : nat :=
  if String.eqb severity "high" then 2
  else if String.eqb severity "medium" then 1
  else 0.

(** ** A response on its way to the client *)

(** What [fetch] makes of a response of the server: [ok] holds for a status
    from 200 to 299, and [response.json()] gives the object that was sent. *)
Definition over_http (statusText : string) (r : response) : fetched :=
  Responded ((200 <=? status r)%nat && (status r <=? 299)%nat) (status r) statusText
    (Returns (Some (payload r))).

(** The property names that an object literal inherits from
    [Object.prototype].  Under such a key [counts[impact] || 0] is the
    inherited value and not a count, so the table of [Server.count_step]
    stands for the one of the code at every other key. *)
Definition inherited (k : string) : bool :=
  existsb (String.eqb k)
    ["constructor"; "hasOwnProperty"; "isPrototypeOf"; "propertyIsEnumerable";
     "toLocaleString"; "toString"; "valueOf"; "__proto__"; "__defineGetter__";
     "__defineSetter__"; "__lookupGetter__"; "__lookupSetter__"].

(** The sum of the counts of a counter table. *)
Definition total_count (counts : gmap string nat) : nat :=
  map_fold (fun (_ : string) (n acc : nat) => (n + acc)%nat) 0%nat counts.

(** ** The report of a scan that found nothing *)

Definition all_clear : report :=
  {| summary := "Analysis found 0 accessibility violations (0 critical, 0 serious). The website requires low priority attention to meet accessibility standards.";
     recommendations := Client.no_violations;
     severity := "low";
     score := 100 |}.

(** * Properties *)

(** ** The samples *)

Example client_sample :
  Client.getSimulatedAnalysis {| violations := [sample "critical" 2]; passes := Some [] |}
  = Returns {|
      summary := "Analysis found 1 accessibility violations (1 critical, 0 serious). The website requires high priority attention to meet accessibility standards.";
      recommendations := ["Fix critical issue: Images must have alternate text affecting 2 elements"];
      severity := "high";
      score := 85 |}.
Proof. vm_compute. reflexivity. Qed.

Example flat_prompt_is_analyzed :
  Server.analyze Server.strict (Some flat_prompt)
  = {| status := 200;
       payload :=
         {| body_violations := None; body_passes := None; body_error := None;
            body_details := None;
            body_report :=
              Some (stringify (Server.json_of_report
                      (Server.analysis
                         [{| impact := VString "serious"; help := VString "Fix it";
                             description := VUndefined; nodes := None |}]))) |} |}.
Proof. vm_compute. reflexivity. Qed.

Example sample_array_parses :
  JSON_parse sample_array
  = Some (JArr [JObj [("impact", JStr "serious");
                      ("nodes", JArr [JObj [("failureSummary", JStr "Fix it")]])]]).
Proof. vm_compute. reflexivity. Qed.

Example report_round_trip :
  JSON_parse (stringify (Server.json_of_report (Server.analysis [sample "moderate" 1])))
  = Some (Server.json_of_report (Server.analysis [sample "moderate" 1])).
Proof. vm_compute. reflexivity. Qed.

Example server_sample :
  Server.analysis [sample "critical" 2]
  = {|
      summary := "Analysis found 1 accessibility issues: 1 critical, 0 serious, 0 moderate. This website requires high priority attention.";
      recommendations := ["[CRITICAL] Ensures images have alternate text (2 elements affected). Fix any of the following"];
      severity := "high";
      score := 80 |}.
Proof. vm_compute. reflexivity. Qed.

(** ** Arithmetic and lists *)

Lemma Math_round_integer (z : Z) : Math_round (inject_Z z) = z.
Proof.
  unfold Math_round, Qfloor, Qplus, inject_Z. simpl.
  rewrite Z.mul_1_r. symmetry. apply (Z.div_unique _ _ _ 1); lia.
Qed.

Lemma count_cons (k : string) (v : violation) (vs : list violation) :
  Spec.count k (v :: vs)
  = ((if Spec.has_impact k v then 1 else 0) + Spec.count k vs)%nat.
Proof.
  unfold Spec.count. rewrite filter_cons.
  destruct (Spec.has_impact k v) eqn:E.
  - rewrite decide_True by exact I. reflexivity.
  - rewrite decide_False by exact id. reflexivity.
Qed.

Lemma existsb_count (k : string) (vs : list violation) :
  existsb (Spec.has_impact k) vs = (0 <? Spec.count k vs)%nat.
Proof.
  induction vs as [|v vs IH]; [reflexivity|].
  rewrite count_cons. simpl existsb. rewrite IH.
  destruct (Spec.has_impact k v); reflexivity.
Qed.

(** ** The client's counters *)

Lemma client_count (k : string) (vs : list violation) :
  Client.count_impact k vs = Spec.count k vs.
Proof. reflexivity. Qed.

Lemma map_throwing_returns {A B} (f : A -> outcome B) (l : list A) :
  Forall (fun x => exists y, f x = Returns y) l ->
  exists ys, map_throwing f l = Returns ys /\ length ys = length l
             /\ forall i x, l !! i = Some x -> exists y, f x = Returns y /\ ys !! i = Some y.
Proof.
  induction 1 as [|x l [y Hy] _ (ys & Hys & Hlen & Hnth)]; simpl.
  - exists []. split; [reflexivity|]. split; [reflexivity|]. intros i x H. destruct i; discriminate.
  - rewrite Hy, Hys. simpl. exists (y :: ys). split; [reflexivity|].
    split; [simpl; congruence|]. intros [|i] x' H; simpl in *.
    + injection H as <-. eauto.
    + apply Hnth. exact H.
Qed.

Lemma map_throwing_inv {A B} (f : A -> outcome B) (l : list A) (ys : list B) :
  map_throwing f l = Returns ys -> Forall (fun x => exists y, f x = Returns y) l.
Proof.
  revert ys. induction l as [|x l IH]; intros ys H; [constructor|].
  simpl in H. destruct (f x) as [y|e] eqn:Hx; [|discriminate]. simpl in H.
  destruct (map_throwing f l) as [zs|e] eqn:Hl; [|discriminate].
  constructor; eauto.
Qed.

Lemma client_recommendation_returns (v : violation) :
  has_nodes v <-> exists s, Client.recommendation v = Returns s.
Proof.
  unfold has_nodes, Client.recommendation. split.
  - intros [ns ->]. eauto.
  - intros [s H]. destruct (nodes v); [eauto|discriminate].
Qed.

(** [getSimulatedAnalysis] returns exactly when every violation carries its
    nodes, and then the report is the one below. *)
Lemma getSimulatedAnalysis_returns (a : axe_results) :
  Forall has_nodes (violations a) ->
  exists rs,
    Client.mapped_recommendations (violations a) = Returns rs
    /\ length rs = Nat.min 5 (length (violations a))
    /\ Client.getSimulatedAnalysis a
       = Returns {|
           summary :=
             "Analysis found " +:+ of_nat (length (violations a))
             +:+ " accessibility violations ("
             +:+ of_nat (Spec.count "critical" (violations a)) +:+ " critical, "
             +:+ of_nat (Spec.count "serious" (violations a))
             +:+ " serious). The website requires "
             +:+ Client.severity_of (Spec.count "critical" (violations a))
                   (Spec.count "serious" (violations a))
             +:+ " priority attention to meet accessibility standards.";
           recommendations := if (0 <? length rs)%nat then rs else Client.no_violations;
           severity := Client.severity_of (Spec.count "critical" (violations a))
                         (Spec.count "serious" (violations a));
           score := Client.raw_score (length (violations a))
                      (Spec.count "critical" (violations a))
                      (Spec.count "serious" (violations a)) |}.
Proof.
  intros H.
  destruct (map_throwing_returns Client.recommendation (violations a)) as (ys & Hys & Hlen & _).
  { eapply Forall_impl; [exact H|]. intros v Hv. apply client_recommendation_returns, Hv. }
  exists (slice0 5 ys). unfold Client.getSimulatedAnalysis, Client.mapped_recommendations.
  rewrite Hys. cbn [JS.bind]. split; [reflexivity|]. split.
  - unfold slice0. rewrite length_take, Hlen. reflexivity.
  - rewrite Math_round_integer. reflexivity.
Qed.

Lemma getSimulatedAnalysis_throws (a : axe_results) :
  ~ Forall has_nodes (violations a) ->
  exists e, Client.getSimulatedAnalysis a = Throws e.
Proof.
  intros H. unfold Client.getSimulatedAnalysis, Client.mapped_recommendations.
  destruct (map_throwing Client.recommendation (violations a)) as [ys|e] eqn:E.
  - exfalso. apply H. apply map_throwing_inv in E.
    eapply Forall_impl; [exact E|]. intros v Hv. apply client_recommendation_returns, Hv.
  - simpl. eauto.
Qed.

(** ** The server's counter table *)

Lemma or0_insert (m : gmap string nat) (k k' : string) (n : nat) :
  Server.or0 (<[k := n]> m) k' = if decide (k = k') then n else Server.or0 m k'.
Proof.
  unfold Server.or0. rewrite lookup_insert. destruct (decide (k = k')); reflexivity.
Qed.

Lemma foldl_count_step (vs : list violation) (m : gmap string nat) (k : string) :
  Server.or0 (foldl Server.count_step m vs) k
  = (Server.or0 m k + length (filter (fun v => counted_as v = k) vs))%nat.
Proof.
  revert m. induction vs as [|v vs IH]; intros m.
  - simpl. lia.
  - cbn [foldl]. rewrite IH, filter_cons. unfold Server.count_step at 1. fold (counted_as v).
    rewrite or0_insert. destruct (decide (counted_as v = k)) as [->|Hne].
    + unfold Server.or0. simpl. lia.
    + reflexivity.
Qed.

Lemma impactCounts_or0 (vs : list violation) (k : string) :
  Server.or0 (Server.impactCounts vs) k = length (filter (fun v => counted_as v = k) vs).
Proof.
  unfold Server.impactCounts. rewrite foldl_count_step.
  unfold Server.or0. rewrite lookup_empty. reflexivity.
Qed.

Lemma positive_or0 (m : gmap string nat) (k : string) :
  Server.positive m k = (0 <? Server.or0 m k)%nat.
Proof. unfold Server.positive, Server.or0. destruct (m !! k); reflexivity. Qed.

Lemma class_of_cases (v : violation) :
  (class_of v = Critical /\ counted_as v = "critical" /\ impact v = VString "critical")
  \/ (class_of v = Serious /\ counted_as v = "serious" /\ impact v = VString "serious")
  \/ (class_of v = Moderate /\ counted_as v = "moderate" /\ impact v = VString "moderate")
  \/ (class_of v = Minor /\ counted_as v = "minor"
      /\ Spec.has_impact "critical" v = false /\ Spec.has_impact "serious" v = false
      /\ Spec.has_impact "moderate" v = false)
  \/ (class_of v = Other /\ counted_as v <> "critical" /\ counted_as v <> "serious"
      /\ counted_as v <> "moderate" /\ counted_as v <> "minor"
      /\ Spec.has_impact "critical" v = false /\ Spec.has_impact "serious" v = false
      /\ Spec.has_impact "moderate" v = false).
Proof.
  unfold class_of, counted_as, Spec.has_impact, JS.or, strict_eq, truthy.
  destruct (impact v) as [| |s]; simpl; [tauto..|].
  destruct (String.eqb_spec s "critical") as [->|H1]; [simpl; tauto|].
  destruct (String.eqb_spec s "serious") as [->|H2]; [simpl; tauto|].
  destruct (String.eqb_spec s "moderate") as [->|H3]; [simpl; tauto|].
  destruct (String.eqb_spec s "minor") as [->|H4]; [simpl; tauto|].
  destruct (String.eqb_spec s "") as [->|H5]; simpl; tauto.
Qed.

Lemma in_class_cons (c : impact_class) (v : violation) (vs : list violation) :
  in_class c (v :: vs) = ((if decide (class_of v = c) then 1 else 0) + in_class c vs)%nat.
Proof.
  unfold in_class. rewrite filter_cons. destruct (decide (class_of v = c)); reflexivity.
Qed.

Lemma in_class_total (vs : list violation) :
  (in_class Critical vs + in_class Serious vs + in_class Moderate vs
   + in_class Minor vs + in_class Other vs)%nat = length vs.
Proof.
  induction vs as [|v vs IH]; [reflexivity|].
  rewrite !in_class_cons. simpl length.
  destruct (class_of v); repeat case_decide; first [congruence | lia].
Qed.

Lemma in_class_none (c0 c : impact_class) (vs : list violation) :
  c <> c0 -> Forall (fun v => class_of v = c0) vs -> in_class c vs = 0%nat.
Proof.
  intros Hc. induction 1 as [|v l Hv _ IH]; [reflexivity|].
  rewrite in_class_cons, decide_False by congruence. exact IH.
Qed.

Lemma count_in_class (vs : list violation) :
  Spec.count "critical" vs = in_class Critical vs
  /\ Spec.count "serious" vs = in_class Serious vs
  /\ Spec.count "moderate" vs = in_class Moderate vs.
Proof.
  induction vs as [|v vs (IH1 & IH2 & IH3)]; [repeat split|].
  rewrite !count_cons, !in_class_cons, IH1, IH2, IH3.
  destruct (class_of_cases v) as [(-> & _ & E)|[(-> & _ & E)|[(-> & _ & E)|
    [(-> & _ & E1 & E2 & E3)|(-> & _ & _ & _ & _ & E1 & E2 & E3)]]]];
    try (unfold Spec.has_impact; rewrite E; repeat split; reflexivity);
    rewrite E1, E2, E3; repeat split; reflexivity.
Qed.

Lemma counted_in_class (c : impact_class) (k : string) (vs : list violation) :
  class_key c = Some k ->
  length (filter (fun v => counted_as v = k) vs) = in_class c vs.
Proof.
  intros Hk. induction vs as [|v vs IH]; [reflexivity|].
  rewrite in_class_cons, filter_cons, <- IH. clear IH.
  destruct c; simpl in Hk; try discriminate; injection Hk as <-;
    destruct (class_of_cases v) as [(-> & E & _)|[(-> & E & _)|[(-> & E & _)|
      [(-> & E & _)|(-> & N1 & N2 & N3 & N4 & _)]]]];
    try (rewrite E; reflexivity);
    rewrite decide_False by assumption; reflexivity.
Qed.

Lemma server_counts (vs : list violation) :
  Server.or0 (Server.impactCounts vs) "critical" = in_class Critical vs
  /\ Server.or0 (Server.impactCounts vs) "serious" = in_class Serious vs
  /\ Server.or0 (Server.impactCounts vs) "moderate" = in_class Moderate vs
  /\ Server.or0 (Server.impactCounts vs) "minor" = in_class Minor vs.
Proof.
  rewrite !impactCounts_or0.
  repeat split; apply counted_in_class; reflexivity.
Qed.

Lemma penalty_class (p : Spec.penalties) (v : violation) :
  Spec.penalty p v = class_penalty p (class_of v).
Proof.
  unfold Spec.penalty, class_of.
  destruct (Spec.has_impact "critical" v); [reflexivity|].
  destruct (Spec.has_impact "serious" v); [reflexivity|].
  destruct (Spec.has_impact "moderate" v); [reflexivity|].
  destruct (Spec.has_impact "minor" v || negb (truthy (impact v))); reflexivity.
Qed.

Lemma total_penalty_classes (p : Spec.penalties) (vs : list violation) :
  Spec.total_penalty p vs
  = Z.of_nat (in_class Critical vs) * Spec.critical p
    + Z.of_nat (in_class Serious vs) * Spec.serious p
    + Z.of_nat (in_class Moderate vs) * Spec.moderate p
    + Z.of_nat (in_class Minor vs) * Spec.minor p
    + Z.of_nat (in_class Other vs) * Spec.other p.
Proof.
  induction vs as [|v vs IH]; [reflexivity|].
  unfold Spec.total_penalty in *. simpl. rewrite IH, penalty_class, !in_class_cons.
  destruct (class_of v); simpl class_penalty; repeat case_decide; first [congruence | lia].
Qed.

(** The score of each path, by classes. *)
Lemma client_raw_score (vs : list violation) :
  Client.raw_score (length vs) (Spec.count "critical" vs) (Spec.count "serious" vs)
  = Z.max 0 (Z.min 100 (100 - Spec.total_penalty client_penalties vs)).
Proof.
  unfold Client.raw_score. rewrite total_penalty_classes.
  destruct (count_in_class vs) as (-> & -> & _).
  pose proof (in_class_total vs). simpl. lia.
Qed.

Lemma server_raw_score (vs : list violation) :
  Server.raw_score (Server.impactCounts vs)
  = Z.max 0 (Z.min 100 (100 - Spec.total_penalty server_penalties vs)).
Proof.
  unfold Server.raw_score. rewrite total_penalty_classes.
  destruct (server_counts vs) as (-> & -> & -> & ->). simpl. lia.
Qed.

Lemma client_severity (vs : list violation) :
  Client.severity_of (Spec.count "critical" vs) (Spec.count "serious" vs)
  = Spec.severity false vs.
Proof.
  unfold Client.severity_of, Spec.severity. rewrite !existsb_count.
  destruct (0 <? Spec.count "critical" vs)%nat; [reflexivity|].
  destruct (0 <? Spec.count "serious" vs)%nat; reflexivity.
Qed.

Lemma server_severity (vs : list violation) :
  Server.severity_of (Server.impactCounts vs) = Spec.severity true vs.
Proof.
  unfold Server.severity_of, Spec.severity. rewrite !existsb_count, !positive_or0.
  destruct (server_counts vs) as (-> & -> & -> & _).
  destruct (count_in_class vs) as (-> & -> & ->).
  destruct (0 <? in_class Critical vs)%nat; [reflexivity|].
  destruct (0 <? in_class Serious vs)%nat; [reflexivity|].
  destruct (2 <? in_class Moderate vs)%nat; reflexivity.
Qed.

Lemma lookup_map {A B} (f : A -> B) (l : list A) (i : nat) :
  map f l !! i = f <$> l !! i.
Proof.
  revert i. induction l as [|x l IH]; intros [|i]; simpl; auto.
Qed.

Lemma severity_values (b : bool) (vs : list violation) :
  Spec.severity b vs = "low" \/ Spec.severity b vs = "medium" \/ Spec.severity b vs = "high".
Proof.
  unfold Spec.severity.
  destruct (existsb _ vs); [tauto|].
  destruct (existsb _ vs || _); tauto.
Qed.

Lemma spec_score_range (p : Spec.penalties) (vs : list violation) :
  0 <= Spec.score p vs <= 100.
Proof. unfold Spec.score. rewrite Math_round_integer. lia. Qed.

(** ** The two reports against the rule of the specification *)

Lemma server_report (vs : list violation) :
  severity (Server.analysis vs) = Spec.severity true vs
  /\ score (Server.analysis vs) = Spec.score server_penalties vs.
Proof.
  split.
  - simpl. apply server_severity.
  - unfold Spec.score. simpl. rewrite server_raw_score. reflexivity.
Qed.

Lemma client_report (vs ps : list violation) :
  Forall has_nodes vs ->
  exists r,
    Client.getSimulatedAnalysis {| violations := vs; passes := Some ps |} = Returns r
    /\ severity r = Spec.severity false vs
    /\ score r = Spec.score client_penalties vs.
Proof.
  intros H.
  destruct (getSimulatedAnalysis_returns {| violations := vs; passes := Some ps |} H)
    as (rs & _ & _ & ->).
  eexists. split; [reflexivity|]. simpl. split; [apply client_severity|].
  unfold Spec.score. rewrite Math_round_integer. apply client_raw_score.
Qed.

(** ** The score *)

(** C1, at a counterexample.  One moderate violation costs 5 points on the
    client, where every table the specification admits takes 10. *)
Lemma client_moderate_costs_5 :
  exists r,
    Client.getSimulatedAnalysis {| violations := [sample "moderate" 1]; passes := Some [] |}
    = Returns r
    /\ score r = 95
    /\ forall p, Spec.admissible p -> Spec.score p [sample "moderate" 1] = 90.
Proof.
  eexists. split; [vm_compute; reflexivity|]. split; [reflexivity|].
  intros p (_ & _ & Hm & _). unfold Spec.score, Spec.total_penalty, Spec.penalty.
  simpl. rewrite Hm. reflexivity.
Qed.

(** C1, as amended.  Each path starts at 100, subtracts a fixed penalty per
    violation by impact class, clamps to [0,100] and rounds.  The server's
    table is critical 20, serious 15, moderate 10, minor or no impact 5, and
    0 for any other impact; the client's is critical 15, serious 10 and 5 for
    every other violation, moderate ones included. *)
Theorem score_by_table (vs ps : list violation) :
  score (Server.analysis vs) = Spec.score server_penalties vs
  /\ (Forall has_nodes vs ->
      exists r, Client.getSimulatedAnalysis {| violations := vs; passes := Some ps |} = Returns r
                /\ score r = Spec.score client_penalties vs).
Proof.
  split; [apply server_report|].
  intros H. destruct (client_report vs ps H) as (r & Hr & _ & Hscore). eauto.
Qed.

Lemma score_by_table_witness :
  score (Server.analysis [sample "serious" 2; sample "moderate" 1])
  = Spec.score server_penalties [sample "serious" 2; sample "moderate" 1]
  /\ exists r,
       Client.getSimulatedAnalysis
         {| violations := [sample "serious" 2; sample "moderate" 1]; passes := Some [] |}
       = Returns r
       /\ score r = Spec.score client_penalties [sample "serious" 2; sample "moderate" 1].
Proof.
  destruct (score_by_table [sample "serious" 2; sample "moderate" 1] []) as [Hs Hc].
  split; [exact Hs|]. apply Hc. repeat constructor; eexists; reflexivity.
Defined.

(** ** The severity *)

(** C2.  On both paths the severity is high when some violation is critical;
    otherwise medium when some violation is serious or, on the server, when
    more than two are moderate; otherwise low. *)
Theorem severity_rule (vs ps : list violation) :
  severity (Server.analysis vs) = Spec.severity true vs
  /\ (Forall has_nodes vs ->
      exists r, Client.getSimulatedAnalysis {| violations := vs; passes := Some ps |} = Returns r
                /\ severity r = Spec.severity false vs).
Proof.
  split; [apply server_report|].
  intros H. destruct (client_report vs ps H) as (r & Hr & Hsev & _). eauto.
Qed.

Lemma severity_rule_witness :
  severity (Server.analysis (replicate 3 (sample "moderate" 1)))
  = Spec.severity true (replicate 3 (sample "moderate" 1))
  /\ exists r,
       Client.getSimulatedAnalysis
         {| violations := replicate 3 (sample "moderate" 1); passes := Some [] |} = Returns r
       /\ severity r = Spec.severity false (replicate 3 (sample "moderate" 1)).
Proof.
  destruct (severity_rule (replicate 3 (sample "moderate" 1)) []) as [Hs Hc].
  split; [exact Hs|]. apply Hc. repeat constructor; eexists; reflexivity.
Defined.

(** ** The two paths against each other *)

(** C3, at a counterexample.  One critical violation scores 85 on the client
    and 80 on the server; three moderate violations are of low severity on
    the client and of medium severity on the server. *)
Lemma paths_differ :
  (exists r,
     Client.getSimulatedAnalysis {| violations := [sample "critical" 1]; passes := Some [] |}
     = Returns r
     /\ score r = 85 /\ score (Server.analysis [sample "critical" 1]) = 80)
  /\ (exists r,
        Client.getSimulatedAnalysis
          {| violations := replicate 3 (sample "moderate" 1); passes := Some [] |} = Returns r
        /\ severity r = "low"
        /\ severity (Server.analysis (replicate 3 (sample "moderate" 1))) = "medium").
Proof.
  split; eexists; (split; [vm_compute; reflexivity|]); split; vm_compute; reflexivity.
Qed.

(** C3, as amended.  The two paths give the same severity exactly when a
    violation is critical or serious or at most two are moderate, and the
    same score when every violation is minor or has no impact. *)
Theorem paths_agree (vs ps : list violation) :
  Forall has_nodes vs ->
  exists r,
    Client.getSimulatedAnalysis {| violations := vs; passes := Some ps |} = Returns r
    /\ (severity r = severity (Server.analysis vs)
        <-> (0 < Spec.count "critical" vs \/ 0 < Spec.count "serious" vs
             \/ Spec.count "moderate" vs <= 2)%nat)
    /\ (Forall (fun v => class_of v = Minor) vs -> score r = score (Server.analysis vs)).
Proof.
  intros H.
  destruct (server_report vs) as [Hss Hs].
  destruct (client_report vs ps H) as (r & Hr & Hsev & Hscore).
  exists r. split; [exact Hr|]. split.
  - rewrite Hsev, Hss. unfold Spec.severity. rewrite !existsb_count.
    destruct (Nat.ltb_spec 0 (Spec.count "critical" vs));
      destruct (Nat.ltb_spec 0 (Spec.count "serious" vs));
      destruct (Nat.ltb_spec 2 (Spec.count "moderate" vs)); simpl;
      split; intros; try reflexivity; try lia; discriminate.
  - intros Hminor. rewrite Hscore, Hs. unfold Spec.score.
    rewrite !total_penalty_classes. simpl.
    rewrite (in_class_none Minor Critical), (in_class_none Minor Serious),
      (in_class_none Minor Moderate), (in_class_none Minor Other) by (discriminate || assumption).
    reflexivity.
Qed.

Lemma paths_agree_witness :
  exists r,
    Client.getSimulatedAnalysis
      {| violations := [sample "minor" 1; sample "minor" 3]; passes := Some [] |} = Returns r
    /\ (severity r = severity (Server.analysis [sample "minor" 1; sample "minor" 3])
        <-> (0 < Spec.count "critical" [sample "minor" 1; sample "minor" 3]
             \/ 0 < Spec.count "serious" [sample "minor" 1; sample "minor" 3]
             \/ Spec.count "moderate" [sample "minor" 1; sample "minor" 3] <= 2)%nat)
    /\ (Forall (fun v => class_of v = Minor) [sample "minor" 1; sample "minor" 3] ->
        score r = score (Server.analysis [sample "minor" 1; sample "minor" 3])).
Proof.
  apply (paths_agree [sample "minor" 1; sample "minor" 3] []).
  repeat constructor; eexists; reflexivity.
Defined.

(** ** The recommendations *)

Lemma server_recommendation_parts (v : violation) :
  Server.recommendation v
  = match impact v with
    | VString i => if String.eqb i "" then "" else "[" +:+ toUpperCase i +:+ "]"
    | _ => ""
    end
    +:+ " "
    +:+ match description v with
        | VString d => if String.eqb d "" then to_string (help v) else d
        | _ => to_string (help v)
        end
    +:+ match nodes v with
        | Some (n :: ns) => " (" +:+ of_nat (S (length ns)) +:+ " elements affected)"
        | _ => ""
        end
    +:+ ". "
    +:+ match nodes v with
        | Some (n :: _) => match failureSummary n with VString f => f | _ => "" end
        | _ => ""
        end.
Proof.
  unfold Server.recommendation, Server.node_count, Server.first_failure, JS.or.
  destruct v as [i h d ns]. cbn [impact help description nodes].
  f_equal; [destruct i as [| |i]; try reflexivity; cbn [truthy to_string];
            destruct (String.eqb i ""); reflexivity|].
  f_equal. f_equal; [destruct d as [| |d]; try reflexivity; cbn [truthy to_string];
                     destruct (String.eqb d ""); reflexivity|].
  destruct ns as [[|[fs] ns]|]; try reflexivity. cbn [length Nat.ltb Nat.leb].
  f_equal. f_equal. destruct fs as [| |f]; try reflexivity.
  cbn [failureSummary truthy]. destruct (String.eqb_spec f "") as [->|]; reflexivity.
Qed.

(** C4, at a counterexample.  The client's string holds neither the first
    failure summary nor the description of the violation, and stays the same
    when both are changed. *)
Lemma client_recommendation_has_no_summary :
  Server.first_failure (sample "serious" 1) = VString "Fix any of the following"
  /\ description (sample "serious" 1) = VString "Ensures images have alternate text"
  /\ (exists r,
        Client.getSimulatedAnalysis
          {| violations := [sample "serious" 1]; passes := Some [] |} = Returns r
        /\ recommendations r
           = ["Fix serious issue: Images must have alternate text affecting 1 elements"]
        /\ Forall (fun s => find "Fix any of the following" s = None
                            /\ find "Ensures images have alternate text" s = None)
             (recommendations r))
  /\ Client.mapped_recommendations
       [{| impact := VString "serious"; help := VString "Images must have alternate text";
           description := VString "Another description";
           nodes := Some [{| failureSummary := VString "Another summary" |}] |}]
     = Client.mapped_recommendations [sample "serious" 1].
Proof.
  split; [reflexivity|]. split; [reflexivity|]. split; [|reflexivity].
  eexists. split; [reflexivity|]. split; [reflexivity|].
  repeat constructor; vm_compute; reflexivity.
Qed.

(** C4, as amended.  On both paths the recommendation list has one entry
    for each of the first five violations, in their order.  The server's
    entry is the impact in capitals between brackets (nothing for a missing
    or empty impact), a space, the description (the help text when the
    description is missing or empty), the number of affected elements in
    parentheses when there is at least one, a full stop and a space, and the
    failure summary of the first element when it has one.  The client's entry
    is [Fix], the impact, [issue:], the help text, [affecting], the number of
    affected elements and [elements]; it holds neither a description nor a
    failure summary. *)
Theorem recommendations_mapped (vs ps : list violation) :
  (length (recommendations (Server.analysis vs)) = Nat.min 5 (length vs)
   /\ (forall i v, (i < 5)%nat -> vs !! i = Some v ->
         recommendations (Server.analysis vs) !! i
         = Some (match impact v with
                 | VString i => if String.eqb i "" then "" else "[" +:+ toUpperCase i +:+ "]"
                 | _ => ""
                 end
                 +:+ " "
                 +:+ match description v with
                     | VString d => if String.eqb d "" then to_string (help v) else d
                     | _ => to_string (help v)
                     end
                 +:+ match nodes v with
                     | Some (n :: ns) =>
                         " (" +:+ of_nat (S (length ns)) +:+ " elements affected)"
                     | _ => ""
                     end
                 +:+ ". "
                 +:+ match nodes v with
                     | Some (n :: _) =>
                         match failureSummary n with VString f => f | _ => "" end
                     | _ => ""
                     end)))
  /\ (Forall has_nodes vs ->
      exists r rs,
        Client.getSimulatedAnalysis {| violations := vs; passes := Some ps |} = Returns r
        /\ Client.mapped_recommendations vs = Returns rs
        /\ (vs <> [] -> recommendations r = rs)
        /\ length rs = Nat.min 5 (length vs)
        /\ (forall i v, (i < 5)%nat -> vs !! i = Some v ->
              exists ns,
                nodes v = Some ns
                /\ rs !! i
                   = Some ("Fix " +:+ to_string (impact v) +:+ " issue: "
                           +:+ to_string (help v) +:+ " affecting "
                           +:+ of_nat (length ns) +:+ " elements"))).
Proof.
  split; [split|].
  - unfold Server.analysis, slice0. cbn [recommendations].
    rewrite length_take, length_map. reflexivity.
  - intros i v Hi Hv. unfold Server.analysis, slice0. cbn [recommendations].
    rewrite lookup_take_lt by exact Hi. rewrite list_lookup_fmap, Hv. cbn [fmap option_fmap option_map].
    f_equal. apply server_recommendation_parts.
  - intros H.
    destruct (getSimulatedAnalysis_returns {| violations := vs; passes := Some ps |} H)
      as (rs & Hrs & Hlen & Hr). cbn [violations] in Hrs, Hlen.
    eexists. exists rs. split; [exact Hr|]. split; [exact Hrs|]. cbn [recommendations].
    split; [|split; [exact Hlen|]].
    + intros Hne. destruct vs as [|v vs]; [contradiction|].
      cbn [length Nat.min] in Hlen. rewrite Hlen. reflexivity.
    + intros i v Hi Hv.
      destruct (map_throwing_returns Client.recommendation vs) as (ys & Hys & _ & Hnth).
      { eapply Forall_impl; [exact H|]. intros w Hw. apply client_recommendation_returns, Hw. }
      assert (Hrs' : rs = take 5 ys).
      { unfold Client.mapped_recommendations, slice0 in Hrs. rewrite Hys in Hrs.
        cbn [JS.bind] in Hrs. congruence. }
      destruct (Hnth i v Hv) as (s & Hs & Hl). unfold Client.recommendation in Hs.
      destruct (nodes v) as [ns|]; [|discriminate]. injection Hs as <-.
      exists ns. split; [reflexivity|]. rewrite Hrs', lookup_take_lt by exact Hi.
      exact Hl.
Qed.

Lemma recommendations_mapped_witness :
  exists r rs,
    Client.getSimulatedAnalysis
      {| violations := replicate 7 (sample "serious" 2); passes := Some [] |} = Returns r
    /\ Client.mapped_recommendations (replicate 7 (sample "serious" 2)) = Returns rs
    /\ (replicate 7 (sample "serious" 2) <> [] -> recommendations r = rs)
    /\ length rs = Nat.min 5 (length (replicate 7 (sample "serious" 2)))
    /\ (forall i v, (i < 5)%nat -> replicate 7 (sample "serious" 2) !! i = Some v ->
          exists ns,
            nodes v = Some ns
            /\ rs !! i
               = Some ("Fix " +:+ to_string (impact v) +:+ " issue: "
                       +:+ to_string (help v) +:+ " affecting "
                       +:+ of_nat (length ns) +:+ " elements")).
Proof.
  apply (proj2 (recommendations_mapped (replicate 7 (sample "serious" 2)) [])).
  repeat constructor; eexists; reflexivity.
Defined.

(** ** The range of a report *)

(** C5.  On both paths the severity is one of low, medium and high, and the
    score lies in [0,100]. *)
Theorem report_in_range (vs ps : list violation) :
  ((severity (Server.analysis vs) = "low" \/ severity (Server.analysis vs) = "medium"
    \/ severity (Server.analysis vs) = "high")
   /\ 0 <= score (Server.analysis vs) <= 100)
  /\ (Forall has_nodes vs ->
      exists r,
        Client.getSimulatedAnalysis {| violations := vs; passes := Some ps |} = Returns r
        /\ (severity r = "low" \/ severity r = "medium" \/ severity r = "high")
        /\ 0 <= score r <= 100).
Proof.
  destruct (server_report vs) as [Hss Hs].
  split.
  - rewrite Hss, Hs. split; [apply severity_values|apply spec_score_range].
  - intros H. destruct (client_report vs ps H) as (r & Hr & Hsev & Hscore).
    exists r. split; [exact Hr|]. rewrite Hsev, Hscore.
    split; [apply severity_values|apply spec_score_range].
Qed.

Lemma report_in_range_witness :
  exists r,
    Client.getSimulatedAnalysis
      {| violations := replicate 30 (sample "critical" 1); passes := Some [] |} = Returns r
    /\ (severity r = "low" \/ severity r = "medium" \/ severity r = "high")
    /\ 0 <= score r <= 100.
Proof.
  destruct (report_in_range (replicate 30 (sample "critical" 1)) []) as [_ Hc].
  apply Hc. repeat constructor; eexists; reflexivity.
Defined.

(** C10.  The simulated analysis never returns an empty recommendation list:
    without violations it returns the one default entry, otherwise the
    mapped list, which then has between one and five entries. *)
Theorem client_recommendations_never_empty (a : axe_results) :
  Forall has_nodes (violations a) ->
  exists r rs,
    Client.getSimulatedAnalysis a = Returns r
    /\ Client.mapped_recommendations (violations a) = Returns rs
    /\ recommendations r <> []
    /\ (rs = [] <-> violations a = [])
    /\ (violations a = [] ->
        recommendations r = ["No specific violations found to address"])
    /\ (violations a <> [] ->
        recommendations r = rs /\ (1 <= length rs <= 5)%nat).
Proof.
  intros H. destruct (getSimulatedAnalysis_returns a H) as (rs & Hrs & Hlen & Hr).
  eexists. exists rs. split; [exact Hr|]. split; [exact Hrs|]. simpl.
  destruct (violations a) as [|v vs] eqn:Hv.
  - destruct rs; [|discriminate]. simpl.
    repeat split; try discriminate; congruence.
  - destruct rs as [|s rs]; [cbn [length] in Hlen; lia|]. cbn [length] in *.
    repeat split; try discriminate; try congruence; try reflexivity; lia.
Qed.

Lemma client_recommendations_never_empty_witness :
  exists r rs,
    Client.getSimulatedAnalysis {| violations := []; passes := Some [] |} = Returns r
    /\ Client.mapped_recommendations [] = Returns rs
    /\ recommendations r <> []
    /\ (rs = [] <-> @nil violation = [])
    /\ (@nil violation = [] ->
        recommendations r = ["No specific violations found to address"])
    /\ (@nil violation <> [] -> recommendations r = rs /\ (1 <= length rs <= 5)%nat).
Proof.
  apply (client_recommendations_never_empty {| violations := []; passes := Some [] |}).
  constructor.
Defined.

(** ** [GET /scan] *)

Lemma copy_violation_returns (v : violation) :
  has_nodes v -> Server.copy_violation v = Returns v.
Proof.
  intros [ns Hns]. unfold Server.copy_violation. rewrite Hns. f_equal.
  destruct v as [i h d n]. simpl in *. subst n. f_equal. f_equal.
  induction ns as [|[fs] ns IH]; simpl; [reflexivity|]. rewrite IH. reflexivity.
Qed.

Lemma map_throwing_id {A} (f : A -> outcome A) (l : list A) :
  Forall (fun x => f x = Returns x) l -> map_throwing f l = Returns l.
Proof.
  induction 1 as [|x l Hx _ IH]; simpl; [reflexivity|]. rewrite Hx, IH. reflexivity.
Qed.

(** A scan of a page whose rule results are well formed answers 200 with
    those results. *)
Lemma scan_returns_results (u : string) (vs ps : list violation) :
  u <> "" -> Forall has_nodes vs ->
  Server.scan (Some u) (Returns {| violations := vs; passes := Some ps |})
  = {| status := 200;
       payload := {| body_violations := Some vs; body_passes := Some ps;
                     body_error := None; body_details := None; body_report := None |} |}.
Proof.
  intros Hu H. unfold Server.scan. simpl.
  destruct (String.eqb_spec u ""); [contradiction|]. simpl.
  rewrite map_throwing_id; [reflexivity|].
  eapply Forall_impl; [exact H|]. apply copy_violation_returns.
Qed.

(** ** [POST /analyze] *)

(** C8, at a counterexample.  The empty prompt is answered with 400 and an
    [error] alone: there is neither a [report] nor [details]. *)
Lemma empty_prompt_has_no_details :
  Server.analyze Server.strict (Some "")
  = {| status := 400; payload := Server.error_body "Prompt is required" |}
  /\ body_report (payload (Server.analyze Server.strict (Some ""))) = None
  /\ body_details (payload (Server.analyze Server.strict (Some ""))) = None.
Proof. repeat split. Qed.

(** C8, as amended.  [POST /analyze] answers 400 with an [error] alone when
    the prompt is missing or empty; for every other prompt it answers 200
    with the report as a JSON string, or 500 with an [error] and
    [details]. *)
Theorem analyze_responses (untyped : list json -> outcome report)
    (prompt : option string) :
  ((prompt = None \/ prompt = Some "")
   /\ Server.analyze untyped prompt
      = {| status := 400; payload := Server.error_body "Prompt is required" |})
  \/ (exists p r,
        prompt = Some p /\ p <> "" /\ Server.analyzed untyped p = Returns r
        /\ Server.analyze untyped prompt
           = {| status := 200;
                payload := {| body_violations := None; body_passes := None;
                              body_error := None; body_details := None;
                              body_report := Some (stringify (Server.json_of_report r)) |} |})
  \/ (exists p e,
        prompt = Some p /\ p <> "" /\ Server.analyzed untyped p = Throws e
        /\ Server.analyze untyped prompt
           = {| status := 500;
                payload := {| body_violations := None; body_passes := None;
                              body_error := Some ("Analysis failed: " +:+ message e);
                              body_details := Some (stack e); body_report := None |} |}).
Proof.
  unfold Server.analyze.
  destruct prompt as [[|c p]|]; [left; split; [auto|reflexivity]| |left; split; [auto|reflexivity]].
  right. change (default "" (Some (String c p))) with (String c p). cbn [String.eqb].
  destruct (Server.analyzed untyped (String c p)) as [r|e] eqn:E.
  - left. exists (String c p), r.
    split; [reflexivity|]. split; [discriminate|]. split; [exact E|reflexivity].
  - right. exists (String c p), e.
    split; [reflexivity|]. split; [discriminate|]. split; [exact E|reflexivity].
Qed.

(** ** The client's pipeline *)

Lemma total_nodes_from (vs : list violation) (n : nat) :
  Forall has_nodes vs ->
  exists m,
    foldl (fun (acc : outcome nat) v =>
             let* sum := acc in
             match nodes v with
             | Some ns => Returns (sum + length ns)%nat
             | None => Throws undefined_length
             end) (Returns n) vs = Returns m.
Proof.
  intros H. revert n. induction H as [|v vs [ns Hns] _ IH]; intros n; simpl; [eauto|].
  rewrite Hns. apply IH.
Qed.

Lemma total_nodes_returns (vs : list violation) :
  Forall has_nodes vs -> exists m, Client.total_nodes vs = Returns m.
Proof. apply total_nodes_from. Qed.

Lemma simulated_returns (a : axe_results) :
  Forall has_nodes (violations a) ->
  exists r, Client.getSimulatedAnalysis a = Returns r
            /\ Client.simulated a = Returns (Client.Simulated r).
Proof.
  intros H. destruct (getSimulatedAnalysis_returns a H) as (rs & _ & _ & Hr).
  eexists. split; [exact Hr|]. unfold Client.simulated. rewrite Hr. reflexivity.
Qed.

(** [analyzePage] hands back the server's report when there is one that
    parses, and the simulated analysis in every other case. *)
Lemma analyzePage_cases (a : axe_results) (r : fetched) :
  Client.analyzePage a r = Client.simulated a
  \/ exists code statusText d text j,
       r = Responded true code statusText (Returns (Some d))
       /\ body_report d = Some text /\ text <> "" /\ JSON_parse text = Some j
       /\ Client.analyzePage a r = Returns (Client.Parsed j).
Proof.
  unfold Client.analyzePage, Client.requested.
  destruct (Client.prompt_numbers a) as [n|e]; simpl; [|left; reflexivity].
  destruct r as [e|ok code statusText json]; [left; reflexivity|].
  destruct ok; simpl; [|left; reflexivity].
  destruct json as [[d|]|e]; simpl; [|left; reflexivity..].
  destruct (body_report d) as [text|] eqn:Hd; [|left; reflexivity].
  destruct (String.eqb_spec text "") as [->|Hne]; [left; reflexivity|].
  unfold Client.parse_report. destruct (JSON_parse text) as [j|] eqn:Hj; simpl;
    [|left; reflexivity].
  right. exists code, statusText, d, text, j. auto.
Qed.

Lemma urlPattern_not_empty (u : string) : Client.urlPattern u = true -> u <> "".
Proof. intros H ->. discriminate. Qed.

(** C6.  A scan that answers 200 with a rule result that lacks its [nodes]
    passes the check of [runAccessibilityCheck] and is handed on as it is;
    the prompt of [analyzePage] throws on it, the fallback in its [catch]
    throws on it again, and [handleAnalyze] ends with the message of the
    [TypeError] and without a report, whatever the server answers to the
    analysis: this malformed scan is not converted into a fallback value. *)
Lemma malformed_scan_gives_no_report :
  fst (Client.runAccessibilityCheck bare_scan idle)
  = {| violations := [bare]; passes := Some [] |}
  /\ forall answer,
       Client.analyzePage {| violations := [bare]; passes := Some [] |} answer
       = Throws undefined_length
       /\ Client.st_report (Client.handleAnalyze "http://a.b" bare_scan answer idle) = None
       /\ Client.st_error (Client.handleAnalyze "http://a.b" bare_scan answer idle)
          = "Cannot read properties of undefined (reading 'length')".
Proof.
  split; [reflexivity|]. intros answer. repeat split; reflexivity.
Qed.

(** ** Texts *)

Lemma app_cons (c : ascii) (s t : string) : String c s +:+ t = String c (s +:+ t).
Proof. reflexivity. Qed.

Lemma app_nil_r (s : string) : s +:+ "" = s.
Proof. induction s as [|c s IH]; [reflexivity|]. rewrite app_cons, IH. reflexivity. Qed.

Lemma app_assoc (s t u : string) : (s +:+ t) +:+ u = s +:+ (t +:+ u).
Proof. induction s as [|c s IH]; [reflexivity|]. rewrite !app_cons, IH. reflexivity. Qed.

Lemma length_app (s t : string) :
  String.length (s +:+ t) = (String.length s + String.length t)%nat.
Proof. induction s as [|c s IH]; [reflexivity|]. rewrite app_cons. simpl. rewrite IH. reflexivity. Qed.

Lemma closers_app (s t : string) : closers (s +:+ t) = (closers s + closers t)%nat.
Proof.
  induction s as [|c s IH]; [reflexivity|]. rewrite app_cons. simpl. rewrite IH. lia.
Qed.

Lemma app_not_empty (s t : string) : s <> "" -> s +:+ t <> "".
Proof. destruct s; [congruence|]. rewrite app_cons. discriminate. Qed.

(** ** The lexical procedures on a longer text

    What a procedure reads of [s] it also reads of [s +:+ x], provided it
    stopped before the end of [s]. *)

Lemma skip_ws_app (s x : string) :
  skip_ws s <> "" -> skip_ws (s +:+ x) = skip_ws s +:+ x.
Proof.
  induction s as [|c s IH]; intros H; [contradiction|].
  rewrite ?app_cons. simpl in *. destruct (is_ws c); [apply IH, H|reflexivity].
Qed.

Lemma skip_ws_app_cons (s x r : string) (c : ascii) :
  skip_ws s = String c r -> skip_ws (s +:+ x) = String c (r +:+ x).
Proof. intros H. rewrite skip_ws_app, H by (rewrite H; discriminate). reflexivity. Qed.

Lemma digits_app (s x ds r : string) :
  digits s = (ds, r) -> r <> "" -> digits (s +:+ x) = (ds, r +:+ x).
Proof.
  revert ds r. induction s as [|c s IH]; intros ds r H Hr.
  - injection H as <- <-. contradiction.
  - rewrite ?app_cons. simpl in *. destruct (is_digit c).
    + destruct (digits s) as [ds' r'] eqn:E. injection H as <- <-.
      rewrite (IH ds' r' eq_refl Hr). reflexivity.
    + injection H as <- <-. reflexivity.
Qed.

Lemma digits1_app (s x ds r : string) :
  digits1 s = Some (ds, r) -> r <> "" -> digits1 (s +:+ x) = Some (ds, r +:+ x).
Proof.
  unfold digits1. destruct (digits s) as [ds' r'] eqn:E. intros H Hr.
  destruct ds'; [discriminate|]. injection H as <- <-.
  rewrite (digits_app _ _ _ _ E Hr). reflexivity.
Qed.

Lemma digits1_empty (ds r : string) : digits1 "" = Some (ds, r) -> r = "".
Proof. discriminate. Qed.

Lemma lex_sign_app (b : bool) (s x sg r : string) :
  lex_sign b s = (sg, r) -> r <> "" -> lex_sign b (s +:+ x) = (sg, r +:+ x).
Proof.
  destruct s as [|c s]; simpl; intros H Hr.
  - injection H as <- <-. contradiction.
  - rewrite ?app_cons. simpl. destruct (Ascii.eqb c "-" || negb b && Ascii.eqb c "+");
      injection H as <- <-; reflexivity.
Qed.

Lemma lex_int_app (s x i r : string) :
  lex_int s = Some (i, r) -> r <> "" -> lex_int (s +:+ x) = Some (i, r +:+ x).
Proof.
  destruct s as [|c s]; simpl; intros H Hr; [discriminate|].
  rewrite ?app_cons. simpl. destruct (Ascii.eqb c "0").
  - injection H as <- <-. reflexivity.
  - destruct (is_digit c); [|discriminate].
    destruct (digits s) as [ds r'] eqn:E. injection H as <- <-.
    rewrite (digits_app _ _ _ _ E Hr). reflexivity.
Qed.

Lemma lex_frac_app (s x f r : string) :
  lex_frac s = Some (f, r) -> r <> "" -> lex_frac (s +:+ x) = Some (f, r +:+ x).
Proof.
  destruct s as [|c s]; simpl; intros H Hr.
  - injection H as <- <-. contradiction.
  - rewrite ?app_cons. simpl. destruct (Ascii.eqb c ".").
    + destruct (digits1 s) as [[ds r']|] eqn:E; [|discriminate]. injection H as <- <-.
      rewrite (digits1_app _ _ _ _ E Hr). reflexivity.
    + injection H as <- <-. reflexivity.
Qed.

Lemma lex_exp_app (s x e r : string) :
  lex_exp s = Some (e, r) -> r <> "" -> lex_exp (s +:+ x) = Some (e, r +:+ x).
Proof.
  destruct s as [|c s]; simpl; intros H Hr.
  - injection H as <- <-. contradiction.
  - rewrite ?app_cons. simpl. destruct (Ascii.eqb c "e" || Ascii.eqb c "E").
    + destruct (lex_sign false s) as [sg r1] eqn:Es.
      destruct (digits1 r1) as [[ds r2]|] eqn:E; [|discriminate]. injection H as <- <-.
      assert (r1 <> "") as Hr1 by (intros ->; discriminate).
      rewrite (lex_sign_app _ _ _ _ _ Es Hr1), (digits1_app _ _ _ _ E Hr). reflexivity.
    + injection H as <- <-. reflexivity.
Qed.

Lemma lex_number_app (s x l r : string) :
  lex_number s = Some (l, r) -> r <> "" -> lex_number (s +:+ x) = Some (l, r +:+ x).
Proof.
  unfold lex_number. intros H Hr.
  destruct (lex_sign true s) as [sg s0] eqn:Es.
  destruct (lex_int s0) as [[i s1]|] eqn:Ei; [|discriminate].
  destruct (lex_frac s1) as [[f s2]|] eqn:Ef; [|discriminate].
  destruct (lex_exp s2) as [[e s3]|] eqn:Ee; [|discriminate].
  injection H as <- <-.
  assert (s2 <> "") as H2 by (intros ->; simpl in Ee; injection Ee as _ <-; contradiction).
  assert (s1 <> "") as H1 by (intros ->; simpl in Ef; injection Ef as _ <-; contradiction).
  assert (s0 <> "") as H0 by (intros ->; discriminate).
  rewrite (lex_sign_app _ _ _ _ _ Es H0), (lex_int_app _ _ _ _ Ei H1),
    (lex_frac_app _ _ _ _ Ef H2), (lex_exp_app _ _ _ _ Ee Hr). reflexivity.
Qed.

Lemma strip_app (p s x r : string) :
  strip p s = Some r -> strip p (s +:+ x) = Some (r +:+ x).
Proof.
  revert s. induction p as [|a p IH]; intros s H; simpl in *.
  - injection H as <-. reflexivity.
  - destruct s as [|b s]; [discriminate|]. rewrite ?app_cons.
    destruct (Ascii.eqb a b); [apply IH, H|discriminate].
Qed.

Lemma cons_chars_some (p t r : string) (o : option (string * string)) :
  cons_chars p o = Some (t, r) -> exists t', o = Some (t', r) /\ t = p +:+ t'.
Proof.
  destruct o as [[t' r']|]; simpl; [|discriminate]. intros H. injection H as <- <-. eauto.
Qed.

Lemma parse_chars_app_bounded (n : nat) (s x t r : string) :
  (String.length s <= n)%nat ->
  parse_chars s = Some (t, r) -> parse_chars (s +:+ x) = Some (t, r +:+ x).
Proof.
  revert s t r. induction n as [|n IH]; intros s t r Hn H;
    (destruct s as [|c s]; [discriminate|]); simpl in Hn; [lia|].
  rewrite ?app_cons. simpl in *.
  destruct (Ascii.eqb c dquote); [injection H as <- <-; reflexivity|].
  destruct (Ascii.eqb c backslash).
  - destruct s as [|e r1]; [discriminate|]. rewrite ?app_cons. simpl in Hn.
    destruct (Ascii.eqb e "u").
    + destruct r1 as [|h1 [|h2 [|h3 [|h4 r2]]]]; try discriminate.
      rewrite ?app_cons. destruct (code_unit h1 h2 h3 h4); [|discriminate].
      apply cons_chars_some in H as (t' & H & ->).
      rewrite (IH r2 t' r) by (simpl in Hn; lia || exact H). reflexivity.
    + destruct (unescape e); [|discriminate].
      apply cons_chars_some in H as (t' & H & ->).
      rewrite (IH r1 t' r) by (lia || exact H). reflexivity.
  - destruct (nat_of_ascii c <? 32)%nat; [discriminate|].
    apply cons_chars_some in H as (t' & H & ->).
    rewrite (IH s t' r) by (lia || exact H). reflexivity.
Qed.

Lemma parse_chars_app (s x t r : string) :
  parse_chars s = Some (t, r) -> parse_chars (s +:+ x) = Some (t, r +:+ x).
Proof. apply (parse_chars_app_bounded (String.length s)). lia. Qed.

Lemma strip_cons_other (a c : ascii) (p s : string) :
  a <> c -> strip (String a p) (String c s) = None.
Proof.
  intros H. cbn [strip]. destruct (Ascii.eqb_spec a c); [contradiction|reflexivity].
Qed.

Lemma strip_cons_inv (a : ascii) (p s r : string) :
  strip (String a p) s = Some r -> exists s', s = String a s'.
Proof.
  destruct s as [|c s]; cbn [strip]; [discriminate|].
  destruct (Ascii.eqb_spec a c) as [->|]; [eauto|discriminate].
Qed.

Lemma lex_number_head (c : ascii) (s l r : string) :
  lex_number (String c s) = Some (l, r) ->
  "t"%char <> c /\ "f"%char <> c /\ "n"%char <> c.
Proof.
  intros H. repeat split; intros <-;
    match type of H with ?t = _ => assert (t = None) by reflexivity end; congruence.
Qed.

Lemma parse_scalar_app (s x r : string) (v : json) :
  parse_scalar s = Some (v, r) -> r <> "" \/ (forall l, v <> JNum l) ->
  parse_scalar (s +:+ x) = Some (v, r +:+ x).
Proof.
  unfold parse_scalar. intros H Hr.
  destruct (strip "true" s) as [r0|] eqn:Et.
  { injection H as <- <-. rewrite (strip_app _ _ _ _ Et). reflexivity. }
  destruct (strip "false" s) as [r0|] eqn:Ef.
  { injection H as <- <-. rewrite (strip_app _ _ _ _ Ef).
    destruct (strip_cons_inv _ _ _ _ Ef) as [s' ->].
    rewrite app_cons, strip_cons_other by discriminate. reflexivity. }
  destruct (strip "null" s) as [r0|] eqn:En.
  { injection H as <- <-. rewrite (strip_app _ _ _ _ En).
    destruct (strip_cons_inv _ _ _ _ En) as [s' ->].
    rewrite app_cons, !strip_cons_other by discriminate. reflexivity. }
  destruct (lex_number s) as [[l r0]|] eqn:El; [|discriminate]. injection H as <- <-.
  destruct Hr as [Hr|Hr]; [|exfalso; exact (Hr l eq_refl)].
  rewrite (lex_number_app _ _ _ _ El Hr).
  destruct s as [|c s]; [discriminate|].
  destruct (lex_number_head _ _ _ _ El) as (Ht & Hf & Hn).
  rewrite app_cons, !strip_cons_other by assumption. reflexivity.
Qed.

(** ** The parser on a longer text *)

Section Longer.

Variable x : string.

Lemma value_step_app elements members :
  list_stable x elements -> list_stable x members ->
  value_stable x (value_step elements members).
Proof.
  intros He Hm s v r H Hr. unfold value_step in *.
  destruct (skip_ws s) as [|c r0] eqn:Es; [discriminate|].
  rewrite (skip_ws_app_cons _ _ _ _ Es).
  destruct (Ascii.eqb c "[").
  { destruct (skip_ws r0) as [|c' r'] eqn:Er; [discriminate|].
    rewrite (skip_ws_app_cons _ _ _ _ Er).
    destruct (Ascii.eqb c' "]"); [injection H as <- <-; reflexivity|].
    destruct (elements r0) as [[vs r'']|] eqn:E; [|discriminate]. injection H as <- <-.
    rewrite (He _ _ _ E). reflexivity. }
  destruct (Ascii.eqb c "{").
  { destruct (skip_ws r0) as [|c' r'] eqn:Er; [discriminate|].
    rewrite (skip_ws_app_cons _ _ _ _ Er).
    destruct (Ascii.eqb c' "}"); [injection H as <- <-; reflexivity|].
    destruct (members r0) as [[ms r'']|] eqn:E; [|discriminate]. injection H as <- <-.
    rewrite (Hm _ _ _ E). reflexivity. }
  destruct (Ascii.eqb c dquote).
  { destruct (parse_chars r0) as [[t r']|] eqn:E; [|discriminate]. injection H as <- <-.
    rewrite (parse_chars_app _ _ _ _ E). reflexivity. }
  rewrite <- app_cons. apply parse_scalar_app; assumption.
Qed.

Lemma elements_step_app value elements :
  value_stable x value -> list_stable x elements ->
  list_stable x (elements_step value elements).
Proof.
  intros Hv He s vs r H. unfold elements_step in *.
  destruct (value s) as [[v r0]|] eqn:E; [|discriminate].
  destruct (skip_ws r0) as [|c r'] eqn:Er; [discriminate|].
  rewrite (Hv _ _ _ E) by (left; intros ->; discriminate).
  rewrite (skip_ws_app_cons _ _ _ _ Er).
  destruct (Ascii.eqb c ",").
  - destruct (elements r') as [[vs' r'']|] eqn:E'; [|discriminate]. injection H as <- <-.
    rewrite (He _ _ _ E'). reflexivity.
  - destruct (Ascii.eqb c "]"); [|discriminate]. injection H as <- <-. reflexivity.
Qed.

Lemma members_step_app value members :
  value_stable x value -> list_stable x members ->
  list_stable x (members_step value members).
Proof.
  intros Hv Hm s ms r H. unfold members_step in *.
  destruct (skip_ws s) as [|q r0] eqn:Es; [discriminate|].
  rewrite (skip_ws_app_cons _ _ _ _ Es).
  destruct (Ascii.eqb q dquote); [|discriminate].
  destruct (parse_chars r0) as [[k r1]|] eqn:Ek; [|discriminate].
  rewrite (parse_chars_app _ _ _ _ Ek).
  destruct (skip_ws r1) as [|c r2] eqn:E1; [discriminate|].
  rewrite (skip_ws_app_cons _ _ _ _ E1).
  destruct (Ascii.eqb c ":"); [|discriminate].
  destruct (value r2) as [[v r3]|] eqn:E; [|discriminate].
  destruct (skip_ws r3) as [|c' r'] eqn:Er; [discriminate|].
  rewrite (Hv _ _ _ E) by (left; intros ->; discriminate).
  rewrite (skip_ws_app_cons _ _ _ _ Er).
  destruct (Ascii.eqb c' ",").
  - destruct (members r') as [[ms' r'']|] eqn:E'; [|discriminate]. injection H as <- <-.
    rewrite (Hm _ _ _ E'). reflexivity.
  - destruct (Ascii.eqb c' "}"); [|discriminate]. injection H as <- <-. reflexivity.
Qed.

Lemma parse_app (n : nat) :
  value_stable x (parse_value n) /\ list_stable x (parse_elements n)
  /\ list_stable x (parse_members n).
Proof.
  induction n as [|n (IHv & IHe & IHm)].
  - repeat split; intros ? ? ? H; discriminate.
  - repeat split; simpl.
    + apply value_step_app; assumption.
    + apply elements_step_app; assumption.
    + apply members_step_app; assumption.
Qed.

End Longer.

(** ** More depth changes nothing *)

Lemma value_step_grows e e' m m' :
  grows e e' -> grows m m' -> grows (value_step e m) (value_step e' m').
Proof.
  intros He Hm s y H. unfold value_step in *.
  destruct (skip_ws s) as [|c r0]; [discriminate|].
  destruct (Ascii.eqb c "[").
  { destruct (skip_ws r0) as [|c' r']; [discriminate|].
    destruct (Ascii.eqb c' "]"); [exact H|].
    destruct (e r0) as [[vs r'']|] eqn:E; [|discriminate]. rewrite (He _ _ E). exact H. }
  destruct (Ascii.eqb c "{"); [|exact H].
  destruct (skip_ws r0) as [|c' r']; [discriminate|].
  destruct (Ascii.eqb c' "}"); [exact H|].
  destruct (m r0) as [[ms r'']|] eqn:E; [|discriminate]. rewrite (Hm _ _ E). exact H.
Qed.

Lemma elements_step_grows v v' e e' :
  grows v v' -> grows e e' -> grows (elements_step v e) (elements_step v' e').
Proof.
  intros Hv He s y H. unfold elements_step in *.
  destruct (v s) as [[w r0]|] eqn:E; [|discriminate]. rewrite (Hv _ _ E).
  destruct (skip_ws r0) as [|c r']; [discriminate|].
  destruct (Ascii.eqb c ","); [|exact H].
  destruct (e r') as [[vs r'']|] eqn:E'; [|discriminate]. rewrite (He _ _ E'). exact H.
Qed.

Lemma members_step_grows v v' m m' :
  grows v v' -> grows m m' -> grows (members_step v m) (members_step v' m').
Proof.
  intros Hv Hm s y H. unfold members_step in *.
  destruct (skip_ws s) as [|q r0]; [discriminate|].
  destruct (Ascii.eqb q dquote); [|discriminate].
  destruct (parse_chars r0) as [[k r1]|]; [|discriminate].
  destruct (skip_ws r1) as [|c r2]; [discriminate|].
  destruct (Ascii.eqb c ":"); [|discriminate].
  destruct (v r2) as [[w r3]|] eqn:E; [|discriminate]. rewrite (Hv _ _ E).
  destruct (skip_ws r3) as [|c' r']; [discriminate|].
  destruct (Ascii.eqb c' ","); [|exact H].
  destruct (m r') as [[ms r'']|] eqn:E'; [|discriminate]. rewrite (Hm _ _ E'). exact H.
Qed.

Lemma parse_grows_S (n : nat) :
  grows (parse_value n) (parse_value (S n))
  /\ grows (parse_elements n) (parse_elements (S n))
  /\ grows (parse_members n) (parse_members (S n)).
Proof.
  induction n as [|n (IHv & IHe & IHm)].
  - repeat split; intros ? ? H; discriminate.
  - repeat split.
    + apply value_step_grows; assumption.
    + apply elements_step_grows; assumption.
    + apply members_step_grows; assumption.
Qed.

Lemma parse_value_grows (n m : nat) : (n <= m)%nat -> grows (parse_value n) (parse_value m).
Proof.
  induction 1 as [|m _ IH]; [intros s y H; exact H|].
  intros s y H. apply parse_grows_S, IH, H.
Qed.

Lemma parse_value_deterministic (n m : nat) (s : string) y z :
  parse_value n s = Some y -> parse_value m s = Some z -> y = z.
Proof.
  intros Hn Hm.
  apply (parse_value_grows n (Nat.max n m)) in Hn; [|lia].
  apply (parse_value_grows m (Nat.max n m)) in Hm; [|lia].
  congruence.
Qed.

(** ** Closing brackets

    An array of the value that the parser returns took a closing bracket of
    the text it read. *)

Lemma closers_cons (c : ascii) (r : string) :
  closers (String c r) = ((if Ascii.eqb c "]" then 1 else 0) + closers r)%nat.
Proof. reflexivity. Qed.

Lemma closers_tail (c : ascii) (r : string) : (closers r <= closers (String c r))%nat.
Proof. rewrite closers_cons. lia. Qed.

Lemma ws_not_closer (c : ascii) : is_ws c = true -> Ascii.eqb c "]" = false.
Proof.
  unfold is_ws.
  destruct (Ascii.eqb_spec c " ") as [->|]; [reflexivity|].
  destruct (Ascii.eqb_spec c "009") as [->|]; [reflexivity|].
  destruct (Ascii.eqb_spec c "010") as [->|]; [reflexivity|].
  destruct (Ascii.eqb_spec c "013") as [->|]; [reflexivity|discriminate].
Qed.

Lemma closers_skip_ws (s : string) : closers (skip_ws s) = closers s.
Proof.
  induction s as [|c s IH]; [reflexivity|]. simpl skip_ws.
  destruct (is_ws c) eqn:E; [|reflexivity].
  rewrite closers_cons, (ws_not_closer c E), IH. reflexivity.
Qed.

Lemma closers_skipped (s r : string) (c : ascii) :
  skip_ws s = String c r ->
  closers s = ((if Ascii.eqb c "]" then 1 else 0) + closers r)%nat.
Proof. intros H. rewrite <- closers_skip_ws, H. apply closers_cons. Qed.

Lemma sum_cons (a : nat) (l : list nat) : list_sum (a :: l) = (a + list_sum l)%nat.
Proof. reflexivity. Qed.

Lemma closers_skipped_le (s r : string) (c : ascii) :
  skip_ws s = String c r -> (closers r <= closers s)%nat.
Proof. intros H. rewrite (closers_skipped _ _ _ H). lia. Qed.

Ltac skipped E :=
  pose proof (closers_skipped _ _ _ E); pose proof (closers_skipped_le _ _ _ E).

(** What a lexical procedure leaves is a part of what it was given: it
    weighs no more, for every weight [mu] that a character cannot lower. *)
Section Measure.

Variable mu : string -> nat.
Hypothesis mu_tail : forall c r, (mu r <= mu (String c r))%nat.

Lemma skip_ws_measure (s : string) : (mu (skip_ws s) <= mu s)%nat.
Proof.
  induction s as [|c s IH]; [reflexivity|]. cbn [skip_ws].
  destruct (is_ws c); [|reflexivity]. pose proof (mu_tail c s). lia.
Qed.

Lemma digits_measure (s : string) : (mu (snd (digits s)) <= mu s)%nat.
Proof.
  induction s as [|c s IH]; [reflexivity|]. cbn [digits].
  destruct (is_digit c); [|reflexivity].
  destruct (digits s) as [ds r]. cbn [snd] in *. pose proof (mu_tail c r). pose proof (mu_tail c s). lia.
Qed.

Lemma digits1_measure (s ds r : string) :
  digits1 s = Some (ds, r) -> (mu r <= mu s)%nat.
Proof.
  unfold digits1. pose proof (digits_measure s) as H.
  destruct (digits s) as [ds' r']. destruct ds'; [discriminate|].
  intros E. injection E as <- <-. exact H.
Qed.

Lemma lex_sign_measure (b : bool) (s : string) :
  (mu (snd (lex_sign b s)) <= mu s)%nat.
Proof.
  destruct s as [|c s]; [reflexivity|]. cbn [lex_sign].
  destruct (Ascii.eqb c "-" || negb b && Ascii.eqb c "+"); [apply mu_tail|reflexivity].
Qed.

Lemma lex_int_measure (s i r : string) :
  lex_int s = Some (i, r) -> (mu r <= mu s)%nat.
Proof.
  destruct s as [|c s]; cbn [lex_int]; [discriminate|].
  pose proof (mu_tail c s). destruct (Ascii.eqb c "0").
  - intros E. injection E as <- <-. assumption.
  - destruct (is_digit c); [|discriminate]. pose proof (digits_measure s) as H'.
    destruct (digits s) as [ds r']. intros E. injection E as <- <-. cbn [snd] in H'. lia.
Qed.

Lemma lex_frac_measure (s f r : string) :
  lex_frac s = Some (f, r) -> (mu r <= mu s)%nat.
Proof.
  destruct s as [|c s]; cbn [lex_frac].
  - intros E. injection E as <- <-. reflexivity.
  - pose proof (mu_tail c s). destruct (Ascii.eqb c ".").
    + destruct (digits1 s) as [[ds r']|] eqn:E'; [|discriminate].
      apply digits1_measure in E'. intros E. injection E as <- <-. lia.
    + intros E. injection E as <- <-. reflexivity.
Qed.

Lemma lex_exp_measure (s e r : string) :
  lex_exp s = Some (e, r) -> (mu r <= mu s)%nat.
Proof.
  destruct s as [|c s]; cbn [lex_exp].
  - intros E. injection E as <- <-. reflexivity.
  - pose proof (mu_tail c s). destruct (Ascii.eqb c "e" || Ascii.eqb c "E").
    + pose proof (lex_sign_measure false s) as Hs.
      destruct (lex_sign false s) as [sg r1]. cbn [snd] in Hs.
      destruct (digits1 r1) as [[ds r2]|] eqn:E'; [|discriminate].
      apply digits1_measure in E'. intros E. injection E as <- <-. lia.
    + intros E. injection E as <- <-. reflexivity.
Qed.

Lemma lex_number_measure (s l r : string) :
  lex_number s = Some (l, r) -> (mu r <= mu s)%nat.
Proof.
  unfold lex_number. pose proof (lex_sign_measure true s) as Hs.
  destruct (lex_sign true s) as [sg s0]. cbn [snd] in Hs.
  destruct (lex_int s0) as [[i s1]|] eqn:Ei; [|discriminate].
  destruct (lex_frac s1) as [[f s2]|] eqn:Ef; [|discriminate].
  destruct (lex_exp s2) as [[e s3]|] eqn:Ee; [|discriminate].
  apply lex_int_measure in Ei. apply lex_frac_measure in Ef. apply lex_exp_measure in Ee.
  intros E. injection E as <- <-. lia.
Qed.

Lemma strip_measure (p s r : string) : strip p s = Some r -> (mu r <= mu s)%nat.
Proof.
  revert s. induction p as [|a p IH]; intros s H; cbn [strip] in H.
  - injection H as <-. reflexivity.
  - destruct s as [|b s]; [discriminate|]. destruct (Ascii.eqb a b); [|discriminate].
    apply IH in H. pose proof (mu_tail b s). lia.
Qed.

Lemma parse_chars_measure_bounded (n : nat) (s t r : string) :
  (String.length s <= n)%nat -> parse_chars s = Some (t, r) -> (mu r <= mu s)%nat.
Proof.
  revert s t r. induction n as [|n IH]; intros s t r Hn H;
    (destruct s as [|c s]; [discriminate|]); cbn [String.length] in Hn; [lia|].
  cbn [parse_chars] in H. pose proof (mu_tail c s).
  destruct (Ascii.eqb c dquote); [injection H as <- <-; assumption|].
  destruct (Ascii.eqb c backslash).
  - destruct s as [|e r1]; [discriminate|]. cbn [String.length] in Hn.
    pose proof (mu_tail e r1).
    destruct (Ascii.eqb e "u").
    + destruct r1 as [|h1 [|h2 [|h3 [|h4 r2]]]]; try discriminate.
      destruct (code_unit h1 h2 h3 h4); [|discriminate].
      apply cons_chars_some in H as (t' & H & ->).
      apply IH in H; [|cbn [String.length] in Hn; lia].
      pose proof (mu_tail h1 (String h2 (String h3 (String h4 r2)))).
      pose proof (mu_tail h2 (String h3 (String h4 r2))).
      pose proof (mu_tail h3 (String h4 r2)).
      pose proof (mu_tail h4 r2). lia.
    + destruct (unescape e); [|discriminate].
      apply cons_chars_some in H as (t' & H & ->). apply IH in H; lia.
  - destruct (nat_of_ascii c <? 32)%nat; [discriminate|].
    apply cons_chars_some in H as (t' & H & ->). apply IH in H; lia.
Qed.

Lemma parse_chars_measure (s t r : string) :
  parse_chars s = Some (t, r) -> (mu r <= mu s)%nat.
Proof. apply (parse_chars_measure_bounded (String.length s)). lia. Qed.

Lemma parse_scalar_measure (s r : string) (v : json) :
  parse_scalar s = Some (v, r) -> (mu r <= mu s)%nat.
Proof.
  unfold parse_scalar.
  destruct (strip "true" s) as [r0|] eqn:Et.
  { apply strip_measure in Et. intros E. injection E as <- <-. exact Et. }
  destruct (strip "false" s) as [r0|] eqn:Ef.
  { apply strip_measure in Ef. intros E. injection E as <- <-. exact Ef. }
  destruct (strip "null" s) as [r0|] eqn:En.
  { apply strip_measure in En. intros E. injection E as <- <-. exact En. }
  destruct (lex_number s) as [[l r0]|] eqn:El; [|discriminate].
  apply lex_number_measure in El. intros E. injection E as <- <-. exact El.
Qed.

End Measure.

Lemma parse_chars_closers (s t r : string) :
  parse_chars s = Some (t, r) -> (closers r <= closers s)%nat.
Proof. apply (parse_chars_measure closers closers_tail). Qed.

Lemma parse_scalar_closers (s r : string) (v : json) :
  parse_scalar s = Some (v, r) -> (closers r + arrays v <= closers s)%nat.
Proof.
  intros H. pose proof (parse_scalar_measure closers closers_tail _ _ _ H) as Hm.
  unfold parse_scalar in H.
  destruct (strip "true" s); [injection H as <- _; simpl; lia|].
  destruct (strip "false" s); [injection H as <- _; simpl; lia|].
  destruct (strip "null" s); [injection H as <- _; simpl; lia|].
  destruct (lex_number s) as [[l r0]|]; [|discriminate]. injection H as <- _. simpl. lia.
Qed.

Lemma value_step_counts elements members :
  elements_count elements -> members_count members ->
  value_counts (value_step elements members).
Proof.
  intros He Hm s v r H. unfold value_step in H.
  destruct (skip_ws s) as [|c r0] eqn:Es; [discriminate|].
  skipped Es.
  destruct (Ascii.eqb c "[").
  { destruct (skip_ws r0) as [|c' r'] eqn:Er; [discriminate|].
    skipped Er.
    destruct (Ascii.eqb c' "]").
    - injection H as <- <-. simpl. lia.
    - destruct (elements r0) as [[vs r'']|] eqn:E; [|discriminate]. injection H as <- <-.
      apply He in E. cbn [arrays]. lia. }
  destruct (Ascii.eqb c "{").
  { destruct (skip_ws r0) as [|c' r'] eqn:Er; [discriminate|].
    skipped Er.
    destruct (Ascii.eqb c' "}").
    - injection H as <- <-. simpl. lia.
    - destruct (members r0) as [[ms r'']|] eqn:E; [|discriminate]. injection H as <- <-.
      apply Hm in E. cbn [arrays]. lia. }
  destruct (Ascii.eqb c dquote).
  { destruct (parse_chars r0) as [[t r']|] eqn:E; [|discriminate]. injection H as <- <-.
    apply parse_chars_closers in E. simpl. lia. }
  apply parse_scalar_closers in H. rewrite closers_cons in H. lia.
Qed.

Lemma elements_step_counts value elements :
  value_counts value -> elements_count elements ->
  elements_count (elements_step value elements).
Proof.
  intros Hv He s vs r H. unfold elements_step in H.
  destruct (value s) as [[v r0]|] eqn:E; [|discriminate]. apply Hv in E.
  destruct (skip_ws r0) as [|c r'] eqn:Er; [discriminate|].
  skipped Er.
  destruct (Ascii.eqb c ",").
  - destruct (elements r') as [[vs' r'']|] eqn:E'; [|discriminate]. injection H as <- <-.
    apply He in E'. cbn [map]; rewrite ?sum_cons; change (list_sum []) with 0%nat in *; lia.
  - destruct (Ascii.eqb c "]"); [|discriminate]. injection H as <- <-.
    cbn [map]; rewrite ?sum_cons; change (list_sum []) with 0%nat in *; lia.
Qed.

Lemma members_step_counts value members :
  value_counts value -> members_count members ->
  members_count (members_step value members).
Proof.
  intros Hv Hm s ms r H. unfold members_step in H.
  destruct (skip_ws s) as [|q r0] eqn:Es; [discriminate|].
  skipped Es.
  destruct (Ascii.eqb q dquote); [|discriminate].
  destruct (parse_chars r0) as [[k r1]|] eqn:Ek; [|discriminate].
  apply parse_chars_closers in Ek.
  destruct (skip_ws r1) as [|c r2] eqn:E1; [discriminate|].
  skipped E1.
  destruct (Ascii.eqb c ":"); [|discriminate].
  destruct (value r2) as [[v r3]|] eqn:E; [|discriminate]. apply Hv in E.
  destruct (skip_ws r3) as [|c' r'] eqn:Er; [discriminate|].
  skipped Er.
  destruct (Ascii.eqb c' ",").
  - destruct (members r') as [[ms' r'']|] eqn:E'; [|discriminate]. injection H as <- <-.
    apply Hm in E'. cbn [map snd]; rewrite ?sum_cons; change (list_sum []) with 0%nat in *; lia.
  - destruct (Ascii.eqb c' "}"); [|discriminate]. injection H as <- <-.
    cbn [map snd]; rewrite ?sum_cons; change (list_sum []) with 0%nat in *; lia.
Qed.

Lemma parse_counts (n : nat) :
  value_counts (parse_value n) /\ elements_count (parse_elements n)
  /\ members_count (parse_members n).
Proof.
  induction n as [|n (IHv & IHe & IHm)].
  - repeat split; intros ? ? ? H; discriminate.
  - repeat split; simpl.
    + apply value_step_counts; assumption.
    + apply elements_step_counts; assumption.
    + apply members_step_counts; assumption.
Qed.


(** ** The depth that [JSON_parse] allows is enough *)

Lemma parse_with_some (n : nat) (s : string) (v : json) :
  parse_with n s = Some v <-> exists r, parse_value n s = Some (v, r) /\ skip_ws r = "".
Proof.
  unfold parse_with. split.
  - destruct (parse_value n s) as [[w r]|]; [|discriminate].
    destruct (skip_ws r) eqn:E; [|discriminate]. intros H. injection H as <-. eauto.
  - intros (r & -> & ->). reflexivity.
Qed.

Lemma length_tail (c : ascii) (r : string) :
  (String.length r <= String.length (String c r))%nat.
Proof. simpl. lia. Qed.

Lemma skipped_length (s r : string) (c : ascii) :
  skip_ws s = String c r -> (String.length r < String.length s)%nat.
Proof.
  intros H. pose proof (skip_ws_measure String.length length_tail s) as L.
  rewrite H in L. simpl in L. lia.
Qed.

(** A value is found again at every depth from twice the number of characters
    it took, less one; a list at every depth from twice that number. *)
Lemma parse_settles (n : nat) :
  (forall s v r, parse_value n s = Some (v, r) ->
     (String.length r <= String.length s)%nat
     /\ forall k, (1 <= k)%nat -> (2 * (String.length s - String.length r) <= k + 1)%nat ->
                  parse_value k s = Some (v, r))
  /\ (forall s vs r, parse_elements n s = Some (vs, r) ->
        (String.length r < String.length s)%nat
        /\ forall k, (2 * (String.length s - String.length r) <= k)%nat ->
                     parse_elements k s = Some (vs, r))
  /\ (forall s ms r, parse_members n s = Some (ms, r) ->
        (String.length r < String.length s)%nat
        /\ forall k, (2 * (String.length s - String.length r) <= k)%nat ->
                     parse_members k s = Some (ms, r)).
Proof.
  induction n as [|n (IHv & IHe & IHm)]; [repeat split; discriminate|].
  split; [|split].
  - intros s v r H. cbn [parse_value] in H. unfold value_step in H.
    destruct (skip_ws s) as [|c r0] eqn:Es; [discriminate|].
    pose proof (skipped_length _ _ _ Es) as Ls.
    destruct (Ascii.eqb c "[") eqn:Hc1.
    { destruct (skip_ws r0) as [|c' r'] eqn:Er; [discriminate|].
      pose proof (skipped_length _ _ _ Er) as Lr.
      destruct (Ascii.eqb c' "]") eqn:Hc2.
      - injection H as <- <-. split; [lia|]. intros [|k] Hk1 Hk; [lia|].
        cbn [parse_value]. unfold value_step. rewrite Es, Hc1, Er, Hc2. reflexivity.
      - destruct (parse_elements n r0) as [[vs r'']|] eqn:E; [|discriminate].
        injection H as <- <-. destruct (IHe _ _ _ E) as [Le Ke].
        split; [lia|]. intros [|k] Hk1 Hk; [lia|].
        cbn [parse_value]. unfold value_step. rewrite Es, Hc1, Er, Hc2, (Ke k) by lia.
        reflexivity. }
    destruct (Ascii.eqb c "{") eqn:Hc3.
    { destruct (skip_ws r0) as [|c' r'] eqn:Er; [discriminate|].
      pose proof (skipped_length _ _ _ Er) as Lr.
      destruct (Ascii.eqb c' "}") eqn:Hc2.
      - injection H as <- <-. split; [lia|]. intros [|k] Hk1 Hk; [lia|].
        cbn [parse_value]. unfold value_step. rewrite Es, Hc1, Hc3, Er, Hc2. reflexivity.
      - destruct (parse_members n r0) as [[ms r'']|] eqn:E; [|discriminate].
        injection H as <- <-. destruct (IHm _ _ _ E) as [Lm Km].
        split; [lia|]. intros [|k] Hk1 Hk; [lia|].
        cbn [parse_value]. unfold value_step. rewrite Es, Hc1, Hc3, Er, Hc2, (Km k) by lia.
        reflexivity. }
    destruct (Ascii.eqb c dquote) eqn:Hc4.
    { destruct (parse_chars r0) as [[t r']|] eqn:E; [|discriminate]. injection H as <- <-.
      pose proof (parse_chars_measure String.length length_tail _ _ _ E).
      split; [lia|]. intros [|k] Hk1 Hk; [lia|].
      cbn [parse_value]. unfold value_step. rewrite Es, Hc1, Hc3, Hc4, E. reflexivity. }
    pose proof (parse_scalar_measure String.length length_tail _ _ _ H) as L.
    cbn [String.length] in L.
    split; [lia|]. intros [|k] Hk1 Hk; [lia|].
    cbn [parse_value]. unfold value_step. rewrite Es, Hc1, Hc3, Hc4. exact H.
  - intros s vs r H. cbn [parse_elements] in H. unfold elements_step in H.
    destruct (parse_value n s) as [[v r0]|] eqn:E; [|discriminate].
    destruct (IHv _ _ _ E) as [Lv Kv].
    destruct (skip_ws r0) as [|c r'] eqn:Er; [discriminate|].
    pose proof (skipped_length _ _ _ Er) as Lr.
    destruct (Ascii.eqb c ",") eqn:Hc1.
    + destruct (parse_elements n r') as [[vs' r'']|] eqn:E'; [|discriminate].
      injection H as <- <-. destruct (IHe _ _ _ E') as [Le Ke].
      split; [lia|]. intros [|k] Hk; [lia|].
      cbn [parse_elements]. unfold elements_step.
      rewrite (Kv k), Er, Hc1, (Ke k) by lia. reflexivity.
    + destruct (Ascii.eqb c "]") eqn:Hc2; [|discriminate]. injection H as <- <-.
      split; [lia|]. intros [|k] Hk; [lia|].
      cbn [parse_elements]. unfold elements_step.
      rewrite (Kv k), Er, Hc1, Hc2 by lia. reflexivity.
  - intros s ms r H. cbn [parse_members] in H. unfold members_step in H.
    destruct (skip_ws s) as [|q r0] eqn:Es; [discriminate|].
    pose proof (skipped_length _ _ _ Es) as Ls.
    destruct (Ascii.eqb q dquote) eqn:Hq; [|discriminate].
    destruct (parse_chars r0) as [[key r1]|] eqn:Ek; [|discriminate].
    pose proof (parse_chars_measure String.length length_tail _ _ _ Ek) as Lk.
    destruct (skip_ws r1) as [|c r2] eqn:E1; [discriminate|].
    pose proof (skipped_length _ _ _ E1) as L1.
    destruct (Ascii.eqb c ":") eqn:Hc0; [|discriminate].
    destruct (parse_value n r2) as [[v r3]|] eqn:E; [|discriminate].
    destruct (IHv _ _ _ E) as [Lv Kv].
    destruct (skip_ws r3) as [|c' r'] eqn:Er; [discriminate|].
    pose proof (skipped_length _ _ _ Er) as Lr.
    destruct (Ascii.eqb c' ",") eqn:Hc1.
    + destruct (parse_members n r') as [[ms' r'']|] eqn:E'; [|discriminate].
      injection H as <- <-. destruct (IHm _ _ _ E') as [Lm Km].
      split; [lia|]. intros [|k] Hk; [lia|].
      cbn [parse_members]. unfold members_step.
      rewrite Es, Hq, Ek, E1, Hc0, (Kv k), Er, Hc1, (Km k) by lia. reflexivity.
    + destruct (Ascii.eqb c' "}") eqn:Hc2; [|discriminate]. injection H as <- <-.
      split; [lia|]. intros [|k] Hk; [lia|].
      cbn [parse_members]. unfold members_step.
      rewrite Es, Hq, Ek, E1, Hc0, (Kv k), Er, Hc1, Hc2 by lia. reflexivity.
Qed.

(** [JSON_parse] accepts every text that the parser accepts at some depth,
    with the same value. *)
Lemma JSON_parse_complete (s : string) (v : json) :
  JSON_parse s = Some v <-> exists n, parse_with n s = Some v.
Proof.
  split; [unfold JSON_parse; eauto|]. intros (n & H).
  apply parse_with_some in H as (r & H & Hr).
  apply parse_with_some. exists r. split; [|exact Hr].
  destruct (proj1 (parse_settles n) _ _ _ H) as [L K].
  apply K; unfold depth_bound; lia.
Qed.

(** ** [indexOf] and [slice] on a text in three parts *)

Lemma prefix_char (ch c : ascii) (r : string) :
  String.prefix (String ch "") (String c r) = if ascii_dec ch c then true else false.
Proof. cbn [String.prefix]. destruct (ascii_dec ch c); [destruct r; reflexivity|reflexivity]. Qed.

Lemma find_closer (a rest : string) :
  closers a = 0%nat -> find "]" (a +:+ String "]" rest) = Some (String.length a).
Proof.
  induction a as [|c a IH]; intros H.
  - change ("" +:+ String "]" rest) with (String "]" rest).
    cbn [find]. rewrite prefix_char. reflexivity.
  - rewrite app_cons. rewrite closers_cons in H.
    destruct (Ascii.eqb_spec c "]") as [->|Hc]; [discriminate|].
    cbn [find String.length]. rewrite prefix_char.
    destruct (ascii_dec "]" c) as [<-|_]; [contradiction|].
    rewrite IH by lia. reflexivity.
Qed.

Lemma first_closer (t : string) :
  (1 <= closers t)%nat -> exists a c, t = a +:+ String "]" c /\ closers a = 0%nat.
Proof.
  induction t as [|b t IH]; intros H; [simpl in H; lia|].
  rewrite closers_cons in H. destruct (Ascii.eqb_spec b "]") as [->|Hb].
  - exists "", t. split; reflexivity.
  - destruct IH as (a & c & -> & Ha); [lia|].
    exists (String b a), c. split; [reflexivity|]. rewrite closers_cons.
    destruct (Ascii.eqb_spec b "]"); [contradiction|]. exact Ha.
Qed.

Lemma drop_chars_app (pre s : string) : drop_chars (String.length pre) (pre +:+ s) = s.
Proof. induction pre as [|c pre IH]; [destruct s; reflexivity|]. rewrite app_cons. exact IH. Qed.

Lemma drop_chars_add (k i : nat) (s : string) :
  drop_chars i (drop_chars k s) = drop_chars (k + i) s.
Proof.
  revert s. induction k as [|k IH]; intros s; [reflexivity|].
  destruct s as [|c s]; simpl; [destruct i; reflexivity|]. apply IH.
Qed.

Lemma find_prefix (pat s : string) (i : nat) :
  find pat s = Some i -> String.prefix pat (drop_chars i s) = true.
Proof.
  revert i. induction s as [|c s IH]; intros i; cbn [find].
  - destruct (String.prefix pat "") eqn:E; [|discriminate].
    intros H. injection H as <-. exact E.
  - destruct (String.prefix pat (String c s)) eqn:E.
    + intros H. injection H as <-. exact E.
    + destruct (find pat s) as [j|]; [|discriminate]. intros H. injection H as <-.
      apply IH. reflexivity.
Qed.

Lemma substring_head (m post : string) :
  String.substring 0 (String.length m) (m +:+ post) = m.
Proof.
  induction m as [|c m IH]; [destruct post; reflexivity|].
  rewrite app_cons. cbn [String.length String.substring]. rewrite IH. reflexivity.
Qed.

Lemma substring_app (pre m post : string) :
  String.substring (String.length pre) (String.length m) (pre +:+ m +:+ post) = m.
Proof.
  induction pre as [|c pre IH]; [exact (substring_head m post)|]. rewrite app_cons. exact IH.
Qed.

Lemma indexOf_found (s pat : string) (from : Z) (p : nat) :
  indexOf s pat from = Z.of_nat p -> String.prefix pat (drop_chars p s) = true.
Proof.
  unfold indexOf.
  set (k := Z.to_nat (Z.min (Z.max from 0) (Z.of_nat (String.length s)))).
  destruct (find pat (drop_chars k s)) as [i|] eqn:E; [|lia].
  intros H. apply find_prefix in E. rewrite drop_chars_add in E.
  replace p with (k + i)%nat by lia. exact E.
Qed.

Lemma indexOf_closer (pre a rest : string) :
  closers a = 0%nat ->
  indexOf (pre +:+ a +:+ String "]" rest) "]" (Z.of_nat (String.length pre))
  = Z.of_nat (String.length pre + String.length a).
Proof.
  intros H. unfold indexOf. rewrite length_app.
  replace (Z.to_nat _) with (String.length pre) by lia.
  rewrite drop_chars_app, find_closer by exact H. reflexivity.
Qed.

Lemma slice_middle (pre m post : string) :
  slice (pre +:+ m +:+ post) (Z.of_nat (String.length pre))
    (Z.of_nat (String.length pre + String.length m)) = m.
Proof.
  unfold slice. rewrite !length_app.
  destruct (Z.ltb_spec (Z.of_nat (String.length pre)) 0); [lia|].
  destruct (Z.ltb_spec (Z.of_nat (String.length pre + String.length m)) 0); [lia|].
  replace (Z.to_nat (Z.min (Z.of_nat (String.length pre)) _)) with (String.length pre) by lia.
  replace (Z.to_nat (Z.max _ 0)) with (String.length m) by lia.
  apply substring_app.
Qed.

(** The array starts at the first opening bracket after the first
    occurrence of the marker. *)
Lemma occurs_app (ch : ascii) (s t : string) :
  occurs ch (s +:+ t) = occurs ch s || occurs ch t.
Proof.
  induction s as [|c s IH]; [reflexivity|]. rewrite app_cons. cbn [occurs].
  rewrite IH. apply orb_assoc.
Qed.

Lemma find_char (ch : ascii) (a rest : string) :
  occurs ch a = false ->
  find (String ch "") (a +:+ String ch rest) = Some (String.length a).
Proof.
  induction a as [|c a IH]; intros H.
  - change ("" +:+ String ch rest) with (String ch rest).
    cbn [find]. rewrite prefix_char. destruct (ascii_dec ch ch); [reflexivity|contradiction].
  - rewrite app_cons. cbn [occurs] in H. apply orb_false_elim in H as [Hc H].
    cbn [find String.length]. rewrite prefix_char.
    destruct (ascii_dec ch c) as [<-|_]; [rewrite Ascii.eqb_refl in Hc; discriminate|].
    rewrite IH by exact H. reflexivity.
Qed.

Lemma jsonStart_after_marker (p0 p1 rest : string) :
  find Server.marker (p0 +:+ Server.marker +:+ p1 +:+ String "[" rest)
  = Some (String.length p0) ->
  occurs "[" p1 = false ->
  Server.jsonStart (p0 +:+ Server.marker +:+ p1 +:+ String "[" rest)
  = Z.of_nat (String.length (p0 +:+ Server.marker +:+ p1)).
Proof.
  intros Hm Hp. unfold Server.jsonStart, Server.dataStart.
  assert (H0 : indexOf (p0 +:+ Server.marker +:+ p1 +:+ String "[" rest) Server.marker 0
               = Z.of_nat (String.length p0)).
  { unfold indexOf. replace (Z.to_nat _) with 0%nat by lia.
    change (drop_chars 0 ?x) with x. rewrite Hm. reflexivity. }
  rewrite H0. unfold indexOf. rewrite length_app.
  replace (Z.to_nat _) with (String.length p0) by lia.
  rewrite drop_chars_app, <- app_assoc, find_char, !length_app.
  - reflexivity.
  - rewrite occurs_app, Hp. reflexivity.
Qed.

(** ** The handler on an array at the typing of the rule engine *)

Lemma before_null_all (elements : list json) :
  existsb Server.is_null elements = false -> Server.before_null elements = elements.
Proof.
  induction elements as [|j r IH]; [reflexivity|]. cbn [existsb Server.before_null].
  destruct (Server.is_null j); [discriminate|]. intros H. rewrite (IH H). reflexivity.
Qed.

Lemma analyze_typed (untyped : list json -> outcome report) (prompt : string)
    (elements : list json) (vs : list violation) :
  prompt <> "" ->
  JSON_parse (Server.extracted prompt) = Some (JArr elements) ->
  existsb Server.is_null elements = false ->
  mapM Server.violation_of_json elements = Some vs ->
  Server.analyze untyped (Some prompt)
  = {| status := 200;
       payload := {| body_violations := None; body_passes := None; body_error := None;
                     body_details := None;
                     body_report :=
                       Some (stringify (Server.json_of_report (Server.analysis vs))) |} |}.
Proof.
  intros Hp Hj Hn Hv. unfold Server.analyze. change (default "" (Some prompt)) with prompt.
  destruct (String.eqb_spec prompt ""); [contradiction|].
  unfold Server.analyzed, Server.parse_violations. rewrite Hj. cbn [JS.bind].
  rewrite (before_null_all elements Hn), Hv, Hn. reflexivity.
Qed.

(** ** A nested array cuts the extracted text short *)

Lemma parse_value_bracket (n : nat) (s r : string) (v : json) :
  parse_value n (String "[" s) = Some (v, r) -> exists vs, v = JArr vs.
Proof.
  destruct n as [|n]; [discriminate|]. cbn [parse_value]. unfold value_step.
  change (skip_ws (String "[" s)) with (String "[" s).
  change (Ascii.eqb "[" "[") with true. cbv iota.
  destruct (skip_ws s) as [|c' r']; [discriminate|].
  destruct (Ascii.eqb c' "]"); [intros H; injection H as <- _; eauto|].
  destruct (parse_elements n s) as [[vs r'']|]; [|discriminate].
  intros H. injection H as <- _. eauto.
Qed.

Lemma closers_blank (s : string) : skip_ws s = "" -> closers s = 0%nat.
Proof. intros H. rewrite <- closers_skip_ws, H. reflexivity. Qed.

(** No depth makes the parser accept a text that ends in the first closing
    bracket of a longer text that it accepts. *)
Lemma cut_short_fails (a c : string) (v : json) (n : nat) :
  closers a = 0%nat -> (1 <= closers c)%nat ->
  JSON_parse (String "[" a +:+ String "]" c) = Some v ->
  parse_with n (String "[" a +:+ "]") = None.
Proof.
  intros Ha Hc Ht.
  destruct (parse_with n (String "[" a +:+ "]")) as [v'|] eqn:E; [exfalso|reflexivity].
  apply parse_with_some in E as (r' & E & Hr').
  apply parse_with_some in Ht as (wt & Ht & Hwt).
  destruct (parse_value_bracket _ _ _ _ E) as (vs' & ->).
  assert (Hs : r' <> "" \/ forall l, JArr vs' <> JNum l) by (right; intros l; discriminate).
  pose proof (proj1 (parse_app c n) _ _ _ E Hs) as E'.
  rewrite app_assoc, app_cons in E'. change ("" +:+ c) with c in E'.
  pose proof (parse_value_deterministic _ _ _ _ _ E' Ht) as Heq.
  injection Heq as _ <-.
  apply closers_blank in Hwt. rewrite closers_app in Hwt. lia.
Qed.

Lemma nested_sum (vs : list json) :
  Exists (fun v => (1 <= arrays v)%nat) vs -> (1 <= list_sum (map arrays vs))%nat.
Proof.
  induction 1 as [v vs H|v vs _ IH]; cbn [map]; rewrite sum_cons; lia.
Qed.

Lemma app_eqb_empty (s t : string) : t <> "" -> String.eqb (s +:+ t) "" = false.
Proof.
  intros H. apply String.eqb_neq. destruct s; [exact H|rewrite app_cons; discriminate].
Qed.

(** C9.  The handler takes the text from the first opening bracket after
    the marker up to the first closing bracket that follows.  When the array
    that starts there holds a nested array, that text is a proper prefix of
    the array, [JSON.parse] rejects it whatever depth it is given, and the
    handler answers 500. *)
Theorem nested_array_is_cut_short (untyped : list json -> outcome report)
    (pre t post : string) (vs : list json) :
  Server.jsonStart (pre +:+ t +:+ post) = Z.of_nat (String.length pre) ->
  JSON_parse t = Some (JArr vs) ->
  Exists (fun v => (1 <= arrays v)%nat) vs ->
  exists a c,
    t = a +:+ "]" +:+ c /\ closers a = 0%nat /\ c <> ""
    /\ Server.extracted (pre +:+ t +:+ post) = a +:+ "]"
    /\ (forall n, parse_with n (a +:+ "]") = None)
    /\ Server.analyze untyped (Some (pre +:+ t +:+ post))
       = {| status := 500;
            payload :=
              {| body_violations := None; body_passes := None;
                 body_error := Some "Analysis failed: Invalid accessibility data format";
                 body_details := Some "Error: Invalid accessibility data format";
                 body_report := None |} |}.
Proof.
  intros Hstart Ht Hnested.
  pose proof Ht as Ht'. apply parse_with_some in Ht' as (wt & Hv & Hwt).
  apply (proj1 (parse_counts _)) in Hv. cbn [arrays] in Hv.
  apply nested_sum in Hnested.
  destruct (first_closer t) as (a & c & -> & Ha); [lia|].
  rewrite closers_app, closers_cons in Hv. change (Ascii.eqb "]" "]") with true in Hv.
  cbv iota in Hv.
  assert (Hc : (1 <= closers c)%nat) by lia.
  assert (Hcne : c <> "") by (intros ->; simpl in Hc; lia).
  apply indexOf_found in Hstart as Hhead. rewrite drop_chars_app in Hhead.
  destruct a as [|b a].
  { change (("" +:+ String "]" c) +:+ post) with (String "]" (c +:+ post)) in Hhead.
    rewrite prefix_char in Hhead. destruct (ascii_dec "[" "]"); discriminate. }
  rewrite !app_cons, prefix_char in Hhead.
  destruct (ascii_dec "[" b) as [<-|]; [clear Hhead|discriminate].
  rewrite closers_cons in Ha. change (Ascii.eqb "[" "]") with false in Ha.
  cbv iota in Ha. cbn [Nat.add] in Ha.
  assert (Hfail : forall n, parse_with n (String "[" a +:+ "]") = None).
  { intros n. apply (cut_short_fails a c (JArr vs) n Ha Hc Ht). }
  assert (Hshape : pre +:+ (String "[" a +:+ String "]" c) +:+ post
                   = pre +:+ (String "[" a +:+ "]") +:+ (c +:+ post)).
  { rewrite !app_assoc. reflexivity. }
  assert (Hex : Server.extracted (pre +:+ (String "[" a +:+ String "]" c) +:+ post)
                = String "[" a +:+ "]").
  { unfold Server.extracted, Server.jsonEnd. rewrite Hstart.
    replace (pre +:+ (String "[" a +:+ String "]" c) +:+ post)
      with (pre +:+ String "[" a +:+ String "]" (c +:+ post))
      by (rewrite !app_assoc; reflexivity).
    rewrite (indexOf_closer pre (String "[" a) (c +:+ post))
      by (rewrite closers_cons; exact Ha).
    replace (pre +:+ String "[" a +:+ String "]" (c +:+ post))
      with (pre +:+ (String "[" a +:+ "]") +:+ (c +:+ post))
      by (rewrite !app_assoc; reflexivity).
    replace (Z.of_nat (String.length pre + String.length (String "[" a)) + 1)
      with (Z.of_nat (String.length pre + String.length (String "[" a +:+ "]")))
      by (rewrite length_app; cbn [String.length]; lia).
    apply slice_middle. }
  exists (String "[" a), c.
  split; [reflexivity|]. split; [rewrite closers_cons; exact Ha|]. split; [exact Hcne|].
  split; [exact Hex|]. split; [exact Hfail|].
  unfold Server.analyze.
  change (default "" (Some ?p)) with p.
  rewrite app_eqb_empty by (apply app_not_empty; rewrite app_cons; discriminate).
  unfold Server.analyzed, Server.parse_violations. rewrite Hex.
  unfold JSON_parse. rewrite Hfail. reflexivity.
Qed.

Lemma nested_array_is_cut_short_witness :
  exists a c,
    sample_array = a +:+ "]" +:+ c /\ closers a = 0%nat /\ c <> ""
    /\ Server.extracted sample_prompt = a +:+ "]"
    /\ (forall n, parse_with n (a +:+ "]") = None)
    /\ Server.analyze Server.strict (Some sample_prompt)
       = {| status := 500;
            payload :=
              {| body_violations := None; body_passes := None;
                 body_error := Some "Analysis failed: Invalid accessibility data format";
                 body_details := Some "Error: Invalid accessibility data format";
                 body_report := None |} |}.
Proof.
  apply (nested_array_is_cut_short Server.strict sample_before sample_array sample_after
           [JObj [("impact", JStr "serious");
                  ("nodes", JArr [JObj [("failureSummary", JStr "Fix it")]])]]).
  - vm_compute. reflexivity.
  - vm_compute. reflexivity.
  - constructor. vm_compute. lia.
Defined.

(** * Further properties of the code *)

(** ** The counter table of the server *)

Lemma foldl_count_step_lookup (vs : list violation) (m : gmap string nat) (k : string) :
  foldl Server.count_step m vs !! k
  = match m !! k, length (filter (fun v => counted_as v = k) vs) with
    | None, O => None
    | None, S n => Some (S n)
    | Some c, n => Some (c + n)%nat
    end.
Proof.
  revert m. induction vs as [|v vs IH]; intros m.
  - simpl. destruct (m !! k); [f_equal; lia|reflexivity].
  - cbn [foldl]. rewrite IH, filter_cons. unfold Server.count_step at 1.
    fold (counted_as v). rewrite lookup_insert.
    destruct (decide (counted_as v = k)) as [->|Hne].
    + cbn [length]. destruct (m !! k) as [c|]; simpl; f_equal; lia.
    + reflexivity.
Qed.

Lemma impactCounts_lookup (vs : list violation) (k : string) :
  Server.impactCounts vs !! k
  = match length (filter (fun v => counted_as v = k) vs) with
    | O => None
    | S n => Some (S n)
    end.
Proof.
  unfold Server.impactCounts. rewrite foldl_count_step_lookup, lookup_empty. reflexivity.
Qed.

Lemma counted_as_not_empty (v : violation) : counted_as v <> "".
Proof.
  unfold counted_as, JS.or, truthy. destruct (impact v) as [| |s]; try discriminate.
  destruct (String.eqb_spec s ""); simpl; [discriminate|assumption].
Qed.

Lemma total_count_step (m : gmap string nat) (v : violation) :
  total_count (Server.count_step m v) = S (total_count m).
Proof.
  unfold total_count, Server.count_step.
  assert (Hcomm : forall (j1 j2 : string) (z1 z2 y : nat),
             (z1 + (z2 + y) = z2 + (z1 + y))%nat) by (intros; lia).
  destruct (m !! counted_as v) as [c|] eqn:E; fold (counted_as v); rewrite E; simpl.
  - rewrite <- insert_delete_eq.
    rewrite map_fold_insert_L; [|intros; lia|apply lookup_delete_eq].
    rewrite (map_fold_delete_L _ _ _ _ m (fun j1 j2 z1 z2 y _ _ _ => Hcomm j1 j2 z1 z2 y) E).
    lia.
  - rewrite map_fold_insert_L; [reflexivity|intros; lia|exact E].
Qed.

Lemma total_count_foldl (vs : list violation) (m : gmap string nat) :
  total_count (foldl Server.count_step m vs) = (total_count m + length vs)%nat.
Proof.
  revert m. induction vs as [|v vs IH]; intros m; simpl; [lia|].
  rewrite IH, total_count_step. lia.
Qed.

(** X1.  At every key that an object does not inherit, the table that the
    reducer of [/analyze] builds holds the number of violations counted
    under the key, and holds nothing for a number of zero; no key is the
    empty string; and when no violation is counted under an inherited key,
    the counts add up to the number of violations. *)
Theorem impactCounts_invariant (vs : list violation) :
  (forall k n, inherited k = false -> Server.impactCounts vs !! k = Some n ->
     (0 < n)%nat /\ k <> "" /\ n = length (filter (fun v => counted_as v = k) vs))
  /\ (forall k, inherited k = false ->
        (Server.impactCounts vs !! k = None <-> Forall (fun v => counted_as v <> k) vs))
  /\ (Forall (fun v => inherited (counted_as v) = false) vs ->
      total_count (Server.impactCounts vs) = length vs).
Proof.
  split; [|split].
  - intros k n _ H. rewrite impactCounts_lookup in H.
    destruct (filter (fun v => counted_as v = k) vs) as [|v l] eqn:E; [discriminate|].
    cbn [length] in H. injection H as <-. split; [lia|]. split; [|reflexivity].
    assert (Hv : v ∈ filter (fun v => counted_as v = k) vs) by (rewrite E; left).
    apply list_elem_of_filter in Hv as [<- _]. apply counted_as_not_empty.
  - intros k _. rewrite impactCounts_lookup.
    destruct (filter (fun v => counted_as v = k) vs) as [|v l] eqn:E; cbn [length].
    + split; [intros _|reflexivity]. apply Forall_forall. intros v Hv Hk.
      assert (Hin : v ∈ filter (fun v => counted_as v = k) vs)
        by (apply list_elem_of_filter; auto).
      rewrite E in Hin. inversion Hin.
    + split; [discriminate|]. intros H. exfalso.
      assert (Hv : v ∈ filter (fun v => counted_as v = k) vs) by (rewrite E; left).
      apply list_elem_of_filter in Hv as [Hk Hin].
      rewrite Forall_forall in H. exact (H v Hin Hk).
  - intros _. unfold Server.impactCounts. rewrite total_count_foldl.
    unfold total_count. rewrite map_fold_empty. reflexivity.
Qed.

Lemma impactCounts_invariant_witness :
  total_count (Server.impactCounts [sample "serious" 1; bare; sample "serious" 2])
  = length [sample "serious" 1; bare; sample "serious" 2].
Proof.
  apply (proj2 (proj2 (impactCounts_invariant
                         [sample "serious" 1; bare; sample "serious" 2]))).
  repeat constructor.
Defined.

(** ** The heuristic as a function of the classes *)

Lemma in_class_app (c : impact_class) (vs ws : list violation) :
  in_class c (vs ++ ws) = (in_class c vs + in_class c ws)%nat.
Proof. unfold in_class. rewrite filter_app, List.length_app. reflexivity. Qed.

Lemma in_class_Permutation (c : impact_class) (vs ws : list violation) :
  vs ≡ₚ ws -> in_class c vs = in_class c ws.
Proof. intros H. unfold in_class. rewrite H. reflexivity. Qed.

Lemma in_class_all (c : impact_class) (vs : list violation) :
  in_class c vs = length vs <-> Forall (fun v => class_of v = c) vs.
Proof.
  induction vs as [|v vs IH]; [split; [constructor|reflexivity]|].
  rewrite in_class_cons. cbn [length]. split.
  - intros H. assert (in_class c vs <= length vs)%nat
      by (unfold in_class; apply length_filter).
    destruct (decide (class_of v = c)); [|lia].
    constructor; [assumption|]. apply IH. lia.
  - intros H. apply Forall_cons in H as [Hv Hvs]. apply IH in Hvs.
    rewrite decide_True by exact Hv. lia.
Qed.

(** The severity of each path by the numbers of its classes. *)
Lemma severity_by_class (b : bool) (vs : list violation) :
  Spec.severity b vs
  = if (0 <? in_class Critical vs)%nat then "high"
    else if (0 <? in_class Serious vs)%nat || (b && (2 <? in_class Moderate vs)%nat)
         then "medium" else "low".
Proof.
  unfold Spec.severity. rewrite !existsb_count.
  destruct (count_in_class vs) as (-> & -> & ->). reflexivity.
Qed.

Lemma severity_rank_by_class (b : bool) (vs : list violation) :
  severity_rank (Spec.severity b vs)
  = if (0 <? in_class Critical vs)%nat then 2%nat
    else if (0 <? in_class Serious vs)%nat || (b && (2 <? in_class Moderate vs)%nat)
         then 1%nat else 0%nat.
Proof.
  rewrite severity_by_class.
  destruct (0 <? in_class Critical vs)%nat; [reflexivity|].
  destruct (_ || _); reflexivity.
Qed.

Lemma client_score_by_class (vs : list violation) :
  Spec.score client_penalties vs
  = Z.max 0 (100 - 15 * Z.of_nat (in_class Critical vs)
             - 10 * Z.of_nat (in_class Serious vs)
             - 5 * Z.of_nat (in_class Moderate vs + in_class Minor vs + in_class Other vs)).
Proof.
  unfold Spec.score. rewrite Math_round_integer, total_penalty_classes. simpl. lia.
Qed.

Lemma server_score_by_class (vs : list violation) :
  Spec.score server_penalties vs
  = Z.max 0 (100 - 20 * Z.of_nat (in_class Critical vs)
             - 15 * Z.of_nat (in_class Serious vs)
             - 10 * Z.of_nat (in_class Moderate vs)
             - 5 * Z.of_nat (in_class Minor vs)).
Proof.
  unfold Spec.score. rewrite Math_round_integer, total_penalty_classes. simpl. lia.
Qed.

Lemma impactCounts_Permutation (vs ws : list violation) :
  vs ≡ₚ ws -> Server.impactCounts vs = Server.impactCounts ws.
Proof.
  intros H. apply map_eq. intros k. rewrite !impactCounts_lookup, H. reflexivity.
Qed.

(** X2.  The order of the violations has no part in the summary, the
    severity and the score of either path: two lists with the same
    violations in another order give the same three. *)
Theorem order_is_ignored (vs ws ps : list violation) :
  vs ≡ₚ ws ->
  (summary (Server.analysis vs) = summary (Server.analysis ws)
   /\ severity (Server.analysis vs) = severity (Server.analysis ws)
   /\ score (Server.analysis vs) = score (Server.analysis ws))
  /\ (Forall has_nodes vs ->
      exists r r',
        Client.getSimulatedAnalysis {| violations := vs; passes := Some ps |} = Returns r
        /\ Client.getSimulatedAnalysis {| violations := ws; passes := Some ps |} = Returns r'
        /\ summary r = summary r' /\ severity r = severity r' /\ score r = score r').
Proof.
  intros H. split.
  - unfold Server.analysis. cbn [summary severity score].
    rewrite (impactCounts_Permutation _ _ H), (Permutation_length H). repeat split.
  - intros Hn. assert (Hn' : Forall has_nodes ws) by (rewrite <- H; exact Hn).
    destruct (getSimulatedAnalysis_returns {| violations := vs; passes := Some ps |} Hn)
      as (rs & _ & _ & ->).
    destruct (getSimulatedAnalysis_returns {| violations := ws; passes := Some ps |} Hn')
      as (rs' & _ & _ & ->).
    do 2 eexists. split; [reflexivity|]. split; [reflexivity|].
    cbn [summary severity score violations]. unfold Spec.count.
    rewrite (Permutation_length H), H. repeat split.
Qed.

Lemma order_is_ignored_witness :
  exists r r',
    Client.getSimulatedAnalysis
      {| violations := [sample "critical" 1; sample "minor" 2]; passes := Some [] |}
    = Returns r
    /\ Client.getSimulatedAnalysis
         {| violations := [sample "minor" 2; sample "critical" 1]; passes := Some [] |}
       = Returns r'
    /\ summary r = summary r' /\ severity r = severity r' /\ score r = score r'.
Proof.
  destruct (order_is_ignored [sample "critical" 1; sample "minor" 2]
              [sample "minor" 2; sample "critical" 1] []) as [_ H].
  - apply perm_swap.
  - apply H. repeat constructor; eexists; reflexivity.
Defined.

(** X3.  More violations never help: on both paths, the report of a list
    with further violations has a score that is no higher and a severity
    that is no lower. *)
Theorem more_violations_never_help (vs ws ps : list violation) :
  (score (Server.analysis (vs ++ ws)) <= score (Server.analysis vs)
   /\ (severity_rank (severity (Server.analysis vs))
       <= severity_rank (severity (Server.analysis (vs ++ ws))))%nat)
  /\ (Forall has_nodes (vs ++ ws) ->
      exists r r',
        Client.getSimulatedAnalysis {| violations := vs; passes := Some ps |} = Returns r
        /\ Client.getSimulatedAnalysis {| violations := vs ++ ws; passes := Some ps |}
           = Returns r'
        /\ score r' <= score r
        /\ (severity_rank (severity r) <= severity_rank (severity r'))%nat).
Proof.
  split.
  - destruct (server_report vs) as [-> ->]. destruct (server_report (vs ++ ws)) as [-> ->].
    rewrite !server_score_by_class, !severity_rank_by_class, !in_class_app. split; [lia|].
    destruct (Nat.ltb_spec 0 (in_class Critical vs));
      destruct (Nat.ltb_spec 0 (in_class Critical vs + in_class Critical ws));
      destruct (Nat.ltb_spec 0 (in_class Serious vs));
      destruct (Nat.ltb_spec 0 (in_class Serious vs + in_class Serious ws));
      destruct (Nat.ltb_spec 2 (in_class Moderate vs));
      destruct (Nat.ltb_spec 2 (in_class Moderate vs + in_class Moderate ws));
      simpl; lia.
  - intros H. apply Forall_app in H as H'. destruct H' as [Hv _].
    destruct (client_report vs ps Hv) as (r & Hr & Hs & Hc).
    destruct (client_report (vs ++ ws) ps H) as (r' & Hr' & Hs' & Hc').
    exists r, r'. split; [exact Hr|]. split; [exact Hr'|]. rewrite Hs, Hc, Hs', Hc'.
    rewrite !client_score_by_class, !severity_rank_by_class, !in_class_app. split; [lia|].
    destruct (Nat.ltb_spec 0 (in_class Critical vs));
      destruct (Nat.ltb_spec 0 (in_class Critical vs + in_class Critical ws));
      destruct (Nat.ltb_spec 0 (in_class Serious vs));
      destruct (Nat.ltb_spec 0 (in_class Serious vs + in_class Serious ws));
      simpl; lia.
Qed.

Lemma more_violations_never_help_witness :
  exists r r',
    Client.getSimulatedAnalysis {| violations := [sample "minor" 1]; passes := Some [] |}
    = Returns r
    /\ Client.getSimulatedAnalysis
         {| violations := [sample "minor" 1] ++ [sample "critical" 1]; passes := Some [] |}
       = Returns r'
    /\ score r' <= score r
    /\ (severity_rank (severity r) <= severity_rank (severity r'))%nat.
Proof.
  destruct (more_violations_never_help [sample "minor" 1] [sample "critical" 1] [])
    as [_ H].
  apply H. repeat constructor; eexists; reflexivity.
Defined.

(** X4.  The client scores 100 only for the empty list; the server scores
    100 exactly when every violation has an impact that is none of the four
    words, however many there are. *)
Theorem perfect_score (vs ps : list violation) :
  (score (Server.analysis vs) = 100 <-> Forall (fun v => class_of v = Other) vs)
  /\ (Forall has_nodes vs ->
      exists r,
        Client.getSimulatedAnalysis {| violations := vs; passes := Some ps |} = Returns r
        /\ (score r = 100 <-> vs = [])).
Proof.
  pose proof (in_class_total vs) as Ht. split.
  - destruct (server_report vs) as [_ ->]. rewrite server_score_by_class.
    rewrite <- in_class_all. lia.
  - intros H. destruct (client_report vs ps H) as (r & Hr & _ & Hc).
    exists r. split; [exact Hr|]. rewrite Hc, client_score_by_class.
    split; [intros Hs; apply length_zero_iff_nil; lia|intros ->; reflexivity].
Qed.

Lemma perfect_score_witness :
  exists r,
    Client.getSimulatedAnalysis {| violations := [sample "minor" 1]; passes := Some [] |}
    = Returns r
    /\ (score r = 100 <-> [sample "minor" 1] = []).
Proof.
  destruct (perfect_score [sample "minor" 1] []) as [_ H].
  apply H. repeat constructor; eexists; reflexivity.
Defined.

(** X5.  Twenty violations floor the score at 0: on the client always, on
    the server when at least twenty of them have one of the four impacts or
    none. *)
Theorem score_floor (vs ps : list violation) :
  ((20 <= length vs - in_class Other vs)%nat -> score (Server.analysis vs) = 0)
  /\ ((20 <= length vs)%nat -> Forall has_nodes vs ->
      exists r,
        Client.getSimulatedAnalysis {| violations := vs; passes := Some ps |} = Returns r
        /\ score r = 0).
Proof.
  pose proof (in_class_total vs) as Ht. split.
  - intros H. destruct (server_report vs) as [_ ->]. rewrite server_score_by_class. lia.
  - intros Hl H. destruct (client_report vs ps H) as (r & Hr & _ & Hc).
    exists r. split; [exact Hr|]. rewrite Hc, client_score_by_class. lia.
Qed.

Lemma score_floor_witness :
  exists r,
    Client.getSimulatedAnalysis
      {| violations := replicate 20 (sample "minor" 1); passes := Some [] |} = Returns r
    /\ score r = 0.
Proof.
  destruct (score_floor (replicate 20 (sample "minor" 1)) []) as [_ H].
  apply H; [vm_compute; lia|]. repeat constructor; eexists; reflexivity.
Defined.

(** X6.  The server is the stricter of the two: its severity is never below
    the client's, and its score is never above the client's unless some
    violation has an impact that is none of the four words. *)
Theorem server_is_stricter (vs ps : list violation) :
  Forall has_nodes vs ->
  exists r,
    Client.getSimulatedAnalysis {| violations := vs; passes := Some ps |} = Returns r
    /\ (severity_rank (severity r) <= severity_rank (severity (Server.analysis vs)))%nat
    /\ (in_class Other vs = 0%nat -> score (Server.analysis vs) <= score r).
Proof.
  intros H. destruct (client_report vs ps H) as (r & Hr & Hs & Hc).
  destruct (server_report vs) as [-> ->].
  exists r. split; [exact Hr|]. rewrite Hs, Hc.
  rewrite !severity_rank_by_class, client_score_by_class, server_score_by_class. split.
  - destruct (0 <? in_class Critical vs)%nat; [lia|].
    destruct (0 <? in_class Serious vs)%nat; simpl; [lia|].
    destruct (2 <? in_class Moderate vs)%nat; lia.
  - intros Ho. lia.
Qed.

Lemma server_is_stricter_witness :
  exists r,
    Client.getSimulatedAnalysis
      {| violations := replicate 3 (sample "moderate" 1); passes := Some [] |} = Returns r
    /\ (severity_rank (severity r)
        <= severity_rank (severity (Server.analysis (replicate 3 (sample "moderate" 1)))))%nat
    /\ (in_class Other (replicate 3 (sample "moderate" 1)) = 0%nat ->
        score (Server.analysis (replicate 3 (sample "moderate" 1))) <= score r).
Proof.
  apply (server_is_stricter (replicate 3 (sample "moderate" 1)) []).
  repeat constructor; eexists; reflexivity.
Defined.

(** ** The colours *)

(** X7.  The severity of a report of either heuristic is never shown in the
    grey of the [default] branch of [getSeverityColor]: it is red exactly
    when some violation is critical, and yellow or green otherwise. *)
Theorem severity_colour (vs ps : list violation) :
  (getSeverityColor (severity (Server.analysis vs)) <> "text-gray-500"
   /\ (getSeverityColor (severity (Server.analysis vs)) = "text-red-600"
       <-> (0 < Spec.count "critical" vs)%nat))
  /\ (Forall has_nodes vs ->
      exists r,
        Client.getSimulatedAnalysis {| violations := vs; passes := Some ps |} = Returns r
        /\ getSeverityColor (severity r) <> "text-gray-500"
        /\ (getSeverityColor (severity r) = "text-red-600"
            <-> (0 < Spec.count "critical" vs)%nat)).
Proof.
  assert (H : forall b,
             getSeverityColor (Spec.severity b vs) <> "text-gray-500"
             /\ (getSeverityColor (Spec.severity b vs) = "text-red-600"
                 <-> (0 < Spec.count "critical" vs)%nat)).
  { intros b. unfold Spec.severity. rewrite existsb_count.
    destruct (Nat.ltb_spec 0 (Spec.count "critical" vs)).
    - split; [discriminate|]. split; [auto|reflexivity].
    - destruct (_ || _); (split; [discriminate|]); split; try discriminate; lia. }
  split.
  - destruct (server_report vs) as [-> _]. apply H.
  - intros Hn. destruct (client_report vs ps Hn) as (r & Hr & Hs & _).
    exists r. split; [exact Hr|]. rewrite Hs. apply H.
Qed.

Lemma severity_colour_witness :
  exists r,
    Client.getSimulatedAnalysis {| violations := [sample "serious" 1]; passes := Some [] |}
    = Returns r
    /\ getSeverityColor (severity r) <> "text-gray-500"
    /\ (getSeverityColor (severity r) = "text-red-600"
        <-> (0 < Spec.count "critical" [sample "serious" 1])%nat).
Proof.
  destruct (severity_colour [sample "serious" 1] []) as [_ H].
  apply H. repeat constructor; eexists; reflexivity.
Defined.

(** ** The state of the component *)

Lemma or_else_not_empty (a b : string) : b <> "" -> Client.or_else a b <> "".
Proof.
  intros H. unfold Client.or_else. destruct (String.eqb_spec a ""); assumption.
Qed.

(** X8.  [runAccessibilityCheck] always ends with [loading] off and leaves
    the report alone; it ends with an empty error exactly when the scan came
    through, and otherwise with a message that is not empty, beside the
    empty result. *)
Theorem check_ends (scan : fetched) (st : Client.state) :
  Client.st_loading (snd (Client.runAccessibilityCheck scan st)) = false
  /\ Client.st_report (snd (Client.runAccessibilityCheck scan st)) = Client.st_report st
  /\ ((Client.st_error (snd (Client.runAccessibilityCheck scan st)) = ""
       /\ Client.checked scan = Returns (fst (Client.runAccessibilityCheck scan st)))
      \/ (Client.st_error (snd (Client.runAccessibilityCheck scan st)) <> ""
          /\ fst (Client.runAccessibilityCheck scan st) = Client.empty_results
          /\ exists e, Client.checked scan = Throws e)).
Proof.
  unfold Client.runAccessibilityCheck.
  destruct (Client.checked scan) as [data|e]; cbn [fst snd]; repeat split.
  - left. split; reflexivity.
  - right. split; [|split; [reflexivity|eauto]].
    cbn [Client.setLoading Client.setError Client.st_error].
    apply or_else_not_empty. discriminate.
Qed.

Lemma total_nodes_inv (vs : list violation) (m : nat) :
  Client.total_nodes vs = Returns m -> Forall has_nodes vs.
Proof.
  unfold Client.total_nodes.
  assert (H : forall (acc : outcome nat) m,
             foldl (fun (acc : outcome nat) v =>
                      let* sum := acc in
                      match nodes v with
                      | Some ns => Returns (sum + length ns)%nat
                      | None => Throws undefined_length
                      end) acc vs = Returns m ->
             (exists n, acc = Returns n) /\ Forall has_nodes vs).
  { induction vs as [|v vs IH]; intros acc k Hk; cbn [foldl] in Hk.
    - split; [eauto|constructor].
    - apply IH in Hk as [[n Hn] Hvs]. destruct acc as [a|e]; [|discriminate].
      split; [eauto|]. constructor; [|exact Hvs].
      cbn [JS.bind] in Hn. destruct (nodes v) eqn:E; [|discriminate].
      unfold has_nodes. rewrite E. eauto. }
  intros Hm. apply H in Hm. apply Hm.
Qed.

Lemma analyzePage_throws (a : axe_results) (answer : fetched) :
  ~ Forall has_nodes (violations a) ->
  exists e, Client.analyzePage a answer = Throws e.
Proof.
  intros H. destruct (getSimulatedAnalysis_throws a H) as (e & He).
  assert (Hs : Client.simulated a = Throws e) by (unfold Client.simulated; rewrite He; reflexivity).
  unfold Client.analyzePage, Client.requested, Client.prompt_numbers.
  destruct (Client.total_nodes (violations a)) as [m|e'] eqn:E.
  - exfalso. apply H. apply (total_nodes_inv _ _ E).
  - cbn [JS.bind]. eauto.
Qed.

(** X9.  [analyzePage] returns an analysis exactly when every violation
    carries its nodes, whatever the server answers and whether or not the
    scan has [passes]; otherwise it throws. *)
Theorem analyzePage_returns (a : axe_results) (answer : fetched) :
  (exists x, Client.analyzePage a answer = Returns x) <-> Forall has_nodes (violations a).
Proof.
  split.
  - intros (x & Hx). destruct (decide (Forall has_nodes (violations a))) as [H|H]; [exact H|].
    destruct (analyzePage_throws a answer H) as (e & He). congruence.
  - intros H. destruct (simulated_returns a H) as (r & _ & Hs).
    destruct (analyzePage_cases a answer) as [->|(? & ? & ? & ? & j & _ & _ & _ & _ & ->)]; eauto.
Qed.

Lemma map_throwing_throws {A B} (f : A -> outcome B) (l : list A) (e : error) :
  map_throwing f l = Throws e -> exists x, x ∈ l /\ f x = Throws e.
Proof.
  induction l as [|x l IH]; [discriminate|]. cbn [map_throwing].
  destruct (f x) as [y|e'] eqn:Hx; cbn [JS.bind].
  - destruct (map_throwing f l) as [ys|e'] eqn:Hl; cbn [JS.bind]; [discriminate|].
    intros H. injection H as ->. destruct (IH eq_refl) as (z & Hz & Hf).
    exists z. split; [right; exact Hz|exact Hf].
  - intros H. injection H as ->. exists x. split; [left|exact Hx].
Qed.

Lemma getSimulatedAnalysis_error (a : axe_results) (e : error) :
  Client.getSimulatedAnalysis a = Throws e -> e = undefined_length.
Proof.
  unfold Client.getSimulatedAnalysis, Client.mapped_recommendations.
  destruct (map_throwing Client.recommendation (violations a)) as [ys|e'] eqn:E;
    cbn [JS.bind]; [discriminate|].
  intros H. injection H as ->. apply map_throwing_throws in E as (v & _ & Hv).
  unfold Client.recommendation in Hv. destruct (nodes v); [discriminate|].
  injection Hv as <-. reflexivity.
Qed.

Lemma handleAnalyze_valid (u : string) (scan answer : fetched) (st : Client.state) :
  Client.urlPattern u = true ->
  Client.handleAnalyze u scan answer st
  = let st0 := Client.setReport None (Client.setError "" (Client.setLoading true st)) in
    let results := fst (Client.runAccessibilityCheck scan st0) in
    let st1 := snd (Client.runAccessibilityCheck scan st0) in
    match (let* llm := Client.analyzePage results answer in
           let* total := Client.total_nodes (violations results) in
           Returns {| Client.url := u; Client.axeResults := results;
                      Client.llmAnalysis := llm; Client.totalIssues := total |}) with
    | Returns r => Client.setLoading false (Client.setReport (Some r) st1)
    | Throws err =>
        Client.setLoading false
          (Client.setError
             (Client.or_else (message err) "An error occurred while analyzing the website")
             st1)
    end.
Proof.
  intros Hu. pose proof (urlPattern_not_empty u Hu) as Hne.
  unfold Client.handleAnalyze, Client.analyzed.
  destruct (String.eqb_spec u ""); [contradiction|]. rewrite Hu. cbn [negb].
  destruct (Client.runAccessibilityCheck scan _) as [results st1]. reflexivity.
Qed.

(** X10.  An address that does not pass the pattern stops [handleAnalyze]
    before any request: the final state does not depend on what the
    requests would give.  The empty address only sets the error, leaving the
    report and [loading] as they were; any other such address clears the
    report and ends with the message about the scheme. *)
Theorem invalid_address (u : string) (scan answer : fetched) (st : Client.state) :
  Client.urlPattern u = false ->
  Client.handleAnalyze u scan answer st
  = if String.eqb u "" then
      {| Client.st_loading := Client.st_loading st;
         Client.st_error := "Please enter a valid URL";
         Client.st_report := Client.st_report st |}
    else
      {| Client.st_loading := false;
         Client.st_error := "Please enter a valid URL starting with http:// or https://";
         Client.st_report := None |}.
Proof.
  intros Hu. unfold Client.handleAnalyze, Client.analyzed. rewrite Hu.
  destruct (String.eqb u ""); reflexivity.
Qed.

Lemma invalid_address_witness :
  Client.handleAnalyze "ftp://example.com" bare_scan (Rejected (Error "Failed to fetch")) idle
  = {| Client.st_loading := false;
       Client.st_error := "Please enter a valid URL starting with http:// or https://";
       Client.st_report := None |}.
Proof.
  apply (invalid_address "ftp://example.com" bare_scan (Rejected (Error "Failed to fetch")) idle).
  reflexivity.
Defined.

(** X11.  A scan that fails still ends in a report: for an address that
    passes the pattern, the user is shown the error of the scan together
    with a report on the empty result, with no issues; unless the server
    sends a report of its own, that report is the all-clear one, with a
    score of 100 and a low severity. *)
Theorem failed_scan_is_reported (u : string) (scan answer : fetched) (st : Client.state)
    (e : error) :
  Client.urlPattern u = true ->
  Client.checked scan = Throws e ->
  exists rep,
    Client.st_report (Client.handleAnalyze u scan answer st) = Some rep
    /\ Client.axeResults rep = Client.empty_results
    /\ Client.totalIssues rep = 0%nat
    /\ Client.st_error (Client.handleAnalyze u scan answer st)
       = Client.or_else (message e)
           "Failed to fetch accessibility data. Please try again later."
    /\ Client.st_error (Client.handleAnalyze u scan answer st) <> ""
    /\ (Client.llmAnalysis rep = Client.Simulated all_clear
        \/ exists j, Client.llmAnalysis rep = Client.Parsed j).
Proof.
  intros Hu He. rewrite (handleAnalyze_valid _ _ _ _ Hu).
  unfold Client.runAccessibilityCheck. rewrite He. cbn [fst snd].
  assert (Hne : Client.or_else (message e)
                  "Failed to fetch accessibility data. Please try again later." <> "")
    by (apply or_else_not_empty; discriminate).
  destruct (analyzePage_cases Client.empty_results answer)
    as [Ha|(? & ? & ? & ? & j & _ & _ & _ & _ & Ha)]; rewrite Ha.
  - eexists. repeat split; [exact Hne|]. left. reflexivity.
  - eexists. repeat split; [exact Hne|]. right. eauto.
Qed.

Lemma failed_scan_is_reported_witness :
  exists rep,
    Client.st_report
      (Client.handleAnalyze "http://a.b" (Rejected (Error "Failed to fetch"))
         (Rejected (Error "Failed to fetch")) idle) = Some rep
    /\ Client.llmAnalysis rep = Client.Simulated all_clear
    /\ Client.st_error
         (Client.handleAnalyze "http://a.b" (Rejected (Error "Failed to fetch"))
            (Rejected (Error "Failed to fetch")) idle) = "Failed to fetch".
Proof.
  destruct (failed_scan_is_reported "http://a.b" (Rejected (Error "Failed to fetch"))
              (Rejected (Error "Failed to fetch")) idle (Error "Failed to fetch")
              eq_refl eq_refl) as (rep & Hrep & _ & _ & Herr & _ & _).
  exists rep. split; [exact Hrep|]. split; [|exact Herr].
  vm_compute in Hrep. injection Hrep as <-. reflexivity.
Defined.

(** X12.  A scan with a violation that lacks its nodes ends without a
    report: for an address that passes the pattern and whatever the server
    answers to the analysis, [handleAnalyze] clears the report, shows the
    message of the [TypeError] and turns [loading] off. *)
Theorem unusable_scan_is_not_reported (u : string) (scan answer : fetched)
    (st : Client.state) :
  Client.urlPattern u = true ->
  ~ Forall has_nodes (violations (fst (Client.runAccessibilityCheck scan st))) ->
  Client.st_report (Client.handleAnalyze u scan answer st) = None
  /\ Client.st_error (Client.handleAnalyze u scan answer st)
     = "Cannot read properties of undefined (reading 'length')"
  /\ Client.st_loading (Client.handleAnalyze u scan answer st) = false.
Proof.
  intros Hu H. rewrite (handleAnalyze_valid _ _ _ _ Hu).
  set (st0 := Client.setReport None (Client.setError "" (Client.setLoading true st))).
  assert (Hres : fst (Client.runAccessibilityCheck scan st0)
                 = fst (Client.runAccessibilityCheck scan st)).
  { unfold Client.runAccessibilityCheck. destruct (Client.checked scan); reflexivity. }
  assert (Hrep : Client.st_report (snd (Client.runAccessibilityCheck scan st0)) = None).
  { unfold Client.runAccessibilityCheck. destruct (Client.checked scan); reflexivity. }
  cbv zeta. rewrite Hres.
  destruct (analyzePage_throws _ answer H) as (e & He). rewrite He. cbn [JS.bind].
  assert (e = undefined_length) as ->.
  { unfold Client.analyzePage in He.
    destruct (Client.requested _ answer) as [[j|]|e']; try discriminate;
      unfold Client.simulated in He;
      destruct (Client.getSimulatedAnalysis _) as [r|e''] eqn:E; try discriminate;
      injection He as <-; apply (getSimulatedAnalysis_error _ _ E). }
  repeat split. exact Hrep.
Qed.

Lemma unusable_scan_is_not_reported_witness :
  Client.st_report
    (Client.handleAnalyze "https://example.com" bare_scan (Rejected (Error "Failed to fetch"))
       idle) = None
  /\ Client.st_error
       (Client.handleAnalyze "https://example.com" bare_scan
          (Rejected (Error "Failed to fetch")) idle)
     = "Cannot read properties of undefined (reading 'length')"
  /\ Client.st_loading
       (Client.handleAnalyze "https://example.com" bare_scan
          (Rejected (Error "Failed to fetch")) idle) = false.
Proof.
  apply (unusable_scan_is_not_reported "https://example.com" bare_scan
           (Rejected (Error "Failed to fetch")) idle).
  - reflexivity.
  - intros H. vm_compute in H. inversion H as [|? ? [ns Hns] _]. discriminate.
Defined.

(** ** [GET /scan], and its answer at the client *)

Lemma copy_violation_inv (v w : violation) :
  Server.copy_violation v = Returns w -> has_nodes v /\ w = v.
Proof.
  intros H. assert (Hn : has_nodes v).
  { unfold Server.copy_violation in H. unfold has_nodes.
    destruct (nodes v); [eauto|discriminate]. }
  split; [exact Hn|]. rewrite (copy_violation_returns v Hn) in H. congruence.
Qed.

Lemma map_throwing_copy (vs ws : list violation) :
  map_throwing Server.copy_violation vs = Returns ws -> Forall has_nodes vs /\ ws = vs.
Proof.
  revert ws. induction vs as [|v vs IH]; intros ws H; cbn [map_throwing] in H.
  - injection H as <-. split; [constructor|reflexivity].
  - destruct (Server.copy_violation v) as [w|e] eqn:Hv; [|discriminate]. cbn [JS.bind] in H.
    destruct (map_throwing Server.copy_violation vs) as [ws'|e] eqn:Hvs; [|discriminate].
    cbn [JS.bind] in H. injection H as <-.
    apply copy_violation_inv in Hv as [Hn ->]. destruct (IH _ eq_refl) as [Hns ->].
    split; [constructor; assumption|reflexivity].
Qed.

(** X13.  [GET /scan] answers 200 exactly when the address is not empty and
    the rule engine returns results with its [passes] in which every
    violation carries its nodes; the body then holds those violations and
    passes unchanged: the copy that the handler makes alters nothing. *)
Theorem scan_succeeds (u : option string) (page : outcome axe_results) :
  status (Server.scan u page) = 200%nat
  <-> exists a vs ps,
        u = Some a /\ a <> "" /\ page = Returns {| violations := vs; passes := Some ps |}
        /\ Forall has_nodes vs
        /\ payload (Server.scan u page)
           = {| body_violations := Some vs; body_passes := Some ps; body_error := None;
                body_details := None; body_report := None |}.
Proof.
  split.
  - unfold Server.scan. destruct u as [a|]; [|discriminate].
    change (default "" (Some a)) with a.
    destruct (String.eqb_spec a "") as [->|Ha]; [discriminate|].
    destruct page as [[vs [ps|]]|e]; cbn [JS.bind passes violations]; try discriminate.
    destruct (map_throwing Server.copy_violation vs) as [ws|e] eqn:E; cbn [JS.bind];
      [|discriminate].
    intros _. apply map_throwing_copy in E as [Hn ->].
    exists a, vs, ps. repeat split; assumption.
  - intros (a & vs & ps & -> & Ha & -> & Hn & _).
    rewrite (scan_returns_results a vs ps Ha Hn). reflexivity.
Qed.

Lemma scan_cases (u : option string) (page : outcome axe_results) :
  Server.scan u page
  = {| status := 400; payload := Server.error_body "URL parameter is required" |}
  \/ (exists vs ps,
        Server.scan u page
        = {| status := 200;
             payload := {| body_violations := Some vs; body_passes := Some ps;
                           body_error := None; body_details := None;
                           body_report := None |} |})
  \/ (exists e,
        Server.scan u page
        = {| status := 500;
             payload := Server.error_body ("Failed to analyze website: " +:+ message e) |}).
Proof.
  unfold Server.scan. destruct u as [a|]; [|left; reflexivity].
  change (default "" (Some a)) with a.
  destruct (String.eqb a ""); [left; reflexivity|right].
  destruct page as [[vs [ps|]]|e]; cbn [JS.bind passes violations].
  - destruct (map_throwing Server.copy_violation vs) as [ws|e]; cbn [JS.bind];
      [left; eauto|right; eauto].
  - right. exists undefined_length. reflexivity.
  - right. eauto.
Qed.

(** C7.  [GET /scan] answers in one of three ways and in no other, and
    the request decides which: 400 with an [error] alone when the address is
    missing or empty; 200 with the [violations] and the [passes] of the rule
    engine, unchanged, when the page is fetched and analysed and the results
    carry their [passes] and every violation its nodes; and 500 with an
    [error] alone that holds the message of the exception when fetching or
    analysing the page throws, or when the handler itself throws on results
    without [passes] or on a violation without nodes. *)
Theorem scan_responses (u : option string) (page : outcome axe_results) :
  ((u = None \/ u = Some "")
   /\ Server.scan u page
      = {| status := 400; payload := Server.error_body "URL parameter is required" |})
  \/ (exists a vs ps,
        u = Some a /\ a <> ""
        /\ page = Returns {| violations := vs; passes := Some ps |}
        /\ Forall has_nodes vs
        /\ Server.scan u page
           = {| status := 200;
                payload := {| body_violations := Some vs; body_passes := Some ps;
                              body_error := None; body_details := None;
                              body_report := None |} |})
  \/ (exists a e,
        u = Some a /\ a <> ""
        /\ (page = Throws e
            \/ (exists r, page = Returns r /\ passes r = None /\ e = undefined_length)
            \/ (exists r ps,
                  page = Returns r /\ passes r = Some ps
                  /\ ~ Forall has_nodes (violations r)
                  /\ e = TypeError "Cannot read properties of undefined (reading 'map')"))
        /\ Server.scan u page
           = {| status := 500;
                payload := Server.error_body
                             ("Failed to analyze website: " +:+ message e) |}).
Proof.
  unfold Server.scan. destruct u as [a|]; [|left; split; [left|]; reflexivity].
  change (default "" (Some a)) with a.
  destruct (String.eqb_spec a "") as [->|Ha]; [left; split; [right|]; reflexivity|right].
  destruct page as [[vs [ps|]]|e]; cbn [JS.bind passes violations].
  - destruct (map_throwing Server.copy_violation vs) as [ws|e] eqn:E; cbn [JS.bind].
    + left. apply map_throwing_copy in E as [Hn ->]. exists a, vs, ps. auto.
    + right. exists a, e. split; [reflexivity|]. split; [exact Ha|].
      apply map_throwing_throws in E as (x & Hx & Hf). unfold Server.copy_violation in Hf.
      destruct (nodes x) as [ns|] eqn:Hnx; [discriminate|]. injection Hf as <-.
      split; [|reflexivity]. right. right.
      exists {| violations := vs; passes := Some ps |}, ps.
      split; [reflexivity|]. split; [reflexivity|]. split; [|reflexivity].
      intros HF. rewrite Forall_forall in HF. destruct (HF x Hx) as [ns Hns].
      cbn [violations] in *. congruence.
  - right. exists a, undefined_length. split; [reflexivity|]. split; [exact Ha|].
    split; [|reflexivity]. right. left.
    exists {| violations := vs; passes := None |}. auto.
  - right. exists a, e. auto.
Qed.

(** X14.  What [/scan] answers is what [runAccessibilityCheck] hands on: for
    a 200 the violations and passes of the body, with an empty error; for a
    400 or a 500 the empty result, with the [error] of the body as the
    message shown. *)
Theorem scan_reaches_client (text : string) (u : option string)
    (page : outcome axe_results) (st : Client.state) :
  (exists vs ps,
     status (Server.scan u page) = 200%nat
     /\ payload (Server.scan u page)
        = {| body_violations := Some vs; body_passes := Some ps; body_error := None;
             body_details := None; body_report := None |}
     /\ fst (Client.runAccessibilityCheck (over_http text (Server.scan u page)) st)
        = {| violations := vs; passes := Some ps |}
     /\ Client.st_error
          (snd (Client.runAccessibilityCheck (over_http text (Server.scan u page)) st)) = "")
  \/ (status (Server.scan u page) <> 200%nat
      /\ fst (Client.runAccessibilityCheck (over_http text (Server.scan u page)) st)
         = Client.empty_results
      /\ body_error (payload (Server.scan u page))
         = Some (Client.st_error
                   (snd (Client.runAccessibilityCheck
                           (over_http text (Server.scan u page)) st)))
      /\ Client.st_error
           (snd (Client.runAccessibilityCheck (over_http text (Server.scan u page)) st))
         <> "").
Proof.
  assert (Hfail : forall code msg, (code = 400 \/ code = 500)%nat -> msg <> "" ->
            let r := {| status := code; payload := Server.error_body msg |} in
            status r <> 200%nat
            /\ fst (Client.runAccessibilityCheck (over_http text r) st) = Client.empty_results
            /\ body_error (payload r)
               = Some (Client.st_error (snd (Client.runAccessibilityCheck (over_http text r) st)))
            /\ Client.st_error (snd (Client.runAccessibilityCheck (over_http text r) st))
               <> "").
  { intros code msg Hc Hm r. subst r.
    assert (Hc' : ((200 <=? code)%nat && (code <=? 299)%nat) = false)
      by (destruct Hc as [-> | ->]; reflexivity).
    unfold Client.runAccessibilityCheck, over_http, Client.checked.
    cbn [status payload JS.bind Server.error_body body_error]. rewrite Hc'.
    cbn [negb default fst snd id Client.st_error Client.setLoading Client.setError].
    assert (Hk : Client.or_else
                   (message (Error (Client.or_else msg
                      ("Error " +:+ of_nat code +:+ ": " +:+ text))))
                   "Failed to fetch accessibility data. Please try again later." = msg).
    { unfold Client.or_else, Error. cbn [message].
      destruct (String.eqb_spec msg ""); [contradiction|].
      destruct (String.eqb_spec msg ""); [contradiction|reflexivity]. }
    split; [destruct Hc as [-> | ->]; discriminate|]. split; [reflexivity|].
    change (from_option id "" (Some msg)) with msg. rewrite Hk.
    split; [reflexivity|exact Hm]. }
  destruct (scan_cases u page) as [->|[(vs & ps & ->)|(e & ->)]].
  - right. apply Hfail; [auto|discriminate].
  - left. exists vs, ps. repeat split.
  - right. apply Hfail; [auto|]. discriminate.
Qed.

(** ** What [/analyze] takes out of a prompt *)

Lemma substring_none (n : nat) (s : string) : String.substring n 0 s = "".
Proof.
  revert s. induction n as [|n IH]; intros [|c s]; cbn [String.substring]; auto.
Qed.

Lemma drop_chars_split (k : nat) (s : string) :
  exists pre, s = pre +:+ drop_chars k s /\ (drop_chars k s <> "" -> String.length pre = k).
Proof.
  revert s. induction k as [|k IH]; intros s.
  - exists "". split; [destruct s; reflexivity|reflexivity].
  - destruct s as [|c s].
    + exists "". split; [reflexivity|]. intros H. exfalso. apply H. reflexivity.
    + destruct (IH s) as (pre & Hs & Hl). exists (String c pre). cbn [drop_chars].
      split; [rewrite app_cons, <- Hs; reflexivity|].
      intros H. cbn [String.length]. rewrite (Hl H). reflexivity.
Qed.

Lemma find_char_inv (ch : ascii) (s : string) (i : nat) :
  find (String ch "") s = Some i ->
  exists a rest, s = a +:+ String ch rest /\ String.length a = i /\ occurs ch a = false.
Proof.
  revert i. induction s as [|c s IH]; intros i; cbn [find].
  - cbn [String.prefix]. discriminate.
  - rewrite prefix_char. destruct (ascii_dec ch c) as [<-|Hc].
    + intros H. injection H as <-. exists "", s. repeat split.
    + destruct (find (String ch "") s) as [j|]; [|discriminate].
      intros H. injection H as <-. destruct (IH j eq_refl) as (a & rest & -> & Hl & Ho).
      exists (String c a), rest. split; [reflexivity|]. split; [simpl; lia|].
      cbn [occurs]. rewrite Ho. destruct (Ascii.eqb_spec c ch); [congruence|reflexivity].
Qed.

Lemma occurs_closers (a : string) : occurs "]" a = false <-> closers a = 0%nat.
Proof.
  induction a as [|c a IH]; [split; reflexivity|].
  cbn [occurs]. rewrite closers_cons. destruct (Ascii.eqb c "]"); simpl.
  - split; [discriminate|lia].
  - rewrite IH. reflexivity.
Qed.

Lemma indexOf_cases (s pat : string) (from : Z) :
  (indexOf s pat from = -1
   /\ find pat (drop_chars (Z.to_nat (Z.min (Z.max from 0) (Z.of_nat (String.length s)))) s)
      = None)
  \/ exists i,
       find pat (drop_chars (Z.to_nat (Z.min (Z.max from 0) (Z.of_nat (String.length s)))) s)
       = Some i
       /\ indexOf s pat from
          = Z.of_nat (Z.to_nat (Z.min (Z.max from 0) (Z.of_nat (String.length s))) + i).
Proof.
  unfold indexOf. destruct (find pat _) as [i|]; [right; eauto|left; auto].
Qed.

Lemma slice_to_zero (s : string) (start : Z) : slice s start 0 = "".
Proof.
  unfold slice. change (0 <? 0) with false. cbv iota.
  match goal with
  | |- String.substring ?n ?m _ = _ =>
      replace m with 0%nat by (destruct (Z.ltb_spec start 0); lia)
  end.
  apply substring_none.
Qed.

Lemma slice_last (a rest : string) (c : ascii) :
  slice (a +:+ String c rest) (-1) (Z.of_nat (String.length a) + 1)
  = match rest with
    | EmptyString => String c ""
    | String _ _ => ""
    end.
Proof.
  unfold slice. rewrite length_app. change (-1 <? 0) with true. cbv iota.
  destruct (Z.ltb_spec (Z.of_nat (String.length a) + 1) 0); [lia|].
  destruct rest as [|c' rest]; cbn [String.length].
  - match goal with
    | |- String.substring ?n ?m _ = _ =>
        replace n with (String.length a) by lia;
        replace m with (String.length (String c "")) by (simpl; lia)
    end.
    rewrite <- (app_nil_r (a +:+ String c "")). rewrite app_assoc. apply substring_app.
  - match goal with
    | |- String.substring ?n ?m _ = _ => replace m with 0%nat by lia
    end.
    apply substring_none.
Qed.

(** The text that the handler hands to [JSON.parse] is empty, or a closing
    bracket alone, or it runs from the opening bracket at [jsonStart] to the
    first closing bracket after it. *)
Lemma extracted_shape (p : string) :
  Server.extracted p = ""
  \/ Server.extracted p = "]"
  \/ exists pre b post,
       p = pre +:+ (String "[" b +:+ "]") +:+ post
       /\ Server.jsonStart p = Z.of_nat (String.length pre)
       /\ closers b = 0%nat
       /\ Server.extracted p = String "[" b +:+ "]".
Proof.
  unfold Server.extracted, Server.jsonEnd.
  destruct (indexOf_cases p "[" (Server.dataStart p)) as [[Hjs _]|(i & Hi & Hjs)];
    fold (Server.jsonStart p) in Hjs; rewrite Hjs.
  - (* no opening bracket *)
    destruct (indexOf_cases p "]" (-1)) as [[He _]|(j & Hj & He)]; rewrite He.
    + left. change (-1 + 1) with 0. apply slice_to_zero.
    + replace (Z.to_nat (Z.min (Z.max (-1) 0) (Z.of_nat (String.length p)))) with 0%nat
        in Hj, He by lia.
      change (drop_chars 0 p) with p in Hj.
      apply find_char_inv in Hj as (a & rest & -> & Hl & _).
      match goal with
      | |- context [slice _ _ (Z.of_nat ?n + 1)] =>
          replace n with (String.length a) by lia
      end.
      rewrite slice_last. destruct rest; [right; left|left]; reflexivity.
  - (* an opening bracket *)
    set (k := Z.to_nat (Z.min (Z.max (Server.dataStart p) 0) (Z.of_nat (String.length p))))
      in *.
    pose proof (find_prefix _ _ _ Hi) as Hpre. rewrite drop_chars_add in Hpre.
    destruct (drop_chars_split (k + i) p) as (pre & Hp & Hl).
    destruct (drop_chars (k + i) p) as [|c r0] eqn:Ed; [discriminate|].
    rewrite prefix_char in Hpre. destruct (ascii_dec "[" c) as [<-|]; [|discriminate].
    specialize (Hl ltac:(discriminate)).
    assert (Hlen : (k + i < String.length p)%nat).
    { rewrite Hp, length_app. simpl. lia. }
    destruct (indexOf_cases p "]" (Z.of_nat (k + i))) as [[He _]|(j & Hj & He)]; rewrite He.
    + left. change (-1 + 1) with 0. apply slice_to_zero.
    + replace (Z.to_nat (Z.min (Z.max (Z.of_nat (k + i)) 0) (Z.of_nat (String.length p))))
        with (k + i)%nat in Hj, He by lia.
      rewrite Ed in Hj. apply find_char_inv in Hj as (a & rest & Ha & Hla & Ho).
      destruct a as [|c a].
      { change ("" +:+ String "]" rest) with (String "]" rest) in Ha. discriminate. }
      rewrite app_cons in Ha. injection Ha as <- ->.
      cbn [occurs] in Ho. apply orb_false_elim in Ho as [_ Ho]. apply occurs_closers in Ho.
      right. right. exists pre, a, rest.
      assert (Hp' : p = pre +:+ (String "[" a +:+ "]") +:+ rest).
      { rewrite Hp at 1. rewrite !app_assoc. reflexivity. }
      split; [exact Hp'|]. split; [rewrite Hl; reflexivity|]. split; [exact Ho|].
      rewrite Hp' at 1.
      replace (Z.of_nat (k + i)) with (Z.of_nat (String.length pre)) by lia.
      match goal with
      | |- slice _ _ (Z.of_nat ?n + 1) = _ =>
          replace (Z.of_nat n + 1)
            with (Z.of_nat (String.length pre + String.length (String "[" a +:+ "]")))
            by (rewrite length_app; cbn [String.length] in *; lia)
      end.
      apply slice_middle.
Qed.

Lemma extracted_parses (p : string) (j : json) :
  JSON_parse (Server.extracted p) = Some j ->
  exists pre b post,
    p = pre +:+ (String "[" b +:+ "]") +:+ post
    /\ Server.jsonStart p = Z.of_nat (String.length pre)
    /\ closers b = 0%nat
    /\ Server.extracted p = String "[" b +:+ "]".
Proof.
  intros H. destruct (extracted_shape p) as [E|[E|E]]; [| |exact E];
    rewrite E in H; vm_compute in H; discriminate.
Qed.

Lemma arrays_flat (vs : list json) :
  list_sum (map arrays vs) = 0%nat -> Forall (fun v => arrays v = 0%nat) vs.
Proof.
  induction vs as [|v vs IH]; [constructor|]. cbn [map]. rewrite sum_cons. intros H.
  constructor; [lia|apply IH; lia].
Qed.

Lemma parse_violations_flat (p : string) (j : json) :
  Server.parse_violations p = Returns j ->
  exists elements, j = JArr elements /\ Forall (fun v => arrays v = 0%nat) elements.
Proof.
  unfold Server.parse_violations.
  destruct (JSON_parse (Server.extracted p)) as [j'|] eqn:E; [|discriminate].
  intros H. injection H as ->.
  destruct (extracted_parses p j E) as (pre & b & post & _ & _ & Hb & Hx).
  rewrite Hx in E. apply parse_with_some in E as (r & E & _). rewrite app_cons in E.
  destruct (parse_value_bracket _ _ _ _ E) as (vs & ->).
  apply (proj1 (parse_counts _)) in E. cbn [arrays] in E.
  rewrite closers_cons, closers_app in E. change (closers "]") with 1%nat in E.
  change (Ascii.eqb "[" "]") with false in E. cbv iota in E.
  exists vs. split; [reflexivity|]. apply arrays_flat. lia.
Qed.

(** X15.  Whatever the prompt, a value that the inner [try] of [/analyze]
    returns is an array, and no element of it holds an array at any depth:
    the text ends at the first closing bracket. *)
Theorem parsed_prompt_is_flat (p : string) (j : json) :
  Server.parse_violations p = Returns j ->
  exists elements, j = JArr elements /\ Forall (fun v => arrays v = 0%nat) elements.
Proof. apply parse_violations_flat. Qed.

Lemma parsed_prompt_is_flat_witness :
  exists elements,
    JArr [JObj [("impact", JStr "serious"); ("help", JStr "Fix it")]] = JArr elements
    /\ Forall (fun v => arrays v = 0%nat) elements.
Proof.
  apply (parsed_prompt_is_flat flat_prompt). vm_compute. reflexivity.
Defined.

(** X16.  What the outer [try] of [/analyze] can catch: the error of the
    inner [try], when the extracted text does not parse; the [TypeError] of
    the reducer on a [null] element, when every element before the first
    [null] is of the typing; or what lines 114 to 151 throw on an array in
    which a value outside the typing comes before any [null].  The error of
    the [Array.isArray] guard is not among them. *)
Theorem analyze_failures (untyped : list json -> outcome report) (p : string) (e : error) :
  Server.analyzed untyped p = Throws e ->
  (JSON_parse (Server.extracted p) = None
   /\ e = Error "Invalid accessibility data format")
  \/ (exists elements vs,
        Server.parse_violations p = Returns (JArr elements)
        /\ mapM Server.violation_of_json (Server.before_null elements) = Some vs
        /\ existsb Server.is_null elements = true
        /\ e = Server.null_impact)
  \/ (exists elements,
        Server.parse_violations p = Returns (JArr elements)
        /\ mapM Server.violation_of_json (Server.before_null elements) = None
        /\ untyped elements = Throws e).
Proof.
  unfold Server.analyzed. destruct (Server.parse_violations p) as [j|e'] eqn:E.
  - destruct (parse_violations_flat p j E) as (elements & -> & _). cbn [JS.bind].
    destruct (mapM Server.violation_of_json (Server.before_null elements)) as [vs|] eqn:Hm.
    + destruct (existsb Server.is_null elements) eqn:Hn; [|discriminate].
      intros H. injection H as <-. right. left. exists elements, vs. auto.
    + intros H. right. right. exists elements. auto.
  - cbn [JS.bind]. intros H. injection H as <-. left.
    unfold Server.parse_violations in E.
    destruct (JSON_parse (Server.extracted p)); [discriminate|]. injection E as <-.
    split; reflexivity.
Qed.

Lemma analyze_failures_witness :
  (JSON_parse (Server.extracted "[ 1, null ]") = None
   /\ Server.null_impact = Error "Invalid accessibility data format")
  \/ (exists elements vs,
        Server.parse_violations "[ 1, null ]" = Returns (JArr elements)
        /\ mapM Server.violation_of_json (Server.before_null elements) = Some vs
        /\ existsb Server.is_null elements = true
        /\ Server.null_impact = Server.null_impact)
  \/ (exists elements,
        Server.parse_violations "[ 1, null ]" = Returns (JArr elements)
        /\ mapM Server.violation_of_json (Server.before_null elements) = None
        /\ Server.strict elements = Throws Server.null_impact).
Proof.
  apply (analyze_failures Server.strict "[ 1, null ]"). vm_compute. reflexivity.
Defined.

Lemma lookup_arrays (k : string) (ms : list (string * json)) (w : json) :
  lookup k ms = Some w ->
  (arrays w <= list_sum (map (fun m => arrays (snd m)) ms))%nat.
Proof.
  induction ms as [|[k' v] ms IH]; cbn [lookup map snd]; [discriminate|].
  rewrite sum_cons. destruct (lookup k ms) as [w'|].
  - intros H. injection H as <-. specialize (IH eq_refl). lia.
  - destruct (String.eqb k k'); [|discriminate]. intros H. injection H as <-. lia.
Qed.

Lemma violation_without_arrays (j : json) (v : violation) :
  arrays j = 0%nat -> Server.violation_of_json j = Some v -> nodes v = None.
Proof.
  intros Hj. destruct j as [| | | |vs|ms]; cbn [Server.violation_of_json];
    try (intros H; injection H as <-; reflexivity).
  destruct (Server.tag _); [|discriminate].
  destruct (Server.text (lookup "help" ms)); [|discriminate].
  destruct (Server.text (lookup "description" ms)); [|discriminate].
  destruct (lookup "nodes" ms) as [w|] eqn:E; cbn [Server.nodes_of_json].
  - apply lookup_arrays in E. cbn [arrays] in Hj.
    destruct w as [| | | |ns|ms']; try discriminate.
    + intros H. injection H as <-. reflexivity.
    + cbn [arrays] in E. lia.
  - intros H. injection H as <-. reflexivity.
Qed.

Lemma violations_without_arrays (elements : list json) (vs : list violation) :
  Forall (fun v => arrays v = 0%nat) elements ->
  mapM Server.violation_of_json elements = Some vs ->
  Forall (fun v => nodes v = None) vs.
Proof.
  intros Hflat Hm. apply mapM_Some in Hm.
  induction Hm as [|j v elements vs Hj _ IH]; [constructor|].
  apply Forall_cons in Hflat as [H0 Hflat].
  constructor; [exact (violation_without_arrays j v H0 Hj)|exact (IH Hflat)].
Qed.

(** X17.  No violation that reaches the heuristic of [/analyze] through the
    typing of the rule engine carries nodes: a [nodes] array would have closed
    the extracted text.  The count of affected elements and the failure
    summary of a recommendation are therefore never filled in. *)
Theorem nodes_never_reach_the_heuristic (p : string) (elements : list json)
    (vs : list violation) :
  Server.parse_violations p = Returns (JArr elements) ->
  mapM Server.violation_of_json elements = Some vs ->
  Forall (fun v => nodes v = None
                   /\ Server.node_count v = 0%nat
                   /\ Server.first_failure v = VUndefined) vs.
Proof.
  intros Hp Hm. destruct (parse_violations_flat p _ Hp) as (l & Hl & Hflat).
  injection Hl as <-.
  eapply Forall_impl; [exact (violations_without_arrays elements vs Hflat Hm)|].
  intros v Hv. unfold Server.node_count, Server.first_failure. rewrite Hv. auto.
Qed.

Lemma nodes_never_reach_the_heuristic_witness :
  Forall (fun v => nodes v = None
                   /\ Server.node_count v = 0%nat
                   /\ Server.first_failure v = VUndefined)
    [{| impact := VString "serious"; help := VString "Fix it";
        description := VUndefined; nodes := None |}].
Proof.
  apply (nodes_never_reach_the_heuristic flat_prompt
           [JObj [("impact", JStr "serious"); ("help", JStr "Fix it")]]);
    vm_compute; reflexivity.
Defined.

Lemma analyze_rejects (untyped : list json -> outcome report) (p : string) :
  p <> "" ->
  JSON_parse (Server.extracted p) = None ->
  Server.analyze untyped (Some p)
  = {| status := 500;
       payload :=
         {| body_violations := None; body_passes := None;
            body_error := Some "Analysis failed: Invalid accessibility data format";
            body_details := Some "Error: Invalid accessibility data format";
            body_report := None |} |}.
Proof.
  intros Hp Hj. unfold Server.analyze. change (default "" (Some p)) with p.
  destruct (String.eqb_spec p ""); [contradiction|].
  unfold Server.analyzed, Server.parse_violations. rewrite Hj. reflexivity.
Qed.

(** X18.  A prompt without an opening bracket, or without a closing one, is
    answered 500 with the error of the inner [try]. *)
Theorem missing_bracket_is_rejected (untyped : list json -> outcome report) (p : string) :
  p <> "" ->
  occurs "[" p = false \/ occurs "]" p = false ->
  Server.analyze untyped (Some p)
  = {| status := 500;
       payload :=
         {| body_violations := None; body_passes := None;
            body_error := Some "Analysis failed: Invalid accessibility data format";
            body_details := Some "Error: Invalid accessibility data format";
            body_report := None |} |}.
Proof.
  intros Hp Hb. apply analyze_rejects; [exact Hp|].
  destruct (JSON_parse (Server.extracted p)) as [j|] eqn:E; [exfalso|reflexivity].
  destruct (extracted_parses p j E) as (pre & b & post & -> & _).
  rewrite !occurs_app in Hb. cbn [occurs] in Hb.
  change (Ascii.eqb "[" "[") with true in Hb. change (Ascii.eqb "]" "]") with true in Hb.
  cbn [orb] in Hb.
  destruct Hb as [Hb|Hb]; [destruct (occurs "[" pre)|destruct (occurs "]" pre)];
    try discriminate.
  destruct (Ascii.eqb "[" "]" || occurs "]" b); discriminate.
Qed.

Lemma missing_bracket_is_rejected_witness :
  Server.analyze Server.strict (Some "Accessibility scan data for http://a.b: [ 1, 2")
  = {| status := 500;
       payload :=
         {| body_violations := None; body_passes := None;
            body_error := Some "Analysis failed: Invalid accessibility data format";
            body_details := Some "Error: Invalid accessibility data format";
            body_report := None |} |}.
Proof.
  apply missing_bracket_is_rejected; [discriminate|right; vm_compute; reflexivity].
Defined.

Lemma extracted_flat (pre b post : string) :
  Server.jsonStart (pre +:+ (String "[" b +:+ "]") +:+ post)
  = Z.of_nat (String.length pre) ->
  closers b = 0%nat ->
  Server.extracted (pre +:+ (String "[" b +:+ "]") +:+ post) = String "[" b +:+ "]".
Proof.
  intros Hs Hb. unfold Server.extracted, Server.jsonEnd. rewrite Hs.
  replace (pre +:+ (String "[" b +:+ "]") +:+ post)
    with (pre +:+ String "[" b +:+ String "]" post)
    by (rewrite !app_assoc; reflexivity).
  rewrite (indexOf_closer pre (String "[" b) post) by (rewrite closers_cons; exact Hb).
  replace (pre +:+ String "[" b +:+ String "]" post)
    with (pre +:+ (String "[" b +:+ "]") +:+ post)
    by (rewrite !app_assoc; reflexivity).
  replace (Z.of_nat (String.length pre + String.length (String "[" b)) + 1)
    with (Z.of_nat (String.length pre + String.length (String "[" b +:+ "]")))
    by (rewrite length_app; cbn [String.length]; lia).
  apply slice_middle.
Qed.

(** X19.  The answer of [/analyze] depends on the prompt only through the
    text between the first opening bracket after the marker and the first
    closing bracket that follows: the instructions before it and the totals
    after it play no part. *)
Theorem prompt_context_is_ignored (untyped : list json -> outcome report)
    (pre post pre' post' b : string) :
  Server.jsonStart (pre +:+ (String "[" b +:+ "]") +:+ post)
  = Z.of_nat (String.length pre) ->
  Server.jsonStart (pre' +:+ (String "[" b +:+ "]") +:+ post')
  = Z.of_nat (String.length pre') ->
  closers b = 0%nat ->
  Server.analyze untyped (Some (pre +:+ (String "[" b +:+ "]") +:+ post))
  = Server.analyze untyped (Some (pre' +:+ (String "[" b +:+ "]") +:+ post')).
Proof.
  intros Hs Hs' Hb. unfold Server.analyze. change (default "" (Some ?p)) with p.
  rewrite !app_eqb_empty by (apply app_not_empty; rewrite app_cons; discriminate).
  unfold Server.analyzed, Server.parse_violations.
  rewrite (extracted_flat pre b post Hs Hb), (extracted_flat pre' b post' Hs' Hb).
  reflexivity.
Qed.

Lemma prompt_context_is_ignored_witness :
  Server.analyze Server.strict
    (Some ("Accessibility scan data for x: " +:+ (String "[" " null " +:+ "]")
           +:+ " Total violations: 1"))
  = Server.analyze Server.strict (Some ("" +:+ (String "[" " null " +:+ "]") +:+ "")).
Proof.
  apply prompt_context_is_ignored; vm_compute; reflexivity.
Defined.

(** X20.  A prompt whose array is empty is answered 200 with the score 100,
    the severity [low] and an empty list of recommendations: the server has no
    recommendation of its own for a page without violations. *)
Theorem empty_array_is_all_clear (untyped : list json -> outcome report)
    (pre post : string) :
  Server.jsonStart (pre +:+ "[]" +:+ post) = Z.of_nat (String.length pre) ->
  Server.analyze untyped (Some (pre +:+ "[]" +:+ post))
  = {| status := 200;
       payload :=
         {| body_violations := None; body_passes := None; body_error := None;
            body_details := None;
            body_report :=
              Some (stringify
                      (JObj [("summary",
                              JStr "Analysis found 0 accessibility issues: 0 critical, 0 serious, 0 moderate. This website requires low priority attention.");
                             ("recommendations", JArr []);
                             ("severity", JStr "low");
                             ("score", JNum "100")])) |} |}.
Proof.
  intros Hs.
  rewrite (analyze_typed untyped (pre +:+ "[]" +:+ post) [] []).
  - reflexivity.
  - apply String.eqb_neq, app_eqb_empty. discriminate.
  - pose proof (extracted_flat pre "" post Hs eq_refl) as Hx.
    change (String "[" "" +:+ "]") with "[]" in Hx. rewrite Hx. vm_compute. reflexivity.
  - reflexivity.
  - reflexivity.
Qed.

Lemma empty_array_is_all_clear_witness :
  Server.analyze Server.strict (Some ("Accessibility scan data for x: " +:+ "[]" +:+ " end"))
  = {| status := 200;
       payload :=
         {| body_violations := None; body_passes := None; body_error := None;
            body_details := None;
            body_report :=
              Some (stringify
                      (JObj [("summary",
                              JStr "Analysis found 0 accessibility issues: 0 critical, 0 serious, 0 moderate. This website requires low priority attention.");
                             ("recommendations", JArr []);
                             ("severity", JStr "low");
                             ("score", JNum "100")])) |} |}.
Proof.
  apply empty_array_is_all_clear. vm_compute. reflexivity.
Defined.

(** X21.  The marker is optional: in a prompt without it the array is looked
    for from the start, and is the one at the first opening bracket. *)
Theorem marker_is_optional (pre rest : string) :
  find Server.marker (pre +:+ String "[" rest) = None ->
  occurs "[" pre = false ->
  Server.dataStart (pre +:+ String "[" rest) = -1
  /\ Server.jsonStart (pre +:+ String "[" rest) = Z.of_nat (String.length pre).
Proof.
  intros Hm Hp.
  assert (Hd : Server.dataStart (pre +:+ String "[" rest) = -1).
  { unfold Server.dataStart, indexOf. replace (Z.to_nat _) with 0%nat by lia.
    change (drop_chars 0 ?x) with x. rewrite Hm. reflexivity. }
  split; [exact Hd|]. unfold Server.jsonStart. rewrite Hd. unfold indexOf.
  replace (Z.to_nat _) with 0%nat by lia. change (drop_chars 0 ?x) with x.
  rewrite (find_char "[" pre rest Hp). reflexivity.
Qed.

Lemma marker_is_optional_witness :
  Server.dataStart ("scan: " +:+ String "[" "]") = -1
  /\ Server.jsonStart ("scan: " +:+ String "[" "]") = Z.of_nat (String.length "scan: ").
Proof.
  apply marker_is_optional; vm_compute; reflexivity.
Defined.

(** X22.  With the marker in the prompt, the brackets before it are passed
    over, such as those of the structure that the client's prompt shows
    first: the array starts at the first opening bracket from the marker
    on. *)
Theorem brackets_before_marker_are_skipped (p0 p1 rest : string) :
  find Server.marker (p0 +:+ Server.marker +:+ p1 +:+ String "[" rest)
  = Some (String.length p0) ->
  occurs "[" p1 = false ->
  Server.jsonStart (p0 +:+ Server.marker +:+ p1 +:+ String "[" rest)
  = Z.of_nat (String.length (p0 +:+ Server.marker +:+ p1)).
Proof. apply jsonStart_after_marker. Qed.

Lemma brackets_before_marker_are_skipped_witness :
  Server.jsonStart ("[1] " +:+ Server.marker +:+ " x: " +:+ String "[" "]")
  = Z.of_nat (String.length ("[1] " +:+ Server.marker +:+ " x: ")).
Proof.
  apply brackets_before_marker_are_skipped; vm_compute; reflexivity.
Defined.

(** ** The report on its way to the client *)

Lemma skip_ws_head (c : ascii) (r : string) :
  is_ws c = false -> skip_ws (String c r) = String c r.
Proof. intros H. cbn [skip_ws]. rewrite H. reflexivity. Qed.

(** The parser reads an escaped character back as the character. *)
Lemma parse_chars_escape (c : ascii) (r : string) :
  parse_chars (escape c +:+ r) = cons_chars (String c "") (parse_chars r).
Proof. destruct c as [[] [] [] [] [] [] [] []]; reflexivity. Qed.

Lemma parse_chars_quoted (s r : string) :
  parse_chars (escape_all s +:+ String dquote r) = Some (s, r).
Proof.
  induction s as [|c s IH]; [reflexivity|].
  cbn [escape_all]. rewrite app_assoc, parse_chars_escape, IH. reflexivity.
Qed.

Lemma quoted_app (s r : string) :
  quoted s +:+ r = String dquote (escape_all s +:+ String dquote r).
Proof. unfold quoted. rewrite app_cons, app_assoc. reflexivity. Qed.

Lemma skip_ws_quoted (s r : string) :
  skip_ws (quoted s +:+ r) = String dquote (escape_all s +:+ String dquote r).
Proof. rewrite quoted_app. apply skip_ws_head. reflexivity. Qed.

Lemma value_step_string (elements : string -> option (list json * string))
    (members : string -> option (list (string * json) * string)) (s r : string) :
  value_step elements members (quoted s +:+ r) = Some (JStr s, r).
Proof.
  unfold value_step. rewrite skip_ws_quoted.
  change (Ascii.eqb dquote "[") with false. change (Ascii.eqb dquote "{") with false.
  change (Ascii.eqb dquote dquote) with true. cbv iota.
  rewrite parse_chars_quoted. reflexivity.
Qed.

Lemma parse_value_string (n : nat) (s r : string) :
  parse_value (S n) (quoted s +:+ r) = Some (JStr s, r).
Proof. cbn [parse_value]. apply value_step_string. Qed.

Lemma parse_elements_strings (l : list string) :
  forall (x : string) (n : nat) (r : string),
    (length l <= n)%nat ->
    parse_elements (S (S n)) (commas (map quoted (x :: l)) +:+ String "]" r)
    = Some (map JStr (x :: l), r).
Proof.
  induction l as [|y l IH]; intros x n r Hn.
  - change (commas (map quoted [x])) with (quoted x).
    change (parse_elements (S (S n)) ?t)
      with (elements_step (parse_value (S n)) (parse_elements (S n)) t).
    unfold elements_step. rewrite parse_value_string.
    rewrite skip_ws_head by reflexivity. reflexivity.
  - change (commas (map quoted (x :: y :: l)))
      with (quoted x +:+ "," +:+ commas (map quoted (y :: l))).
    rewrite !app_assoc. change ("," +:+ ?t) with (String "," t).
    destruct n as [|n]; [simpl in Hn; lia|].
    change (parse_elements (S (S (S n))) ?t)
      with (elements_step (parse_value (S (S n))) (parse_elements (S (S n))) t).
    unfold elements_step. rewrite parse_value_string.
    rewrite skip_ws_head by reflexivity.
    change (Ascii.eqb "," ",") with true. cbv iota.
    rewrite (IH y n r) by (simpl in Hn; lia). reflexivity.
Qed.

Lemma commas_head (x : string) (l : list string) : exists t, commas (x :: l) = x +:+ t.
Proof.
  destruct l as [|y l].
  - exists "". symmetry. apply app_nil_r.
  - exists ("," +:+ commas (y :: l)). reflexivity.
Qed.

Lemma parse_value_strings (l : list string) (n : nat) (r : string) :
  (length l <= n)%nat ->
  parse_value (S (S (S n))) (stringify (JArr (map JStr l)) +:+ r)
  = Some (JArr (map JStr l), r).
Proof.
  intros Hn.
  assert (Ht : stringify (JArr (map JStr l)) +:+ r
               = String "[" (commas (map quoted l) +:+ String "]" r)).
  { cbn [stringify]. rewrite List.map_map.
    change (fun x => stringify (JStr x)) with quoted.
    rewrite !app_assoc. reflexivity. }
  rewrite Ht.
  change (parse_value (S (S (S n))) ?t)
    with (value_step (parse_elements (S (S n))) (parse_members (S (S n))) t).
  unfold value_step. rewrite skip_ws_head by reflexivity.
  change (Ascii.eqb "[" "[") with true. cbv iota.
  destruct l as [|x l]; [reflexivity|].
  destruct (commas_head (quoted x) (map quoted l)) as (t & Hx).
  assert (Hs : skip_ws (commas (map quoted (x :: l)) +:+ String "]" r)
               = String dquote (escape_all x +:+ String dquote (t +:+ String "]" r))).
  { cbn [map]. rewrite Hx, app_assoc. apply skip_ws_quoted. }
  rewrite Hs. change (Ascii.eqb dquote "]") with false. cbv iota.
  rewrite parse_elements_strings by (simpl in Hn; lia). reflexivity.
Qed.

(** A score of the heuristics is written as a number that the parser reads
    back. *)
Lemma value_step_score (elements : string -> option (list json * string))
    (members : string -> option (list (string * json) * string)) (n : nat) (r : string) :
  (n <= 100)%nat ->
  value_step elements members (of_nat n +:+ String "}" r)
  = Some (JNum (of_nat n), String "}" r).
Proof.
  intros H. do 101 (destruct n as [|n]; [reflexivity|]). lia.
Qed.

Lemma member_more (value : string -> option (json * string))
    (members : string -> option (list (string * json) * string))
    (k sv rest r : string) (v : json) (ms : list (string * json)) :
  value (sv +:+ String "," rest) = Some (v, String "," rest) ->
  members rest = Some (ms, r) ->
  members_step value members (quoted k +:+ String ":" (sv +:+ String "," rest))
  = Some ((k, v) :: ms, r).
Proof.
  intros Hv Hm. unfold members_step. rewrite skip_ws_quoted.
  change (Ascii.eqb dquote dquote) with true. cbv iota.
  rewrite parse_chars_quoted. rewrite skip_ws_head by reflexivity.
  change (Ascii.eqb ":" ":") with true. cbv iota. rewrite Hv.
  rewrite skip_ws_head by reflexivity.
  change (Ascii.eqb "," ",") with true. cbv iota. rewrite Hm. reflexivity.
Qed.

Lemma member_last (value : string -> option (json * string))
    (members : string -> option (list (string * json) * string))
    (k sv r : string) (v : json) :
  value (sv +:+ String "}" r) = Some (v, String "}" r) ->
  members_step value members (quoted k +:+ String ":" (sv +:+ String "}" r))
  = Some ([(k, v)], r).
Proof.
  intros Hv. unfold members_step. rewrite skip_ws_quoted.
  change (Ascii.eqb dquote dquote) with true. cbv iota.
  rewrite parse_chars_quoted. rewrite skip_ws_head by reflexivity.
  change (Ascii.eqb ":" ":") with true. cbv iota. rewrite Hv.
  rewrite skip_ws_head by reflexivity. reflexivity.
Qed.

Lemma report_text (r : report) :
  stringify (Server.json_of_report r)
  = String "{"
      (quoted "summary" +:+ String ":"
         (quoted (summary r) +:+ String ","
            (quoted "recommendations" +:+ String ":"
               (stringify (JArr (map JStr (recommendations r))) +:+ String ","
                  (quoted "severity" +:+ String ":"
                     (quoted (severity r) +:+ String ","
                        (quoted "score" +:+ String ":"
                           (of_nat (Z.to_nat (score r)) +:+ String "}" "")))))))).
Proof.
  unfold Server.json_of_report.
  set (a := JArr (map JStr (recommendations r))).
  cbn [stringify map fst snd]. fold (stringify a).
  unfold commas. cbn [String.concat]. rewrite !app_assoc. reflexivity.
Qed.

Lemma report_text_parses (r : report) :
  0 <= score r <= 100 ->
  JSON_parse (stringify (Server.json_of_report r)) = Some (Server.json_of_report r).
Proof.
  intros Hs. apply JSON_parse_complete.
  exists (S (S (S (S (S (S (length (recommendations r)))))))).
  apply parse_with_some. exists "". split; [|reflexivity].
  rewrite report_text. set (K := length (recommendations r)).
  change (parse_value (S (S (S (S (S (S K)))))) ?t)
    with (value_step (parse_elements (S (S (S (S (S K))))))
            (parse_members (S (S (S (S (S K)))))) t).
  unfold value_step. rewrite skip_ws_head by reflexivity.
  change (Ascii.eqb "{" "[") with false. change (Ascii.eqb "{" "{") with true. cbv iota.
  rewrite skip_ws_quoted. change (Ascii.eqb dquote "}") with false. cbv iota.
  change (parse_members (S (S (S (S (S K))))) ?t)
    with (members_step (parse_value (S (S (S (S K))))) (parse_members (S (S (S (S K))))) t).
  erewrite member_more; [reflexivity|apply parse_value_string|].
  change (parse_members (S (S (S (S K)))) ?t)
    with (members_step (parse_value (S (S (S K)))) (parse_members (S (S (S K)))) t).
  apply member_more; [apply parse_value_strings; lia|].
  change (parse_members (S (S (S K))) ?t)
    with (members_step (parse_value (S (S K))) (parse_members (S (S K))) t).
  apply member_more; [apply parse_value_string|].
  change (parse_members (S (S K)) ?t)
    with (members_step (parse_value (S K)) (parse_members (S K)) t).
  apply member_last. cbn [parse_value]. apply value_step_score. lia.
Qed.

Lemma analysis_score_range (vs : list violation) : 0 <= score (Server.analysis vs) <= 100.
Proof. destruct (server_report vs) as [_ ->]. apply spec_score_range. Qed.

(** X23.  [JSON.parse] gives back the report that [JSON.stringify] wrote,
    whatever characters the summary and the recommendations hold, for every
    score from 0 to 100. *)
Theorem report_survives_the_wire (r : report) :
  0 <= score r <= 100 ->
  JSON_parse (stringify (Server.json_of_report r)) = Some (Server.json_of_report r).
Proof. apply report_text_parses. Qed.

Lemma report_survives_the_wire_witness :
  JSON_parse (stringify (Server.json_of_report all_clear))
  = Some (Server.json_of_report all_clear).
Proof. apply report_survives_the_wire. simpl. lia. Defined.

Lemma stringify_report_not_empty (r : report) : stringify (Server.json_of_report r) <> "".
Proof. rewrite report_text. discriminate. Qed.

(** X24.  When [/analyze] reads the array of a prompt at the typing of the
    rule engine, the client that receives the answer hands back the very
    report the server's heuristic made, and does not fall back on its own. *)
Theorem server_report_reaches_client (untyped : list json -> outcome report)
    (prompt text : string) (elements : list json) (vs ps : list violation)
    (a : axe_results) :
  prompt <> "" ->
  JSON_parse (Server.extracted prompt) = Some (JArr elements) ->
  existsb Server.is_null elements = false ->
  mapM Server.violation_of_json elements = Some vs ->
  Forall has_nodes (violations a) ->
  passes a = Some ps ->
  Client.analyzePage a (over_http text (Server.analyze untyped (Some prompt)))
  = Returns (Client.Parsed (Server.json_of_report (Server.analysis vs))).
Proof.
  intros Hp Hj Hn Hm Ha Hps.
  rewrite (analyze_typed untyped prompt elements vs Hp Hj Hn Hm).
  unfold Client.analyzePage, Client.requested, Client.prompt_numbers.
  destruct (total_nodes_returns _ Ha) as (m & ->). rewrite Hps.
  unfold over_http. cbn [JS.bind status payload Nat.leb andb negb body_report].
  pose proof (stringify_report_not_empty (Server.analysis vs)) as Hne.
  apply String.eqb_neq in Hne. rewrite Hne.
  unfold Client.parse_report.
  rewrite (report_text_parses _ (analysis_score_range vs)). reflexivity.
Qed.

Lemma server_report_reaches_client_witness :
  Client.analyzePage {| violations := []; passes := Some [] |}
    (over_http "OK" (Server.analyze Server.strict (Some flat_prompt)))
  = Returns (Client.Parsed
               (Server.json_of_report
                  (Server.analysis
                     [{| impact := VString "serious"; help := VString "Fix it";
                         description := VUndefined; nodes := None |}]))).
Proof.
  apply (server_report_reaches_client Server.strict flat_prompt "OK"
           [JObj [("impact", JStr "serious"); ("help", JStr "Fix it")]] _ []).
  - discriminate.
  - vm_compute. reflexivity.
  - reflexivity.
  - reflexivity.
  - constructor.
  - reflexivity.
Defined.

(** X25.  Every answer of [/analyze] other than 200 sends the client to its
    own heuristic: the 400 for an empty prompt and the 500 of the outer
    [catch] alike. *)
Theorem rejected_prompt_falls_back (untyped : list json -> outcome report)
    (prompt : option string) (text : string) (a : axe_results) :
  status (Server.analyze untyped prompt) <> 200%nat ->
  (status (Server.analyze untyped prompt) = 400%nat
   \/ status (Server.analyze untyped prompt) = 500%nat)
  /\ Client.analyzePage a (over_http text (Server.analyze untyped prompt))
     = Client.simulated a.
Proof.
  intros Hs.
  assert (Hc : status (Server.analyze untyped prompt) = 400%nat
               \/ status (Server.analyze untyped prompt) = 500%nat).
  { revert Hs. unfold Server.analyze.
    destruct (String.eqb (default "" prompt) ""); [left; reflexivity|].
    destruct (Server.analyzed untyped (default "" prompt)); cbn [status];
      [congruence|right; reflexivity]. }
  split; [exact Hc|].
  unfold Client.analyzePage, Client.requested, over_http.
  destruct (Client.prompt_numbers a) as [n|e]; cbn [JS.bind]; [|reflexivity].
  destruct Hc as [-> | ->]; reflexivity.
Qed.

Lemma rejected_prompt_falls_back_witness :
  (status (Server.analyze Server.strict (Some sample_prompt)) = 400%nat
   \/ status (Server.analyze Server.strict (Some sample_prompt)) = 500%nat)
  /\ Client.analyzePage {| violations := [sample "serious" 1]; passes := Some [] |}
       (over_http "Internal Server Error" (Server.analyze Server.strict (Some sample_prompt)))
     = Client.simulated {| violations := [sample "serious" 1]; passes := Some [] |}.
Proof.
  apply rejected_prompt_falls_back. vm_compute. discriminate.
Defined.

(** ** The colour of the score *)

Lemma score_colour_by_penalty (p : Spec.penalties) (vs : list violation) :
  (getScoreColor (Spec.score p vs) = "text-green-600" <-> Spec.total_penalty p vs <= 20)
  /\ (getScoreColor (Spec.score p vs) = "text-yellow-600"
      <-> 20 < Spec.total_penalty p vs <= 50)
  /\ (getScoreColor (Spec.score p vs) = "text-red-600" <-> 50 < Spec.total_penalty p vs).
Proof.
  unfold Spec.score, getScoreColor. rewrite Math_round_integer.
  destruct (Z.leb_spec 80 (Z.max 0 (Z.min 100 (100 - Spec.total_penalty p vs))));
    [|destruct (Z.leb_spec 50 (Z.max 0 (Z.min 100 (100 - Spec.total_penalty p vs))))];
    repeat split; intros; try discriminate; try reflexivity; lia.
Qed.

(** X26.  The colour that [getScoreColor] gives the score of a report of
    either heuristic is green up to 20 points of penalty in that heuristic's
    table, yellow up to 50 and red beyond. *)
Theorem score_colour (vs ps : list violation) :
  ((getScoreColor (score (Server.analysis vs)) = "text-green-600"
    <-> Spec.total_penalty server_penalties vs <= 20)
   /\ (getScoreColor (score (Server.analysis vs)) = "text-yellow-600"
       <-> 20 < Spec.total_penalty server_penalties vs <= 50)
   /\ (getScoreColor (score (Server.analysis vs)) = "text-red-600"
       <-> 50 < Spec.total_penalty server_penalties vs))
  /\ (Forall has_nodes vs ->
      exists r,
        Client.getSimulatedAnalysis {| violations := vs; passes := Some ps |} = Returns r
        /\ (getScoreColor (score r) = "text-green-600"
            <-> Spec.total_penalty client_penalties vs <= 20)
        /\ (getScoreColor (score r) = "text-yellow-600"
            <-> 20 < Spec.total_penalty client_penalties vs <= 50)
        /\ (getScoreColor (score r) = "text-red-600"
            <-> 50 < Spec.total_penalty client_penalties vs)).
Proof.
  split.
  - destruct (server_report vs) as [_ ->]. apply score_colour_by_penalty.
  - intros Hn. destruct (client_report vs ps Hn) as (r & Hr & _ & Hs).
    exists r. split; [exact Hr|]. rewrite Hs. apply score_colour_by_penalty.
Qed.

Lemma score_colour_witness :
  exists r,
    Client.getSimulatedAnalysis
      {| violations := replicate 11 (sample "minor" 1); passes := Some [] |} = Returns r
    /\ (getScoreColor (score r) = "text-green-600"
        <-> Spec.total_penalty client_penalties (replicate 11 (sample "minor" 1)) <= 20)
    /\ (getScoreColor (score r) = "text-yellow-600"
        <-> 20 < Spec.total_penalty client_penalties (replicate 11 (sample "minor" 1)) <= 50)
    /\ (getScoreColor (score r) = "text-red-600"
        <-> 50 < Spec.total_penalty client_penalties (replicate 11 (sample "minor" 1))).
Proof.
  apply (proj2 (score_colour (replicate 11 (sample "minor" 1)) [])).
  repeat constructor; vm_compute; eauto.
Defined.
